(** * A shallow embedding of rdbtools/parser.py

    The parser is a Python 2 program: [/] on integers is floor division,
    [xrange] loops are counted loops, a file's [read(n)] returns at most [n]
    bytes and never raises, and [struct.unpack] raises when it is handed
    fewer bytes than its format needs.  Multi-byte [struct] formats without
    a byte-order prefix are read little-endian (the host order the dump
    format assumes). *)

From Stdlib Require Import ZArith List Lia Bool String.
From Stdlib.Strings Require Import Byte.
From Stdlib Require Import DecimalString.
Import ListNotations.
Open Scope Z_scope.

(** ** Errors and results *)

(** Exceptions the parser can end with.  The first group are the Python
    run-time errors, the second the [raise Exception(site, ...)] statements
    of the source, named after their site. *)
Inductive error : Type :=
| StructError          (* struct.error: short buffer given to unpack *)
| IndexError           (* bytearray index out of range *)
| TypeError            (* len() of an int or of None *)
| ValueError           (* int() or float() of a malformed literal *)
| KeyError             (* DATA_TYPE_MAPPING[data_type] *)
| BadMagic             (* Exception('verify_magic_string', ...) *)
| BadVersion           (* Exception('verify_version', ...) *)
| UnknownType          (* Exception('read_object', 'Invalid object type ...') *)
| BadIntsetEncoding    (* Exception('read_intset', ...) *)
| OddZiplistLength     (* Exception(..., 'Expected even number of elements ...') *)
| BadZiplistEnd        (* Exception(..., 'Invalid zip list end ...') *)
| BadZiplistEntry      (* Exception('read_ziplist_entry', ...) *)
| TruncatedZipmap      (* Exception('read_zip_map', 'Unexepcted end of zip map ...') *)
| LzfLengthMismatch    (* Exception('lzf_decompress', 'Expected lengths do not match ...') *)
| InvalidFilter        (* Exception('init_filter', ...) *)
| OutOfFuel.           (* not a Python error: the model's loop bound was too small *)

Inductive res (A : Type) : Type :=
| OK (a : A)
| Err (e : error).
Arguments OK {A} a.
Arguments Err {A} e.

Definition rbind {A B : Type} (m : res A) (k : A -> res B) : res B :=
  match m with
  | OK a => k a
  | Err e => Err e
  end.

Declare Scope res_scope.
Delimit Scope res_scope with res.
Notation "x <- m ;; k" := (rbind m (fun x => k))
  (at level 61, m at next level, right associativity) : res_scope.
Notation "' p <- m ;; k" := (rbind m (fun x => let 'p := x in k))
  (at level 61, p pattern, m at next level, right associativity) : res_scope.
Open Scope res_scope.

(** ** The byte source *)

Definition stream : Type := list byte.

Definition u8 (b : byte) : Z := Z.of_N (Byte.to_N b).

(** [f.read(n)]: the next [n] bytes, or as many as are left. *)
Definition read (n : Z) (f : stream) : list byte * stream :=
  (firstn (Z.to_nat n) f, skipn (Z.to_nat n) f).

(** [struct.unpack(fmt, f.read(n))]: the [n] bytes, or [struct.error]. *)
Definition unpack (n : nat) (f : stream) : res (list byte * stream) :=
  let s := firstn n f in
  if Nat.eqb (List.length s) n then OK (s, skipn n f) else Err StructError.

Fixpoint le_unsigned (bs : list byte) : Z :=
  match bs with
  | [] => 0
  | b :: t => u8 b + 256 * le_unsigned t
  end.

Fixpoint be_unsigned_from (acc : Z) (bs : list byte) : Z :=
  match bs with
  | [] => acc
  | b :: t => be_unsigned_from (256 * acc + u8 b) t
  end.

Definition be_unsigned (bs : list byte) : Z := be_unsigned_from 0 bs.

(** Two's complement reading of a [w]-bit unsigned value. *)
Definition to_signed (w : Z) (v : Z) : Z :=
  if v <? 2 ^ (w - 1) then v else v - 2 ^ w.

Definition read_unsigned_le (n : nat) (f : stream) : res (Z * stream) :=
  '(s, f) <- unpack n f ;; OK (le_unsigned s, f).

Definition read_signed_le (n : nat) (f : stream) : res (Z * stream) :=
  '(s, f) <- unpack n f ;; OK (to_signed (8 * Z.of_nat n) (le_unsigned s), f).

Definition read_signed_char := read_signed_le 1.
Definition read_unsigned_char := read_unsigned_le 1.
Definition read_signed_short := read_signed_le 2.
Definition read_unsigned_short := read_unsigned_le 2.
Definition read_signed_int := read_signed_le 4.
Definition read_unsigned_int := read_unsigned_le 4.
Definition read_signed_long := read_signed_le 8.
Definition read_unsigned_long := read_unsigned_le 8.

Definition read_big_endian_unsigned_int (f : stream) : res (Z * stream) :=
  '(s, f) <- unpack 4 f ;; OK (be_unsigned s, f).

(** [s = '0' + f.read(3); struct.unpack('i', s)[0] >> 8]: when fewer than
    three bytes are left [s] is shorter than four bytes and unpack raises. *)
Definition read_24bit_signed_number (f : stream) : res (Z * stream) :=
  let (s3, f) := read 3 f in
  '(s, _) <- unpack 4 ("0"%byte :: s3) ;;
  OK (Z.shiftr (to_signed 32 (le_unsigned s)) 8, f).

(** [skip(f, free)]: [if free: f.read(free)]. *)
Definition skip (f : stream) (free : Z) : stream :=
  if free =? 0 then f else snd (read free f).

Definition ntohl (f : stream) : res (Z * stream) :=
  '(val, f) <- read_unsigned_int f ;;
  let new_val := 0 in
  let new_val := Z.lor new_val (Z.shiftl (Z.land val 0x000000ff) 24) in
  let new_val := Z.lor new_val (Z.shiftr (Z.land val 0xff000000) 24) in
  let new_val := Z.lor new_val (Z.shiftl (Z.land val 0x0000ff00) 8) in
  let new_val := Z.lor new_val (Z.shiftr (Z.land val 0x00ff0000) 8) in
  OK (new_val, f).

(** ** Constants of the format *)

Definition REDIS_RDB_6BITLEN := 0.
Definition REDIS_RDB_14BITLEN := 1.
Definition REDIS_RDB_32BITLEN := 2.
Definition REDIS_RDB_ENCVAL := 3.

Definition REDIS_RDB_OPCODE_EXPIRETIME_MS := 252.
Definition REDIS_RDB_OPCODE_EXPIRETIME := 253.
Definition REDIS_RDB_OPCODE_SELECTDB := 254.
Definition REDIS_RDB_OPCODE_EOF := 255.

Definition REDIS_RDB_TYPE_STRING := 0.
Definition REDIS_RDB_TYPE_LIST := 1.
Definition REDIS_RDB_TYPE_SET := 2.
Definition REDIS_RDB_TYPE_ZSET := 3.
Definition REDIS_RDB_TYPE_HASH := 4.
Definition REDIS_RDB_TYPE_HASH_ZIPMAP := 9.
Definition REDIS_RDB_TYPE_LIST_ZIPLIST := 10.
Definition REDIS_RDB_TYPE_SET_INTSET := 11.
Definition REDIS_RDB_TYPE_ZSET_ZIPLIST := 12.
Definition REDIS_RDB_TYPE_HASH_ZIPLIST := 13.

Definition REDIS_RDB_ENC_INT8 := 0.
Definition REDIS_RDB_ENC_INT16 := 1.
Definition REDIS_RDB_ENC_INT32 := 2.
Definition REDIS_RDB_ENC_LZF := 3.

(** ** Length prefix *)

Definition read_length_with_encoding (f : stream) : res ((Z * bool) * stream) :=
  '(b0, f) <- read_unsigned_char f ;;
  let enc_type := Z.shiftr (Z.land b0 0xC0) 6 in
  if enc_type =? REDIS_RDB_ENCVAL then
    OK ((Z.land b0 0x3F, true), f)
  else if enc_type =? REDIS_RDB_6BITLEN then
    OK ((Z.land b0 0x3F, false), f)
  else if enc_type =? REDIS_RDB_14BITLEN then
    '(b1, f) <- read_unsigned_char f ;;
    OK ((Z.lor (Z.shiftl (Z.land b0 0x3F) 8) b1, false), f)
  else
    '(length, f) <- ntohl f ;;
    OK ((length, false), f).

Definition read_length (f : stream) : res (Z * stream) :=
  '(tup, f) <- read_length_with_encoding f ;; OK (fst tup, f).

(** ** Python values handed to the callback *)

(** [read_string] yields a [str], an [int], or [None]. *)
Inductive value : Type :=
| VNone
| VInt (z : Z)
| VStr (s : list byte).

Definition bytes_of_string (s : string) : list byte := list_byte_of_string s.

Definition decimal (z : Z) : list byte :=
  bytes_of_string (NilZero.string_of_int (Z.to_int z)).

(** [str(v)]. *)
Definition py_str (v : value) : list byte :=
  match v with
  | VNone => bytes_of_string "None"
  | VInt z => decimal z
  | VStr s => s
  end.

(** [len(v)]: defined on strings only. *)
Definition py_len (v : value) : res Z :=
  match v with
  | VStr s => OK (Z.of_nat (List.length s))
  | _ => Err TypeError
  end.

(** Truth value of [v] in a condition. *)
Definition truthy (v : value) : bool :=
  match v with
  | VNone => false
  | VInt z => negb (z =? 0)
  | VStr s => negb (Nat.eqb (List.length s) 0)
  end.

(** [bytearray(v)]: the bytes of a string, [n] zero bytes for an int. *)
Definition py_bytearray (v : value) : res (list byte) :=
  match v with
  | VStr s => OK s
  | VInt z => if z <? 0 then Err ValueError else OK (repeat x00 (Z.to_nat z))
  | VNone => Err TypeError
  end.

(** [s[i]] on a bytearray: a negative index counts from the end. *)
Definition getitem (s : list byte) (i : Z) : res byte :=
  let j := if i <? 0 then i + Z.of_nat (List.length s) else i in
  if j <? 0 then Err IndexError
  else match nth_error s (Z.to_nat j) with
       | Some b => OK b
       | None => Err IndexError
       end.

(** ** LZF *)

(** [for x in xrange(0, ctrl + 1)]: the literal run. *)
Fixpoint lzf_literal (n : nat) (in_stream : list byte) (in_index : Z)
    (out_stream : list byte) (out_index : Z) : res (Z * list byte * Z) :=
  match n with
  | O => OK (in_index, out_stream, out_index)
  | S n' =>
      b <- getitem in_stream in_index ;;
      lzf_literal n' in_stream (in_index + 1) (out_stream ++ [b]) (out_index + 1)
  end.

(** [for x in xrange(0, length + 2)]: the back-reference copy. *)
Fixpoint lzf_backref (n : nat) (ref : Z) (out_stream : list byte) (out_index : Z)
    : res (list byte * Z) :=
  match n with
  | O => OK (out_stream, out_index)
  | S n' =>
      b <- getitem out_stream ref ;;
      lzf_backref n' (ref + 1) (out_stream ++ [b]) (out_index + 1)
  end.

(** One turn of [while in_index < in_len], entered with the guard true. *)
Definition lzf_step (in_stream : list byte) (in_index : Z)
    (out_stream : list byte) (out_index : Z) : res (Z * list byte * Z) :=
  c <- getitem in_stream in_index ;;
  let ctrl := u8 c in
  let in_index := in_index + 1 in
  if ctrl <? 32 then
    lzf_literal (Z.to_nat (ctrl + 1)) in_stream in_index out_stream out_index
  else
    let length := Z.shiftr ctrl 5 in
    '(length, in_index) <-
      (if length =? 7 then
         b <- getitem in_stream in_index ;; OK (length + u8 b, in_index + 1)
       else OK (length, in_index)) ;;
    b2 <- getitem in_stream in_index ;;
    let ref := out_index - Z.shiftl (Z.land ctrl 0x1f) 8 - u8 b2 - 1 in
    let in_index := in_index + 1 in
    '(out_stream, out_index) <-
      lzf_backref (Z.to_nat (length + 2)) ref out_stream out_index ;;
    OK (in_index, out_stream, out_index).

Fixpoint lzf_loop (fuel : nat) (in_stream : list byte) (in_index : Z)
    (out_stream : list byte) (out_index : Z) : res (list byte) :=
  if in_index <? Z.of_nat (List.length in_stream) then
    match fuel with
    | O => Err OutOfFuel
    | S fuel' =>
        '(in_index, out_stream, out_index) <-
          lzf_step in_stream in_index out_stream out_index ;;
        lzf_loop fuel' in_stream in_index out_stream out_index
    end
  else OK out_stream.

(** Every turn reads at least the control byte, so [in_len] turns suffice. *)
Definition lzf_decompress (compressed : list byte) (expected_length : Z)
    : res (list byte) :=
  out_stream <- lzf_loop (List.length compressed) compressed 0 [] 0 ;;
  if negb (Z.of_nat (List.length out_stream) =? expected_length) then
    Err LzfLengthMismatch
  else OK out_stream.

(** ** Strings *)

Definition read_string (f : stream) : res (value * stream) :=
  '(tup, f) <- read_length_with_encoding f ;;
  let length := fst tup in
  let is_encoded := snd tup in
  if is_encoded then
    if length =? REDIS_RDB_ENC_INT8 then
      '(v, f) <- read_signed_char f ;; OK (VInt v, f)
    else if length =? REDIS_RDB_ENC_INT16 then
      '(v, f) <- read_signed_short f ;; OK (VInt v, f)
    else if length =? REDIS_RDB_ENC_INT32 then
      '(v, f) <- read_signed_int f ;; OK (VInt v, f)
    else if length =? REDIS_RDB_ENC_LZF then
      '(clen, f) <- read_length f ;;
      '(l, f) <- read_length f ;;
      let (compressed, f) := read clen f in
      val <- lzf_decompress compressed l ;;
      OK (VStr val, f)
    else OK (VNone, f)
  else
    let (val, f) := read length f in OK (VStr val, f).

Definition skip_string (f : stream) : res stream :=
  '(tup, f) <- read_length_with_encoding f ;;
  let length := fst tup in
  let is_encoded := snd tup in
  let bytes_to_skip := 0 in
  '(bytes_to_skip, f) <-
    (if is_encoded then
       if length =? REDIS_RDB_ENC_INT8 then OK (1, f)
       else if length =? REDIS_RDB_ENC_INT16 then OK (2, f)
       else if length =? REDIS_RDB_ENC_INT32 then OK (4, f)
       else if length =? REDIS_RDB_ENC_LZF then
         '(clen, f) <- read_length f ;;
         '(l, f) <- read_length f ;;
         OK (clen, f)
       else OK (bytes_to_skip, f)
     else OK (length, f)) ;;
  OK (skip f bytes_to_skip).

(** [for x in xrange(0, n): body]. *)
Fixpoint skip_strings_loop (n : nat) (f : stream) : res stream :=
  match n with
  | O => OK f
  | S n' => f <- skip_string f ;; skip_strings_loop n' f
  end.

Definition skip_object (f : stream) (enc_type : Z) : res stream :=
  '(skip_strings, f) <-
    (if enc_type =? REDIS_RDB_TYPE_STRING then OK (1, f)
     else if enc_type =? REDIS_RDB_TYPE_LIST then read_length f
     else if enc_type =? REDIS_RDB_TYPE_SET then read_length f
     else if enc_type =? REDIS_RDB_TYPE_ZSET then
       '(n, f) <- read_length f ;; OK (n * 2, f)
     else if enc_type =? REDIS_RDB_TYPE_HASH then
       '(n, f) <- read_length f ;; OK (n * 2, f)
     else if enc_type =? REDIS_RDB_TYPE_HASH_ZIPMAP then OK (1, f)
     else if enc_type =? REDIS_RDB_TYPE_LIST_ZIPLIST then OK (1, f)
     else if enc_type =? REDIS_RDB_TYPE_SET_INTSET then OK (1, f)
     else if enc_type =? REDIS_RDB_TYPE_ZSET_ZIPLIST then OK (1, f)
     else if enc_type =? REDIS_RDB_TYPE_HASH_ZIPLIST then OK (1, f)
     else Err UnknownType) ;;
  skip_strings_loop (Z.to_nat skip_strings) f.

Definition skip_key_and_object (f : stream) (data_type : Z) : res stream :=
  f <- skip_string f ;; skip_object f data_type.

(** ** Expiry *)

(** A [datetime] is kept as its distance from the Unix epoch in
    microseconds: [utcfromtimestamp(s)] is [s * 1000000] and adding a
    [timedelta(microseconds = u)] adds [u]. *)
Definition datetime : Type := Z.

Definition utcfromtimestamp (seconds : Z) : datetime := seconds * 1000000.

Definition to_datetime (usecs_since_epoch : Z) : datetime :=
  let seconds_since_epoch := usecs_since_epoch / 1000000 in
  let useconds := usecs_since_epoch mod 1000000 in
  let econds_since_epoch := 1385967984 in
  let dt := utcfromtimestamp econds_since_epoch in
  let delta := useconds in
  dt + delta.

(** ** The filter *)

(** A compiled pattern, through its [match] method. *)
Definition regex : Type := list byte -> bool.

Inductive dbs_arg : Type :=
| DbsInt (n : Z)
| DbsList (l : list Z)
| DbsOther.

Inductive types_arg : Type :=
| TypesStr (s : string)
| TypesList (l : list string)
| TypesOther.

(** The [filters] dictionary given to the constructor; a field is [None]
    when its key is missing ([arg_keys] also when the pattern is empty). *)
Record filter_args : Type := {
  arg_dbs : option dbs_arg;
  arg_keys : option regex;
  arg_types : option types_arg
}.

(** [self._filters]. *)
Record filters : Type := {
  dbs : option (list Z);
  keys : regex;
  types : list string
}.

Definition no_filters : filter_args :=
  {| arg_dbs := None; arg_keys := None; arg_types := None |}.

Definition init_filter (given : option filter_args) : res filters :=
  let given := match given with Some a => a | None => no_filters end in
  d <- match arg_dbs given with
       | None => OK None
       | Some (DbsInt n) => OK (Some [n])
       | Some (DbsList l) => OK (Some l)
       | Some DbsOther => Err InvalidFilter
       end ;;
  let k := match arg_keys given with
           | None => fun _ => true          (* re.compile(".*") *)
           | Some r => r
           end in
  t <- match arg_types given with
       | None => OK ["set"; "hash"; "sortedset"; "string"; "list"]%string
       | Some (TypesStr s) => OK [s]
       | Some (TypesList l) => OK l
       | Some TypesOther => Err InvalidFilter
       end ;;
  OK {| dbs := d; keys := k; types := t |}.

(** [DATA_TYPE_MAPPING[data_type]]. *)
Definition get_logical_type (data_type : Z) : res string :=
  if data_type =? 0 then OK "string"%string
  else if data_type =? 1 then OK "list"%string
  else if data_type =? 2 then OK "set"%string
  else if data_type =? 3 then OK "sortedset"%string
  else if data_type =? 4 then OK "hash"%string
  else if data_type =? 9 then OK "hash"%string
  else if data_type =? 10 then OK "list"%string
  else if data_type =? 11 then OK "set"%string
  else if data_type =? 12 then OK "sortedset"%string
  else if data_type =? 13 then OK "hash"%string
  else Err KeyError.

Definition mem_Z (x : Z) (l : list Z) : bool := existsb (Z.eqb x) l.
Definition mem_string (x : string) (l : list string) : bool :=
  existsb (String.eqb x) l.

(** [self._filters['dbs'] and (not db_number in self._filters['dbs'])]. *)
Definition db_rejected (flt : filters) (db_number : Z) : bool :=
  match dbs flt with
  | None | Some [] => false
  | Some l => negb (mem_Z db_number l)
  end.

Definition matches_filter (flt : filters) (db_number : Z) (key : value)
    (data_type : option Z) : res bool :=
  if db_rejected flt db_number then OK false
  else if truthy key && negb (keys flt (py_str key)) then OK false
  else
    match data_type with
    | Some dt =>
        lt <- get_logical_type dt ;;
        if negb (mem_string lt (types flt)) then OK false else OK true
    | None => OK true
    end.

(** ** Callbacks *)

Record info : Type := {
  encoding : string;
  sizeof_value : option Z
}.

Definition plain (enc : string) : info :=
  {| encoding := enc; sizeof_value := None |}.
Definition packed (enc : string) (size : Z) : info :=
  {| encoding := enc; sizeof_value := Some size |}.

(** The Python builtins [float] and [int] applied to a [str]; [None] is
    [ValueError]. *)
Class PyBuiltins : Type := {
  pyfloat : Type;
  py_float : list byte -> option pyfloat;
  py_int : list byte -> option Z
}.

Section Parser.
Context {B : PyBuiltins}.

(** A sorted-set score is a [float], or the ziplist entry passed on as it is. *)
Inductive score : Type :=
| ScoreFloat (x : pyfloat)
| ScoreAsIs (v : value).

(** One call of a method of the callback object. *)
Inductive event : Type :=
| start_rdb
| start_database (db_number : Z)
| set_ (key val : value) (expiry : option datetime) (i : info)
| start_hash (key : value) (length : Z) (expiry : option datetime) (i : info)
| hset (key field val : value)
| end_hash (key : value)
| start_set (key : value) (cardinality : Z) (expiry : option datetime) (i : info)
| sadd (key member : value)
| end_set (key : value)
| start_list (key : value) (length : Z) (expiry : option datetime) (i : info)
| rpush (key val : value)
| end_list (key : value)
| start_sorted_set (key : value) (length : Z) (expiry : option datetime) (i : info)
| zadd (key : value) (sc : score) (member : value)
| end_sorted_set (key : value)
| end_database (db_number : Z)
| end_rdb.

(** A run of the parser: the callbacks made so far, and how it went on. *)
Definition E (A : Type) : Type := (list event * res A)%type.

Definition ret {A : Type} (a : A) : E A := ([], OK a).
Definition lift {A : Type} (r : res A) : E A := ([], r).
Definition emit (e : event) : E unit := ([e], OK tt).
Definition bind {A C : Type} (m : E A) (k : A -> E C) : E C :=
  match m with
  | (evs, OK a) => let (evs', r) := k a in (evs ++ evs', r)
  | (evs, Err e) => (evs, Err e)
  end.

End Parser.

Declare Scope run_scope.
Delimit Scope run_scope with run.
Notation "x <-- m ;; k" := (bind m (fun x => k))
  (at level 61, m at next level, right associativity) : run_scope.
Notation "' p <-- m ;; k" := (bind m (fun x => let 'p := x in k))
  (at level 61, p pattern, m at next level, right associativity) : run_scope.
Notation "m ;;; k" := (bind m (fun _ => k))
  (at level 61, right associativity) : run_scope.
Open Scope run_scope.

(** ** Packed encodings: entries read from an in-memory buffer *)

Definition read_ziplist_entry (f : stream) : res (value * stream) :=
  '(prev_length, f) <- read_unsigned_char f ;;
  '(prev_length, f) <-
    (if prev_length =? 254 then read_unsigned_int f else OK (prev_length, f)) ;;
  '(entry_header, f) <- read_unsigned_char f ;;
  if Z.shiftr entry_header 6 =? 0 then
    let length := Z.land entry_header 0x3F in
    let (val, f) := read length f in OK (VStr val, f)
  else if Z.shiftr entry_header 6 =? 1 then
    '(b, f) <- read_unsigned_char f ;;
    let length := Z.lor (Z.shiftl (Z.land entry_header 0x3F) 8) b in
    let (val, f) := read length f in OK (VStr val, f)
  else if Z.shiftr entry_header 6 =? 2 then
    '(length, f) <- read_big_endian_unsigned_int f ;;
    let (val, f) := read length f in OK (VStr val, f)
  else if Z.shiftr entry_header 4 =? 12 then
    '(v, f) <- read_signed_short f ;; OK (VInt v, f)
  else if Z.shiftr entry_header 4 =? 13 then
    '(v, f) <- read_signed_int f ;; OK (VInt v, f)
  else if Z.shiftr entry_header 4 =? 14 then
    '(v, f) <- read_signed_long f ;; OK (VInt v, f)
  else if entry_header =? 240 then
    '(v, f) <- read_24bit_signed_number f ;; OK (VInt v, f)
  else if entry_header =? 254 then
    '(v, f) <- read_signed_char f ;; OK (VInt v, f)
  else if (241 <=? entry_header) && (entry_header <=? 253) then
    OK (VInt (entry_header - 241), f)
  else Err BadZiplistEntry.

(** [None] is the end marker. *)
Definition read_zipmap_next_length (f : stream) : res (option Z * stream) :=
  '(num, f) <- read_unsigned_char f ;;
  if num <? 254 then OK (Some num, f)
  else if num =? 254 then '(n, f) <- read_unsigned_int f ;; OK (Some n, f)
  else OK (None, f).

Definition bytes_eqb (a b : list byte) : bool :=
  if list_eq_dec byte_eq_dec a b then true else false.

Definition verify_magic_string (magic_string : list byte) : res unit :=
  if negb (bytes_eqb magic_string (bytes_of_string "REDIS")) then Err BadMagic
  else OK tt.

Section Decoders.
Context {B : PyBuiltins}.

Definition verify_version (version_str : list byte) : res unit :=
  match py_int version_str with
  | None => Err ValueError
  | Some version =>
      if (version <? 1) || (version >? 6) then Err BadVersion else OK tt
  end.

(** [float(s)]. *)
Definition float (s : list byte) : res score :=
  match py_float s with
  | Some x => OK (ScoreFloat x)
  | None => Err ValueError
  end.

(** [for x in xrange(0, n): body], threading the stream the body reads. *)
Fixpoint for_range (n : nat) (body : stream -> E stream) (f : stream) : E stream :=
  match n with
  | O => ret f
  | S n' => f <-- body f ;; for_range n' body f
  end.

Definition read_intset (key : value) (expiry : option datetime) (f : stream)
    : E stream :=
  '(raw_string, f) <-- lift (read_string f) ;;
  let buff := py_str raw_string in
  '(encoding, buff) <-- lift (read_unsigned_int buff) ;;
  '(num_entries, buff) <-- lift (read_unsigned_int buff) ;;
  size <-- lift (py_len raw_string) ;;
  emit (start_set key num_entries expiry (packed "intset" size)) ;;;
  _ <-- for_range (Z.to_nat num_entries) (fun buff =>
      '(entry, buff) <-- lift
        (if encoding =? 8 then read_unsigned_long buff
         else if encoding =? 4 then read_unsigned_int buff
         else if encoding =? 2 then read_unsigned_short buff
         else Err BadIntsetEncoding) ;;
      emit (sadd key (VInt entry)) ;;;
      ret buff) buff ;;
  emit (end_set key) ;;;
  ret f.

Definition check_zlist_end (buff : stream) : res unit :=
  '(zlist_end, buff) <- read_unsigned_char buff ;;
  if negb (zlist_end =? 255) then Err BadZiplistEnd else OK tt.

Definition read_ziplist (key : value) (expiry : option datetime) (f : stream)
    : E stream :=
  '(raw_string, f) <-- lift (read_string f) ;;
  let buff := py_str raw_string in
  '(zlbytes, buff) <-- lift (read_unsigned_int buff) ;;
  '(tail_offset, buff) <-- lift (read_unsigned_int buff) ;;
  '(num_entries, buff) <-- lift (read_unsigned_short buff) ;;
  size <-- lift (py_len raw_string) ;;
  emit (start_list key num_entries expiry (packed "ziplist" size)) ;;;
  buff <-- for_range (Z.to_nat num_entries) (fun buff =>
      '(val, buff) <-- lift (read_ziplist_entry buff) ;;
      emit (rpush key val) ;;;
      ret buff) buff ;;
  lift (check_zlist_end buff) ;;;
  emit (end_list key) ;;;
  ret f.

Definition read_zset_from_ziplist (key : value) (expiry : option datetime)
    (f : stream) : E stream :=
  '(raw_string, f) <-- lift (read_string f) ;;
  let buff := py_str raw_string in
  '(zlbytes, buff) <-- lift (read_unsigned_int buff) ;;
  '(tail_offset, buff) <-- lift (read_unsigned_int buff) ;;
  '(num_entries, buff) <-- lift (read_unsigned_short buff) ;;
  if negb (num_entries mod 2 =? 0) then lift (Err OddZiplistLength) else
  let num_entries := num_entries / 2 in
  size <-- lift (py_len raw_string) ;;
  emit (start_sorted_set key num_entries expiry (packed "ziplist" size)) ;;;
  buff <-- for_range (Z.to_nat num_entries) (fun buff =>
      '(member, buff) <-- lift (read_ziplist_entry buff) ;;
      '(sc, buff) <-- lift (read_ziplist_entry buff) ;;
      sc <-- lift (match sc with
                   | VStr s => float s
                   | _ => OK (ScoreAsIs sc)
                   end) ;;
      emit (zadd key sc member) ;;;
      ret buff) buff ;;
  lift (check_zlist_end buff) ;;;
  emit (end_sorted_set key) ;;;
  ret f.

Definition read_hash_from_ziplist (key : value) (expiry : option datetime)
    (f : stream) : E stream :=
  '(raw_string, f) <-- lift (read_string f) ;;
  let buff := py_str raw_string in
  '(zlbytes, buff) <-- lift (read_unsigned_int buff) ;;
  '(tail_offset, buff) <-- lift (read_unsigned_int buff) ;;
  '(num_entries, buff) <-- lift (read_unsigned_short buff) ;;
  if negb (num_entries mod 2 =? 0) then lift (Err OddZiplistLength) else
  let num_entries := num_entries / 2 in
  size <-- lift (py_len raw_string) ;;
  emit (start_hash key num_entries expiry (packed "ziplist" size)) ;;;
  buff <-- for_range (Z.to_nat num_entries) (fun buff =>
      '(field, buff) <-- lift (read_ziplist_entry buff) ;;
      '(val, buff) <-- lift (read_ziplist_entry buff) ;;
      emit (hset key field val) ;;;
      ret buff) buff ;;
  lift (check_zlist_end buff) ;;;
  emit (end_hash key) ;;;
  ret f.

(** The [while True] of [read_zipmap]; every turn that does not break
    reads at least one byte of [buff]. *)
Fixpoint zipmap_loop (fuel : nat) (key : value) (buff : stream) : E unit :=
  match fuel with
  | O => lift (Err OutOfFuel)
  | S fuel' =>
      '(next_length, buff) <-- lift (read_zipmap_next_length buff) ;;
      match next_length with
      | None => ret tt
      | Some key_length =>
          let (field, buff) := read key_length buff in
          '(next_length, buff) <-- lift (read_zipmap_next_length buff) ;;
          match next_length with
          | None => lift (Err TruncatedZipmap)
          | Some value_length =>
              '(free, buff) <-- lift (read_unsigned_char buff) ;;
              let (val, buff) := read value_length buff in
              let val := match py_int val with
                         | Some z => VInt z
                         | None => VStr val
                         end in
              let buff := skip buff free in
              emit (hset key (VStr field) val) ;;;
              zipmap_loop fuel' key buff
          end
      end
  end.

Definition read_zipmap (key : value) (expiry : option datetime) (f : stream)
    : E stream :=
  '(raw_string, f) <-- lift (read_string f) ;;
  buff <-- lift (py_bytearray raw_string) ;;
  '(num_entries, buff) <-- lift (read_unsigned_char buff) ;;
  size <-- lift (py_len raw_string) ;;
  emit (start_hash key num_entries expiry (packed "zipmap" size)) ;;;
  zipmap_loop (S (List.length buff)) key buff ;;;
  emit (end_hash key) ;;;
  ret f.

Definition read_object (key : value) (expiry : option datetime) (f : stream)
    (enc_type : Z) : E stream :=
  if enc_type =? REDIS_RDB_TYPE_STRING then
    '(val, f) <-- lift (read_string f) ;;
    emit (set_ key val expiry (plain "string")) ;;;
    ret f
  else if enc_type =? REDIS_RDB_TYPE_LIST then
    '(length, f) <-- lift (read_length f) ;;
    emit (start_list key length expiry (plain "linkedlist")) ;;;
    f <-- for_range (Z.to_nat length) (fun f =>
        '(val, f) <-- lift (read_string f) ;;
        emit (rpush key val) ;;;
        ret f) f ;;
    emit (end_list key) ;;;
    ret f
  else if enc_type =? REDIS_RDB_TYPE_SET then
    '(length, f) <-- lift (read_length f) ;;
    emit (start_set key length expiry (plain "hashtable")) ;;;
    f <-- for_range (Z.to_nat length) (fun f =>
        '(val, f) <-- lift (read_string f) ;;
        emit (sadd key val) ;;;
        ret f) f ;;
    emit (end_set key) ;;;
    ret f
  else if enc_type =? REDIS_RDB_TYPE_ZSET then
    '(length, f) <-- lift (read_length f) ;;
    emit (start_sorted_set key length expiry (plain "skiplist")) ;;;
    f <-- for_range (Z.to_nat length) (fun f =>
        '(val, f) <-- lift (read_string f) ;;
        '(dbl_length, f) <-- lift (read_unsigned_char f) ;;
        let (sc, f) := read dbl_length f in
        sc <-- lift (float sc) ;;
        emit (zadd key sc val) ;;;
        ret f) f ;;
    emit (end_sorted_set key) ;;;
    ret f
  else if enc_type =? REDIS_RDB_TYPE_HASH then
    '(length, f) <-- lift (read_length f) ;;
    emit (start_hash key length expiry (plain "hashtable")) ;;;
    f <-- for_range (Z.to_nat length) (fun f =>
        '(field, f) <-- lift (read_string f) ;;
        '(val, f) <-- lift (read_string f) ;;
        emit (hset key field val) ;;;
        ret f) f ;;
    emit (end_hash key) ;;;
    ret f
  else if enc_type =? REDIS_RDB_TYPE_HASH_ZIPMAP then read_zipmap key expiry f
  else if enc_type =? REDIS_RDB_TYPE_LIST_ZIPLIST then read_ziplist key expiry f
  else if enc_type =? REDIS_RDB_TYPE_SET_INTSET then read_intset key expiry f
  else if enc_type =? REDIS_RDB_TYPE_ZSET_ZIPLIST then
    read_zset_from_ziplist key expiry f
  else if enc_type =? REDIS_RDB_TYPE_HASH_ZIPLIST then
    read_hash_from_ziplist key expiry f
  else lift (Err UnknownType).

(** ** The driver *)

(** The optional expiry opcode in front of a record's type byte. *)
Definition read_expiry (data_type : Z) (f : stream)
    : res (option datetime * Z * stream) :=
  if data_type =? REDIS_RDB_OPCODE_EXPIRETIME_MS then
    '(ms, f) <- read_unsigned_long f ;;
    '(data_type, f) <- read_unsigned_char f ;;
    OK (Some (to_datetime (ms * 1000)), data_type, f)
  else if data_type =? REDIS_RDB_OPCODE_EXPIRETIME then
    '(s, f) <- read_unsigned_int f ;;
    '(data_type, f) <- read_unsigned_char f ;;
    OK (Some (to_datetime (s * 1000000)), data_type, f)
  else OK (None, data_type, f).

(** The last statement of the loop body: decode the record or skip it. *)
Definition parse_record (flt : filters) (db_number : Z)
    (expiry : option datetime) (data_type : Z) (f : stream) : E stream :=
  m <-- lift (matches_filter flt db_number VNone None) ;;
  if (m : bool) then
    '(key, f) <-- lift (read_string f) ;;
    m <-- lift (matches_filter flt db_number key (Some data_type)) ;;
    if (m : bool) then read_object key expiry f data_type
    else lift (skip_object f data_type)
  else lift (skip_key_and_object f data_type).

(** The [while True] of [parse]; its result is what is left of the file
    after the EOF opcode.  Every turn reads at least one byte. *)
Fixpoint parse_loop (fuel : nat) (flt : filters) (is_first_database : bool)
    (db_number : Z) (f : stream) : E stream :=
  match fuel with
  | O => lift (Err OutOfFuel)
  | S fuel' =>
      '(data_type, f) <-- lift (read_unsigned_char f) ;;
      '(expiry, data_type, f) <-- lift (read_expiry data_type f) ;;
      if data_type =? REDIS_RDB_OPCODE_SELECTDB then
        (if negb is_first_database then emit (end_database db_number)
         else ret tt) ;;;
        let is_first_database := false in
        '(db_number, f) <-- lift (read_length f) ;;
        emit (start_database db_number) ;;;
        parse_loop fuel' flt is_first_database db_number f
      else if data_type =? REDIS_RDB_OPCODE_EOF then
        emit (end_database db_number) ;;;
        emit end_rdb ;;;
        ret f
      else
        f <-- parse_record flt db_number expiry data_type f ;;
        parse_loop fuel' flt is_first_database db_number f
  end.

Definition parse (flt : filters) (file : list byte) : E stream :=
  let (magic_string, f) := read 5 file in
  lift (verify_magic_string magic_string) ;;;
  let (version_str, f) := read 4 f in
  lift (verify_version version_str) ;;;
  emit start_rdb ;;;
  parse_loop (S (List.length f)) flt true 0 f.

End Decoders.

(** ** Format descriptions *)

(** The previous-entry-length field of a ziplist entry: one byte other
    than 254, or the byte 254 followed by four bytes. *)
Inductive prev_entry_length : list byte -> Prop :=
| prev_short (p : byte) : u8 p <> 254 -> prev_entry_length [p]
| prev_long (a b c d : byte) : prev_entry_length [xfe; a; b; c; d].

(** The three clauses of the filter, as [matches_filter] decides them. *)
Definition db_allowed (flt : filters) (db_number : Z) : Prop :=
  forall l, dbs flt = Some l -> l = [] \/ In db_number l.

Definition key_passes (flt : filters) (key : value) : Prop :=
  truthy key = false \/ keys flt (py_str key) = true.

Definition type_allowed (flt : filters) (logical_type : string) : Prop :=
  In logical_type (types flt).

(** ** Sample inputs *)

Definition byte_of (z : Z) : byte :=
  match Byte.of_N (Z.to_N z) with
  | Some b => b
  | None => x00
  end.

(** The [n] bytes of [v], low byte first. *)
Fixpoint le_bytes (n : nat) (v : Z) : list byte :=
  match n with
  | O => []
  | S n' => byte_of (v mod 256) :: le_bytes n' (v / 256)
  end.

Definition is_digit (b : byte) : bool := (48 <=? u8 b) && (u8 b <=? 57).

Definition digits_value (s : list byte) : option Z :=
  match s with
  | [] => None
  | _ => if forallb is_digit s
         then Some (fold_left (fun acc b => 10 * acc + (u8 b - 48)) s 0)
         else None
  end.

(** Builtins that accept plain strings of decimal digits only, on which
    they agree with [int] and [float]; a float is kept as its literal. *)
Definition digit_builtins : PyBuiltins :=
  {| pyfloat := list byte;
     py_float := fun s => match digits_value s with
                          | Some _ => Some s
                          | None => None
                          end;
     py_int := digits_value |}.

Definition all_pass : filters :=
  {| dbs := None;
     keys := fun _ => true;
     types := ["set"; "hash"; "sortedset"; "string"; "list"]%string |}.

(** A pattern that matches no string at all, such as [(?!)]. *)
Definition no_match : regex := fun _ => false.

Definition reject_keys : filters :=
  {| dbs := None;
     keys := no_match;
     types := ["set"; "hash"; "sortedset"; "string"; "list"]%string |}.

(** "REDIS0006", then opcode 252 with a timestamp, SELECTDB 0 and EOF. *)
Definition expiry_before_selectdb : list byte :=
  bytes_of_string "REDIS0006"
    ++ [xfc] ++ le_bytes 8 1700000000000 ++ [xfe; x00; xff].

Definition only_strings : filters :=
  {| dbs := None; keys := fun _ => true; types := ["string"]%string |}.

(** A zipmap blob of two bytes: declared entry count 5, then the end
    marker; behind its length prefix. *)
Definition zipmap_5_empty : list byte := [x02; x05; xff].

(** A zipmap blob that declares no entry and holds the pair a = b. *)
Definition zipmap_0_one : list byte :=
  [x07; x00; x01; "a"; x01; x00; "b"; xff]%byte.

(** A score of 64 ASCII bytes: 1 followed by 63 zeros. *)
Definition long_score : list byte :=
  bytes_of_string
    "1000000000000000000000000000000000000000000000000000000000000000".

(** A plain sorted set with the one member "a" under that score. *)
Definition zset_record : list byte := [x01; x01; "a"; x40]%byte ++ long_score.

(** Loop input: SELECTDB 0, the sorted set under key "z", EOF. *)
Definition zset_dump : list byte :=
  [xfe; x00; x03; x01; "z"]%byte ++ zset_record ++ [xff].

(** ** Vocabulary for the loop bounds of the model *)

(** A run that ended well ended in a state [P] holds of, and one that
    failed failed with a Python error, not at the model's loop bound. *)
Definition rsound {A : Type} (P : A -> Prop) (r : res A) : Prop :=
  match r with
  | OK a => P a
  | Err e => e <> OutOfFuel
  end.

(** The stream left by a read that started at [f]: no longer than [f],
    and strictly shorter. *)
Definition within {A : Type} (f : stream) (p : A * stream) : Prop :=
  (List.length (snd p) <= List.length f)%nat.

Definition shorter {A : Type} (f : stream) (p : A * stream) : Prop :=
  (List.length (snd p) < List.length f)%nat.

Definition sound {B : PyBuiltins} {A : Type} (P : A -> Prop) (m : E A) : Prop :=
  rsound P (snd m).

(** A stream no longer than [f]. *)
Definition upto (f : stream) (f' : stream) : Prop :=
  (List.length f' <= List.length f)%nat.

(** ** Vocabulary for what a successful run leaves *)

(** [rpost P r]: if the read went well, [P] holds of its result. *)
Definition rpost {A : Type} (P : A -> Prop) (r : res A) : Prop :=
  forall a, r = OK a -> P a.

(** [post P m]: if the run went well, [P] holds of the callbacks it made
    and of its result. *)
Definition post {B : PyBuiltins} {A : Type} (P : list event -> A -> Prop)
    (m : E A) : Prop :=
  forall evs a, m = (evs, OK a) -> P evs a.

(** [step] applied [n] times in a row. *)
Fixpoint iterate (n : nat) (step : stream -> res stream) (f : stream)
    : res stream :=
  match n with
  | O => OK f
  | S n' => f <- step f ;; iterate n' step f
  end.

(** ** The shape of an aggregate's callbacks *)

Section Shapes.
Context {B : PyBuiltins}.

(** The key and length a [start_X] callback announces. *)
Definition announced (e : event) : option (value * Z) :=
  match e with
  | start_hash k n _ _ | start_set k n _ _ | start_list k n _ _
  | start_sorted_set k n _ _ => Some (k, n)
  | _ => None
  end.

(** [e] is the per-element callback that goes with [st], for its key. *)
Definition element_of (st e : event) : Prop :=
  match st, e with
  | start_list k _ _ _, rpush k' _ => k' = k
  | start_set k _ _ _, sadd k' _ => k' = k
  | start_hash k _ _ _, hset k' _ _ => k' = k
  | start_sorted_set k _ _ _, zadd k' _ _ => k' = k
  | _, _ => False
  end.

(** [en] is the [end_X] callback that goes with [st], for its key. *)
Definition closed_by (st en : event) : Prop :=
  match st, en with
  | start_list k _ _ _, end_list k' => k' = k
  | start_set k _ _ _, end_set k' => k' = k
  | start_hash k _ _ _, end_hash k' => k' = k
  | start_sorted_set k _ _ _, end_sorted_set k' => k' = k
  | _, _ => False
  end.

(** A [start_X], exactly as many elements as it announces, its [end_X]. *)
Definition counted_aggregate (key : value) (evs : list event) : Prop :=
  exists (n : Z) (st : event) (items : list event) (en : event),
    evs = st :: items ++ [en]
    /\ announced st = Some (key, n)
    /\ Forall (element_of st) items
    /\ Z.of_nat (List.length items) = n
    /\ closed_by st en.

End Shapes.

(** The type tags the format defines. *)
Definition known_tag (data_type : Z) : bool :=
  existsb (Z.eqb data_type) [0; 1; 2; 3; 4; 9; 10; 11; 12; 13].

(** ** The nesting of the database callbacks *)

Section Nesting.
Context {B : PyBuiltins}.

(** What the callbacks made so far have told the consumer about
    databases: none announced yet, one open, or the last one ended. *)
Inductive db_state : Type :=
| Before
| Open (db_number : Z)
| Closed.

(** A callback of a record: any but the four that frame the dump. *)
Definition record_event (e : event) : bool :=
  match e with
  | start_rdb | end_rdb | start_database _ | end_database _ => false
  | _ => true
  end.

(** The callback [e] in state [s]: a database is started only when none
    is open, ended only under the number it was started with, and a
    record is never delivered after a database was ended. *)
Definition db_step (s : db_state) (e : event) : option db_state :=
  match e with
  | start_rdb | end_rdb => None
  | start_database n =>
      match s with
      | Open _ => None
      | _ => Some (Open n)
      end
  | end_database n =>
      match s with
      | Open m => if n =? m then Some Closed else None
      | _ => None
      end
  | _ =>
      match s with
      | Closed => None
      | _ => Some s
      end
  end.

Fixpoint db_run (s : db_state) (evs : list event) : option db_state :=
  match evs with
  | [] => Some s
  | e :: evs' =>
      match db_step s e with
      | Some s' => db_run s' evs'
      | None => None
      end
  end.

(** A run that makes record callbacks only, however it ends. *)
Definition quiet {A : Type} (m : E A) : Prop :=
  Forall (fun e => record_event e = true) (fst m).

(** The state that goes with the driver's two loop variables. *)
Definition loop_state (is_first_database : bool) (db_number : Z) : db_state :=
  if is_first_database then Before else Open db_number.

(** A run of the driver loop entered in state [s]: a finished one closes
    with [end_database d] and [end_rdb], where [d] is the database that
    was open, or 0 when none was ever announced; a failed one stopped
    inside a well-nested sequence. *)
Definition nested (s : db_state) (r : E stream) : Prop :=
  match r with
  | (evs, OK _) =>
      exists body d,
        evs = body ++ [end_database d; end_rdb] /\
        (db_run s body = Some (Open d) \/
         (db_run s body = Some Before /\ d = 0))
  | (evs, Err _) => exists s', db_run s evs = Some s'
  end.

End Nesting.

(** ** What a filter changes *)

Section Filtering.
Context {B : PyBuiltins}.

(** [left_out sub evs]: [sub] is [evs] with some callbacks left out, the
    others in their order. *)
Inductive left_out : list event -> list event -> Prop :=
| left_out_nil : left_out [] []
| left_out_keep (e : event) (sub evs : list event) :
    left_out sub evs -> left_out (e :: sub) (e :: evs)
| left_out_drop (e : event) (sub evs : list event) :
    left_out sub evs -> left_out sub (e :: evs).

(** The [start_sorted_set] of a plain (type 3) sorted set. *)
Definition plain_sorted_set (e : event) : bool :=
  match e with
  | start_sorted_set _ _ _ i => String.eqb (encoding i) "skiplist"
  | _ => false
  end.

(** [filtered m m']: whenever [m] returns without having met a plain
    sorted set, [m'] returns the same with some of the callbacks of [m]
    left out. *)
Definition filtered {A : Type} (m m' : E A) : Prop :=
  forall evs a,
    m = (evs, OK a) ->
    Forall (fun e => plain_sorted_set e = false) evs ->
    exists sub, m' = (sub, OK a) /\ left_out sub evs.

End Filtering.

(** ** What is left of the file *)

(** [tail_of f f']: [f'] is what is left of [f] once some bytes were read. *)
Definition tail_of (f f' : stream) : Prop := exists pre, f = pre ++ f'.

(** * Properties *)

(** ** Bytes and fixed-width reads *)

Lemma u8_range (b : byte) : 0 <= u8 b < 256.
Proof.
  unfold u8. pose proof (Byte.to_N_bounded b). lia.
Qed.

Lemma unpack_1 (b : byte) (f : stream) : unpack 1 (b :: f) = OK ([b], f).
Proof. reflexivity. Qed.

Lemma read_unsigned_char_cons (b : byte) (f : stream) :
  read_unsigned_char (b :: f) = OK (u8 b, f).
Proof.
  unfold read_unsigned_char, read_unsigned_le. rewrite unpack_1. cbn [rbind le_unsigned].
  now rewrite Z.mul_0_r, Z.add_0_r.
Qed.

Lemma read_unsigned_char_nil : read_unsigned_char [] = Err StructError.
Proof. reflexivity. Qed.

(** Masking with a shifted mask is masking the shifted value. *)
Lemma land_shifted_mask (v m n : Z) :
  0 <= n -> Z.land v (Z.shiftl m n) = Z.shiftl (Z.land (Z.shiftr v n) m) n.
Proof.
  intros Hn. apply Z.bits_inj'. intros i Hi.
  rewrite Z.land_spec, !Z.shiftl_spec by assumption.
  destruct (Z.ltb_spec i n) as [Hlt | Hge].
  - rewrite !(Z.testbit_neg_r _ (i - n)) by lia. apply andb_false_r.
  - rewrite Z.land_spec, Z.shiftr_spec by lia.
    now replace (i - n + n) with i by lia.
Qed.

(** A value below [2 ^ n] fills only the bits a left shift by [n] frees. *)
Lemma lor_shiftl_add (hi lo n : Z) :
  0 <= n -> 0 <= lo < 2 ^ n -> Z.lor (Z.shiftl hi n) lo = hi * 2 ^ n + lo.
Proof.
  intros Hn Hlo.
  assert (Hdisj : Z.land (Z.shiftl hi n) lo = 0).
  { apply Z.bits_inj'. intros i Hi.
    rewrite Z.land_spec, Z.shiftl_spec, Z.bits_0 by assumption.
    destruct (Z.ltb_spec i n) as [Hlt | Hge].
    - now rewrite Z.testbit_neg_r by lia.
    - destruct (Z.eq_dec lo 0) as [-> | Hnz].
      + rewrite Z.bits_0. apply andb_false_r.
      + rewrite (Z.bits_above_log2 lo i); [apply andb_false_r | lia |].
        apply Z.lt_le_trans with n; [| assumption].
        apply Z.log2_lt_pow2; lia. }
  rewrite <- Z.lxor_lor by assumption.
  rewrite <- Z.add_nocarry_lxor by assumption.
  now rewrite Z.shiftl_mul_pow2 by assumption.
Qed.

Lemma byte_swap (a b c d : Z) :
  0 <= a < 256 -> 0 <= b < 256 -> 0 <= c < 256 -> 0 <= d < 256 ->
  let val := a + 256 * (b + 256 * (c + 256 * (d + 0))) in
  Z.lor (Z.lor (Z.lor (Z.lor 0 (Z.shiftl (Z.land val 0x000000ff) 24))
                      (Z.shiftr (Z.land val 0xff000000) 24))
               (Z.shiftl (Z.land val 0x0000ff00) 8))
        (Z.shiftr (Z.land val 0x00ff0000) 8)
  = 256 * (256 * (256 * (256 * 0 + a) + b) + c) + d.
Proof.
  intros Ha Hb Hc Hd val.
  assert (Hm : forall k, 0 <= k -> Z.land (Z.shiftr val k) 255 = (val / 2 ^ k) mod 256).
  { intros k Hk. change 255 with (Z.ones 8).
    now rewrite Z.land_ones, Z.shiftr_div_pow2 by lia. }
  assert (H0 : Z.land val 0x000000ff = a).
  { specialize (Hm 0 ltac:(lia)). rewrite Z.shiftr_0_r in Hm. rewrite Hm.
    change (2 ^ 0) with 1. rewrite Z.div_1_r. subst val.
    symmetry. apply Z.mod_unique with (b + 256 * (c + 256 * (d + 0))); lia. }
  assert (H1 : Z.land val 0x0000ff00 = Z.shiftl b 8).
  { change 0x0000ff00 with (Z.shiftl 255 8). rewrite land_shifted_mask by lia.
    rewrite Hm by lia. f_equal. subst val. change (2 ^ 8) with 256.
    replace (a + 256 * (b + 256 * (c + 256 * (d + 0))))
      with (a + (b + 256 * (c + 256 * d)) * 256) by lia.
    rewrite Z.div_add, (Z.div_small a) by lia. cbn [Z.add].
    symmetry. apply Z.mod_unique with (c + 256 * d); lia. }
  assert (H2 : Z.land val 0x00ff0000 = Z.shiftl c 16).
  { change 0x00ff0000 with (Z.shiftl 255 16). rewrite land_shifted_mask by lia.
    rewrite Hm by lia. f_equal. subst val. change (2 ^ 16) with 65536.
    replace (a + 256 * (b + 256 * (c + 256 * (d + 0))))
      with ((a + 256 * b) + (c + 256 * d) * 65536) by lia.
    rewrite Z.div_add, (Z.div_small (a + 256 * b)) by lia. cbn [Z.add].
    symmetry. apply Z.mod_unique with d; lia. }
  assert (H3 : Z.land val 0xff000000 = Z.shiftl d 24).
  { change 0xff000000 with (Z.shiftl 255 24). rewrite land_shifted_mask by lia.
    rewrite Hm by lia. f_equal. subst val. change (2 ^ 24) with 16777216.
    replace (a + 256 * (b + 256 * (c + 256 * (d + 0))))
      with ((a + 256 * b + 65536 * c) + d * 16777216) by lia.
    rewrite Z.div_add, (Z.div_small (a + 256 * b + 65536 * c)) by lia. cbn [Z.add].
    apply Z.mod_small; lia. }
  rewrite H0, H1, H2, H3, Z.lor_0_l.
  rewrite !Z.shiftr_shiftl_l, !Z.shiftl_shiftl by lia.
  cbn [Z.add Z.sub Z.opp Pos.add Pos.succ Z.pos_sub Pos.pred_double Z.succ_double Z.pred_double Z.double].
  rewrite Z.shiftl_0_r.
  rewrite <- !Z.lor_assoc, (Z.lor_comm d), <- Z.lor_assoc.
  rewrite (lor_shiftl_add c d 8) by lia.
  change (2 ^ 8) with 256.
  rewrite (lor_shiftl_add b _ 16) by (change (2 ^ 16) with 65536; lia).
  change (2 ^ 16) with 65536.
  rewrite (lor_shiftl_add a _ 24) by (change (2 ^ 24) with 16777216; lia).
  change (2 ^ 24) with 16777216.
  lia.
Qed.

Lemma ntohl_big_endian (b1 b2 b3 b4 : byte) (f : stream) :
  ntohl (b1 :: b2 :: b3 :: b4 :: f) = OK (be_unsigned [b1; b2; b3; b4], f).
Proof.
  unfold ntohl, read_unsigned_int, read_unsigned_le.
  change (unpack 4 (b1 :: b2 :: b3 :: b4 :: f)) with (OK ([b1; b2; b3; b4], f)).
  cbn [rbind le_unsigned]. cbv zeta. do 2 f_equal.
  unfold be_unsigned. cbn [be_unsigned_from].
  apply byte_swap; apply u8_range.
Qed.

Lemma ntohl_short (f : stream) :
  (List.length f < 4)%nat -> ntohl f = Err StructError.
Proof.
  intros H. unfold ntohl, read_unsigned_int, read_unsigned_le, unpack.
  destruct f as [| b1 [| b2 [| b3 [| b4 f]]]]; try reflexivity.
  cbn [List.length] in H. lia.
Qed.

(** The two tag bits the codec tests are the top two bits of the byte. *)
Lemma enc_type_tag (b : byte) :
  Z.shiftr (Z.land (u8 b) 0xC0) 6 = Z.shiftr (u8 b) 6.
Proof. destruct b; reflexivity. Qed.

(** ** The length prefix (C5) *)

Lemma length_6bit (b : byte) (rest : stream) :
  Z.shiftr (u8 b) 6 = 0 ->
  read_length_with_encoding (b :: rest) = OK ((Z.land (u8 b) 0x3F, false), rest).
Proof.
  intros H. unfold read_length_with_encoding.
  rewrite read_unsigned_char_cons. cbn [rbind]. cbv zeta.
  now rewrite enc_type_tag, H.
Qed.

Lemma length_14bit (b b2 : byte) (rest : stream) :
  Z.shiftr (u8 b) 6 = 1 ->
  read_length_with_encoding (b :: b2 :: rest)
  = OK ((Z.lor (Z.shiftl (Z.land (u8 b) 0x3F) 8) (u8 b2), false), rest).
Proof.
  intros H. unfold read_length_with_encoding.
  rewrite read_unsigned_char_cons. cbn [rbind]. cbv zeta.
  rewrite enc_type_tag, H.
  cbn [Z.eqb REDIS_RDB_ENCVAL REDIS_RDB_6BITLEN REDIS_RDB_14BITLEN].
  now rewrite read_unsigned_char_cons.
Qed.

Lemma length_32bit (b b1 b2 b3 b4 : byte) (rest : stream) :
  Z.shiftr (u8 b) 6 = 2 ->
  read_length_with_encoding (b :: b1 :: b2 :: b3 :: b4 :: rest)
  = OK ((u8 b1 * 2 ^ 24 + u8 b2 * 2 ^ 16 + u8 b3 * 2 ^ 8 + u8 b4, false), rest).
Proof.
  intros H. unfold read_length_with_encoding.
  rewrite read_unsigned_char_cons. cbn [rbind]. cbv zeta.
  rewrite enc_type_tag, H.
  cbn [Z.eqb REDIS_RDB_ENCVAL REDIS_RDB_6BITLEN REDIS_RDB_14BITLEN Pos.eqb].
  rewrite ntohl_big_endian. cbn [rbind]. do 2 f_equal.
  unfold be_unsigned. cbn [be_unsigned_from].
  change (2 ^ 24) with 16777216. change (2 ^ 16) with 65536.
  change (2 ^ 8) with 256. f_equal. lia.
Qed.

Lemma length_encval (b : byte) (rest : stream) :
  Z.shiftr (u8 b) 6 = 3 ->
  read_length_with_encoding (b :: rest) = OK ((Z.land (u8 b) 0x3F, true), rest).
Proof.
  intros H. unfold read_length_with_encoding.
  rewrite read_unsigned_char_cons. cbn [rbind]. cbv zeta.
  now rewrite enc_type_tag, H.
Qed.

(** C5.  The length/encoding codec returns: for tag 00 the low six bits of
    the first byte; for tag 01 the 14-bit value [((b & 0x3F) << 8) | b2];
    for tag 10 the next four bytes read as a big-endian unsigned 32-bit
    integer; for tag 11 the six-bit selector, with the encoded flag set. *)
Theorem read_length_with_encoding_cases (b : byte) (rest : stream) :
  (Z.shiftr (u8 b) 6 = 0 ->
     read_length_with_encoding (b :: rest)
     = OK ((Z.land (u8 b) 0x3F, false), rest)) /\
  (Z.shiftr (u8 b) 6 = 1 ->
     forall b2 rest', rest = b2 :: rest' ->
     read_length_with_encoding (b :: rest)
     = OK ((Z.lor (Z.shiftl (Z.land (u8 b) 0x3F) 8) (u8 b2), false), rest')) /\
  (Z.shiftr (u8 b) 6 = 2 ->
     forall b1 b2 b3 b4 rest', rest = b1 :: b2 :: b3 :: b4 :: rest' ->
     read_length_with_encoding (b :: rest)
     = OK ((u8 b1 * 2 ^ 24 + u8 b2 * 2 ^ 16 + u8 b3 * 2 ^ 8 + u8 b4, false),
           rest')) /\
  (Z.shiftr (u8 b) 6 = 3 ->
     read_length_with_encoding (b :: rest)
     = OK ((Z.land (u8 b) 0x3F, true), rest)).
Proof.
  split; [| split; [| split]].
  - apply length_6bit.
  - intros H b2 rest' ->. now apply length_14bit.
  - intros H b1 b2 b3 b4 rest' ->. now apply length_32bit.
  - apply length_encval.
Qed.

Lemma read_length_with_encoding_cases_witness :
  read_length_with_encoding [x0a] = OK ((10, false), []) /\
  read_length_with_encoding [x41; x02] = OK ((258, false), []) /\
  read_length_with_encoding [x80; x00; x00; x01; x02] = OK ((258, false), []) /\
  read_length_with_encoding [xc3] = OK ((3, true), []).
Proof.
  split; [| split; [| split]].
  - exact (proj1 (read_length_with_encoding_cases x0a []) eq_refl).
  - exact (proj1 (proj2 (read_length_with_encoding_cases x41 [x02]))
             eq_refl x02 [] eq_refl).
  - exact (proj1 (proj2 (proj2
             (read_length_with_encoding_cases x80 [x00; x00; x01; x02])))
             eq_refl x00 x00 x01 x02 [] eq_refl).
  - exact (proj2 (proj2 (proj2 (read_length_with_encoding_cases xc3 [])))
             eq_refl).
Defined.

(** ** Expiry (C2) *)

Lemma to_datetime_fixed_base (usecs : Z) :
  to_datetime usecs = 1385967984000000 + usecs mod 1000000.
Proof. reflexivity. Qed.

Lemma unpack_app (s : list byte) (f : stream) :
  unpack (List.length s) (s ++ f) = OK (s, f).
Proof.
  unfold unpack.
  rewrite firstn_app, Nat.sub_diag, firstn_all, firstn_O, app_nil_r, Nat.eqb_refl.
  now rewrite skipn_app, Nat.sub_diag, skipn_all, skipn_O.
Qed.

(** What the driver hands on as expiry after either expiry opcode: the
    fixed instant 1385967984 s, plus the sub-second part for opcode 252. *)
Lemma read_expiry_ms (t : list byte) (data_type : byte) (f : stream) :
  List.length t = 8%nat ->
  read_expiry REDIS_RDB_OPCODE_EXPIRETIME_MS (t ++ data_type :: f)
  = OK (Some (1385967984000000 + (le_unsigned t * 1000) mod 1000000),
        u8 data_type, f).
Proof.
  intros Ht. unfold read_expiry. cbn [Z.eqb REDIS_RDB_OPCODE_EXPIRETIME_MS Pos.eqb].
  unfold read_unsigned_long, read_unsigned_le.
  rewrite <- Ht, unpack_app. cbn [rbind].
  now rewrite read_unsigned_char_cons.
Qed.

Lemma read_expiry_s (t : list byte) (data_type : byte) (f : stream) :
  List.length t = 4%nat ->
  read_expiry REDIS_RDB_OPCODE_EXPIRETIME (t ++ data_type :: f)
  = OK (Some 1385967984000000, u8 data_type, f).
Proof.
  intros Ht. unfold read_expiry.
  cbn [Z.eqb REDIS_RDB_OPCODE_EXPIRETIME_MS REDIS_RDB_OPCODE_EXPIRETIME Pos.eqb].
  unfold read_unsigned_int, read_unsigned_le.
  rewrite <- Ht, unpack_app. cbn [rbind].
  rewrite read_unsigned_char_cons. cbn [rbind].
  now rewrite to_datetime_fixed_base, Z.mod_mul by lia.
Qed.

(** C2, at the input of the spec's third scenario.  A string record behind
    opcode 252 with the timestamp 1700000000000 ms: [set] receives the
    instant 1385967984000000 us, not 1700000000000000 us. *)
Theorem expiry_ms_scenario (B : PyBuiltins) (fuel : nat) :
  parse_loop (S (S (S fuel))) all_pass true 0
    ([xfe; x00; xfc] ++ le_bytes 8 1700000000000
       ++ [x00; x01; "k"; x03; "b"; "a"; "r"; xff])%byte
  = ([start_database 0;
      set_ (VStr ["k"]) (VStr ["b"; "a"; "r"]) (Some 1385967984000000)
        (plain "string");
      end_database 0; end_rdb]%byte, OK [])
  /\ 1385967984000000 <> 1700000000000 * 1000.
Proof.
  split; [reflexivity | discriminate].
Qed.

(** ** Strings (C3) *)

(** C3, as the code has it.  A length prefix with tag 11 and a selector
    above 3 makes [read_string] return [None] without reading further; it
    raises nothing. *)
Theorem read_string_unknown_selector (b : byte) (rest : stream) :
  Z.shiftr (u8 b) 6 = 3 -> 3 < Z.land (u8 b) 0x3F ->
  read_string (b :: rest) = OK (VNone, rest).
Proof.
  intros Htag Hsel. unfold read_string.
  rewrite (length_encval b rest Htag).
  cbn [rbind fst snd].
  unfold REDIS_RDB_ENC_INT8, REDIS_RDB_ENC_INT16, REDIS_RDB_ENC_INT32,
    REDIS_RDB_ENC_LZF.
  destruct (Z.eqb_spec (Z.land (u8 b) 63) 0); [lia |].
  destruct (Z.eqb_spec (Z.land (u8 b) 63) 1); [lia |].
  destruct (Z.eqb_spec (Z.land (u8 b) 63) 2); [lia |].
  destruct (Z.eqb_spec (Z.land (u8 b) 63) 3); [lia |].
  reflexivity.
Qed.

Lemma read_string_unknown_selector_witness :
  read_string [xc4; x2a] = OK (VNone, [x2a]).
Proof.
  apply (read_string_unknown_selector xc4 [x2a]); [reflexivity | reflexivity].
Defined.

(** ** Ziplist entries (C4) *)

(** The previous-entry-length field is read and dropped. *)
Lemma read_ziplist_entry_prev (pre : list byte) (h : byte) (rest : stream) :
  prev_entry_length pre ->
  read_ziplist_entry (pre ++ h :: rest) = read_ziplist_entry (x00 :: h :: rest).
Proof.
  intros Hpre. destruct Hpre as [p Hp | a b c d].
  - cbn [app]. unfold read_ziplist_entry.
    rewrite !read_unsigned_char_cons. cbn [rbind].
    destruct (Z.eqb_spec (u8 p) 254); [contradiction |]. reflexivity.
  - reflexivity.
Qed.

Lemma unpack_error (n : nat) (f : stream) (e : error) :
  unpack n f = Err e -> e = StructError.
Proof.
  unfold unpack. destruct (Nat.eqb _ _); congruence.
Qed.

Lemma read_signed_le_error (n : nat) (f : stream) (e : error) :
  read_signed_le n f = Err e -> e = StructError.
Proof.
  unfold read_signed_le. destruct (unpack n f) as [[s f'] |] eqn:E; cbn [rbind].
  - discriminate.
  - intros [= <-]. eapply unpack_error, E.
Qed.

Lemma read_unsigned_le_error (n : nat) (f : stream) (e : error) :
  read_unsigned_le n f = Err e -> e = StructError.
Proof.
  unfold read_unsigned_le. destruct (unpack n f) as [[s f'] |] eqn:E; cbn [rbind].
  - discriminate.
  - intros [= <-]. eapply unpack_error, E.
Qed.

Lemma read_big_endian_unsigned_int_error (f : stream) (e : error) :
  read_big_endian_unsigned_int f = Err e -> e = StructError.
Proof.
  unfold read_big_endian_unsigned_int.
  destruct (unpack 4 f) as [[s f'] |] eqn:E; cbn [rbind].
  - discriminate.
  - intros [= <-]. eapply unpack_error, E.
Qed.

Lemma read_24bit_signed_number_error (f : stream) (e : error) :
  read_24bit_signed_number f = Err e -> e = StructError.
Proof.
  unfold read_24bit_signed_number. destruct (read 3 f) as [s3 f'].
  destruct (unpack 4 _) as [[s f''] |] eqn:E; cbn [rbind].
  - discriminate.
  - intros [= <-]. eapply unpack_error, E.
Qed.

(** Reduce the dispatch of [read_ziplist_entry] on a concrete header. *)
Ltac entry_dispatch :=
  unfold read_ziplist_entry;
  rewrite read_unsigned_char_cons; cbn [rbind];
  change (u8 x00 =? 254) with false; cbv iota; cbn [rbind];
  rewrite read_unsigned_char_cons; cbn [rbind];
  cbn -[read_signed_short read_signed_int read_signed_long read_signed_char
        read_24bit_signed_number read_big_endian_unsigned_int
        read_unsigned_char read Z.lor].

(** A payload read never ends in the header error. *)
Ltac payload_not_header_error :=
  match goal with
  | |- OK _ = Err _ -> False => discriminate
  | |- (let (_, _) := read ?n ?f in _) = _ -> False =>
      destruct (read n f); discriminate
  | |- rbind ?m _ = _ -> False =>
      let E := fresh "E" in
      destruct m as [[? ?] | ?] eqn:E; cbn [rbind];
      [ try discriminate; try (destruct (read _ _); discriminate)
      | intros [= ->];
        first [ apply read_signed_le_error in E
              | apply read_unsigned_le_error in E
              | apply read_big_endian_unsigned_int_error in E
              | apply read_24bit_signed_number_error in E ];
        discriminate ]
  end.

Lemma read_ziplist_entry_bad_header (h : byte) (rest : stream) :
  read_ziplist_entry (x00 :: h :: rest) = Err BadZiplistEntry <-> u8 h = 255.
Proof.
  split.
  - intros H. destruct h; try reflexivity; exfalso; revert H;
      entry_dispatch; payload_not_header_error.
  - intros H. destruct h; try (unfold u8 in H; simpl in H; lia).
    reflexivity.
Qed.

Ltac header_case h Hr :=
  destruct h; try (exfalso; unfold u8 in Hr; simpl in Hr; lia);
  entry_dispatch; reflexivity.

(** C4, as the code has it.  After the previous-entry-length field, the
    header byte selects the payload by its leading bits: every byte with
    high nibble 1100 (0xC0..0xCF) is a signed 16-bit integer, 1101
    (0xD0..0xDF) a signed 32-bit integer, 1110 (0xE0..0xEF) a signed 64-bit
    integer; the string, 24-bit, 8-bit and immediate patterns are as
    listed; and 0xFF is the only header that fails with BadZiplistEntry. *)
Theorem read_ziplist_entry_headers (pre : list byte) (h : byte) (rest : stream) :
  prev_entry_length pre ->
  (read_ziplist_entry (pre ++ h :: rest) = Err BadZiplistEntry <-> u8 h = 255) /\
  (0x00 <= u8 h <= 0x3F ->
     read_ziplist_entry (pre ++ h :: rest)
     = (let (val, f) := read (Z.land (u8 h) 0x3F) rest in OK (VStr val, f))) /\
  (0x40 <= u8 h <= 0x7F ->
     read_ziplist_entry (pre ++ h :: rest)
     = ('(b2, f) <- read_unsigned_char rest ;;
        let (val, f) := read (Z.lor (Z.shiftl (Z.land (u8 h) 0x3F) 8) b2) f in
        OK (VStr val, f))) /\
  (0x80 <= u8 h <= 0xBF ->
     read_ziplist_entry (pre ++ h :: rest)
     = ('(length, f) <- read_big_endian_unsigned_int rest ;;
        let (val, f) := read length f in OK (VStr val, f))) /\
  (0xC0 <= u8 h <= 0xCF ->
     read_ziplist_entry (pre ++ h :: rest)
     = ('(v, f) <- read_signed_short rest ;; OK (VInt v, f))) /\
  (0xD0 <= u8 h <= 0xDF ->
     read_ziplist_entry (pre ++ h :: rest)
     = ('(v, f) <- read_signed_int rest ;; OK (VInt v, f))) /\
  (0xE0 <= u8 h <= 0xEF ->
     read_ziplist_entry (pre ++ h :: rest)
     = ('(v, f) <- read_signed_long rest ;; OK (VInt v, f))) /\
  (u8 h = 0xF0 ->
     read_ziplist_entry (pre ++ h :: rest)
     = ('(v, f) <- read_24bit_signed_number rest ;; OK (VInt v, f))) /\
  (0xF1 <= u8 h <= 0xFD ->
     read_ziplist_entry (pre ++ h :: rest) = OK (VInt (u8 h - 241), rest)) /\
  (u8 h = 0xFE ->
     read_ziplist_entry (pre ++ h :: rest)
     = ('(v, f) <- read_signed_char rest ;; OK (VInt v, f))).
Proof.
  intros Hpre. rewrite (read_ziplist_entry_prev pre h rest Hpre).
  split; [apply read_ziplist_entry_bad_header |].
  repeat apply conj; intros Hr; header_case h Hr.
Qed.

Lemma read_ziplist_entry_headers_witness :
  (read_ziplist_entry [x05; xff] = Err BadZiplistEntry) /\
  (read_ziplist_entry [x05; xc1; x2a; x00] = OK (VInt 42, [])) /\
  (read_ziplist_entry [xfe; x00; x01; x00; x00; xd7; xff; xff; xff; xff]
   = OK (VInt (-1), [])).
Proof.
  pose proof (read_ziplist_entry_headers [x05] xff []
                (prev_short x05 ltac:(discriminate))) as H1.
  pose proof (read_ziplist_entry_headers [x05] xc1 [x2a; x00]
                (prev_short x05 ltac:(discriminate))) as H2.
  pose proof (read_ziplist_entry_headers [xfe; x00; x01; x00; x00] xd7
                [xff; xff; xff; xff] (prev_long x00 x01 x00 x00)) as H3.
  split; [| split].
  - apply (proj1 H1). reflexivity.
  - apply (proj1 (proj2 (proj2 (proj2 (proj2 H2))))). cbv. split; discriminate.
  - apply (proj1 (proj2 (proj2 (proj2 (proj2 (proj2 H3)))))).
    cbv. split; discriminate.
Defined.

(** C4 as stated fails: the header byte 0xC1 is not rejected, it is read
    as a signed 16-bit integer. *)
Lemma ziplist_header_0xC1_accepted :
  read_ziplist_entry [x00; xc1; x2a; x00] = OK (VInt 42, []) /\
  read_ziplist_entry [x00; xc1; x2a; x00] <> Err BadZiplistEntry.
Proof.
  split; [reflexivity | discriminate].
Qed.

(** ** The driver: expiry in front of SELECTDB (C9) *)

Lemma read_expiry_none (data_type : Z) (f : stream) :
  data_type <> REDIS_RDB_OPCODE_EXPIRETIME_MS ->
  data_type <> REDIS_RDB_OPCODE_EXPIRETIME ->
  read_expiry data_type f = OK (None, data_type, f).
Proof.
  intros H1 H2. unfold read_expiry.
  destruct (Z.eqb_spec data_type REDIS_RDB_OPCODE_EXPIRETIME_MS); [contradiction |].
  destruct (Z.eqb_spec data_type REDIS_RDB_OPCODE_EXPIRETIME); [contradiction |].
  reflexivity.
Qed.

Section Driver.
Context {B : PyBuiltins}.

Lemma bind_lift_OK {A C : Type} (a : A) (k : A -> E C) :
  bind (lift (OK a)) k = k a.
Proof. unfold bind, lift. now destruct (k a). Qed.

Lemma bind_lift_Err {A C : Type} (e : error) (k : A -> E C) :
  bind (lift (Err e)) k = ([], Err e).
Proof. reflexivity. Qed.

Lemma bind_ret {A C : Type} (a : A) (k : A -> E C) : bind (ret a) k = k a.
Proof. apply bind_lift_OK. Qed.

(** One turn of the loop on a SELECTDB opcode, whatever the expiry. *)
Lemma parse_loop_selectdb_ms (fuel : nat) (flt : filters) (first : bool)
    (db_number : Z) (t : list byte) (f : stream) :
  List.length t = 8%nat ->
  parse_loop (S fuel) flt first db_number (xfc :: t ++ xfe :: f)
  = parse_loop (S fuel) flt first db_number (xfe :: f).
Proof.
  intros Ht. cbn [parse_loop].
  rewrite !read_unsigned_char_cons, !bind_lift_OK.
  change (u8 xfc) with REDIS_RDB_OPCODE_EXPIRETIME_MS.
  rewrite (read_expiry_ms t xfe f Ht).
  rewrite read_expiry_none by discriminate.
  now rewrite !bind_lift_OK.
Qed.

Lemma parse_loop_selectdb_s (fuel : nat) (flt : filters) (first : bool)
    (db_number : Z) (t : list byte) (f : stream) :
  List.length t = 4%nat ->
  parse_loop (S fuel) flt first db_number (xfd :: t ++ xfe :: f)
  = parse_loop (S fuel) flt first db_number (xfe :: f).
Proof.
  intros Ht. cbn [parse_loop].
  rewrite !read_unsigned_char_cons, !bind_lift_OK.
  change (u8 xfd) with REDIS_RDB_OPCODE_EXPIRETIME.
  rewrite (read_expiry_s t xfe f Ht).
  rewrite read_expiry_none by discriminate.
  now rewrite !bind_lift_OK.
Qed.

(** C9, as the code has it.  An expiry opcode (252 with its eight bytes,
    253 with its four) directly in front of SELECTDB does not make the
    parse fail: the expiry is dropped and the loop goes on exactly as it
    does on the SELECTDB opcode alone. *)
Theorem expiry_before_selectdb_dropped (fuel : nat) (flt : filters)
    (first : bool) (db_number : Z) (t : list byte) (f : stream) :
  (List.length t = 8%nat ->
     parse_loop (S fuel) flt first db_number (xfc :: t ++ xfe :: f)
     = parse_loop (S fuel) flt first db_number (xfe :: f)) /\
  (List.length t = 4%nat ->
     parse_loop (S fuel) flt first db_number (xfd :: t ++ xfe :: f)
     = parse_loop (S fuel) flt first db_number (xfe :: f)).
Proof.
  split; [apply parse_loop_selectdb_ms | apply parse_loop_selectdb_s].
Qed.

End Driver.

Lemma expiry_before_selectdb_dropped_witness :
  @parse_loop digit_builtins 3 all_pass true 0
    (xfc :: le_bytes 8 1700000000000 ++ xfe :: [x00; xff])
  = ([start_database 0; end_database 0; end_rdb], OK []) /\
  @parse_loop digit_builtins 3 all_pass true 0
    (xfd :: le_bytes 4 1700000000 ++ xfe :: [x00; xff])
  = ([start_database 0; end_database 0; end_rdb], OK []).
Proof.
  split.
  - rewrite (proj1 (@expiry_before_selectdb_dropped digit_builtins 2 all_pass
                      true 0 (le_bytes 8 1700000000000) [x00; xff]) eq_refl).
    reflexivity.
  - rewrite (proj2 (@expiry_before_selectdb_dropped digit_builtins 2 all_pass
                      true 0 (le_bytes 4 1700000000) [x00; xff]) eq_refl).
    reflexivity.
Defined.

(** C9 as stated fails: a dump whose expiry opcode is directly followed by
    SELECTDB parses to the end without an error. *)
Lemma expiry_before_selectdb_parses :
  @parse digit_builtins all_pass expiry_before_selectdb
  = ([start_rdb; start_database 0; end_database 0; end_rdb], OK []).
Proof. reflexivity. Qed.

(** ** The filter gate (C8, C10) *)

Lemma mem_string_In (x : string) (l : list string) :
  mem_string x l = true <-> In x l.
Proof.
  unfold mem_string. rewrite existsb_exists. split.
  - intros [y [Hy Heq]]. apply String.eqb_eq in Heq. now subst.
  - intros H. exists x. split; [assumption | apply String.eqb_refl].
Qed.

Lemma mem_Z_In (x : Z) (l : list Z) : mem_Z x l = true <-> In x l.
Proof.
  unfold mem_Z. rewrite existsb_exists. split.
  - intros [y [Hy Heq]]. apply Z.eqb_eq in Heq. now subst.
  - intros H. exists x. split; [assumption | apply Z.eqb_refl].
Qed.

Lemma db_rejected_false (flt : filters) (db_number : Z) :
  db_rejected flt db_number = false <-> db_allowed flt db_number.
Proof.
  unfold db_rejected, db_allowed. destruct (dbs flt) as [[| x l] |].
  - split; [intros _ l' [= <-]; now left | reflexivity].
  - rewrite negb_false_iff, mem_Z_In. split.
    + intros H l' [= <-]. now right.
    + intros H. destruct (H (x :: l) eq_refl) as [Hnil | Hin];
        [discriminate | assumption].
  - split; [intros _ l' [=] | reflexivity].
Qed.

Lemma key_clause_true (flt : filters) (key : value) :
  negb (truthy key && negb (keys flt (py_str key))) = true
  <-> key_passes flt key.
Proof.
  unfold key_passes.
  destruct (truthy key), (keys flt (py_str key)); cbn; intuition congruence.
Qed.

Section Gate.
Context {B : PyBuiltins}.

(** Which of its three branches [parse_record] takes. *)
Lemma parse_record_dispatch (flt : filters) (db_number : Z)
    (expiry : option datetime) (data_type : Z) (logical_type : string)
    (key : value) (f f' : stream) :
  read_string f = OK (key, f') ->
  get_logical_type data_type = OK logical_type ->
  parse_record flt db_number expiry data_type f
  = if db_rejected flt db_number then lift (skip_key_and_object f data_type)
    else if negb (truthy key && negb (keys flt (py_str key)))
            && mem_string logical_type (types flt)
         then read_object key expiry f' data_type
         else lift (skip_object f' data_type).
Proof.
  intros Hkey Htype. unfold parse_record, matches_filter.
  destruct (db_rejected flt db_number).
  - now rewrite bind_lift_OK.
  - cbn [truthy andb]. rewrite bind_lift_OK, Hkey, bind_lift_OK.
    destruct (truthy key && negb (keys flt (py_str key))); cbn [negb andb].
    + now rewrite bind_lift_OK.
    + rewrite Htype. cbn [rbind].
      destruct (mem_string logical_type (types flt)); cbn [negb];
        now rewrite bind_lift_OK.
Qed.

(** C8, as the code has it.  A record is decoded, rather than sent to one
    of the skip paths, exactly when its database is allowed (no [dbs]
    filter, an empty one, or one that lists the number), its key is falsy
    (empty, 0, None) or matches the pattern, and its logical type is
    allowed. *)
Theorem record_decoded_iff (flt : filters) (db_number : Z)
    (expiry : option datetime) (data_type : Z) (logical_type : string)
    (key : value) (f f' : stream) :
  read_string f = OK (key, f') ->
  get_logical_type data_type = OK logical_type ->
  (db_allowed flt db_number /\ key_passes flt key
     /\ type_allowed flt logical_type ->
   parse_record flt db_number expiry data_type f
   = read_object key expiry f' data_type) /\
  (~ (db_allowed flt db_number /\ key_passes flt key
        /\ type_allowed flt logical_type) ->
   parse_record flt db_number expiry data_type f
   = lift (if db_rejected flt db_number
           then skip_key_and_object f data_type
           else skip_object f' data_type)).
Proof.
  intros Hkey Htype.
  rewrite (parse_record_dispatch flt db_number expiry data_type logical_type
             key f f' Hkey Htype).
  unfold type_allowed.
  rewrite <- db_rejected_false, <- key_clause_true, <- mem_string_In.
  destruct (db_rejected flt db_number);
    destruct (negb (truthy key && negb (keys flt (py_str key))));
    destruct (mem_string logical_type (types flt)); cbn [andb];
    split; intros H; try reflexivity;
    solve [ destruct H as (H1 & H2 & H3); discriminate
          | exfalso; apply H; repeat split ].
Qed.

(** C10.  With a key pattern configured, a record whose key is the empty
    string passes the filter whenever its database and logical type are
    allowed, whatever the pattern is, and is decoded. *)
Theorem empty_key_bypasses_regex (d : option dbs_arg) (r : regex)
    (t : option types_arg) (flt : filters) (db_number : Z)
    (expiry : option datetime) (data_type : Z) (logical_type : string)
    (f f' : stream) :
  init_filter (Some {| arg_dbs := d; arg_keys := Some r; arg_types := t |})
  = OK flt ->
  read_string f = OK (VStr [], f') ->
  get_logical_type data_type = OK logical_type ->
  db_allowed flt db_number ->
  type_allowed flt logical_type ->
  keys flt = r /\
  matches_filter flt db_number (VStr []) (Some data_type) = OK true /\
  parse_record flt db_number expiry data_type f
  = read_object (VStr []) expiry f' data_type.
Proof.
  intros Hinit Hkey Htype Hdb Hty.
  apply db_rejected_false in Hdb. apply mem_string_In in Hty.
  split; [| split].
  - unfold init_filter in Hinit. cbn [arg_dbs arg_keys arg_types] in Hinit.
    destruct d as [[n | l |] |]; cbn [rbind] in Hinit; try discriminate;
      destruct t as [[s | l' |] |]; cbn [rbind] in Hinit; try discriminate;
      injection Hinit as <-; reflexivity.
  - unfold matches_filter. rewrite Hdb. cbn [truthy List.length Nat.eqb negb andb].
    rewrite Htype. cbn [rbind]. now rewrite Hty.
  - rewrite (parse_record_dispatch flt db_number expiry data_type logical_type
               (VStr []) f f' Hkey Htype).
    rewrite Hdb, Hty. reflexivity.
Qed.

End Gate.

(** C8 as stated fails: under a pattern that matches nothing, a record
    with the empty key is decoded all the same. *)
Lemma empty_key_decoded_without_match :
  keys reject_keys (py_str (VStr [])) = false /\
  @parse_record digit_builtins reject_keys 0 None 0 [x00; x01; "a"]%byte
  = ([set_ (VStr []) (VStr ["a"]%byte) None (plain "string")], OK []).
Proof. split; reflexivity. Qed.

Lemma record_decoded_iff_witness :
  @parse_record digit_builtins all_pass 0 None 0 [x01; "k"; x01; "a"]%byte
  = ([set_ (VStr ["k"]%byte) (VStr ["a"]%byte) None (plain "string")], OK []).
Proof.
  apply (proj1 (@record_decoded_iff digit_builtins all_pass 0 None 0 "string"
                  (VStr ["k"]%byte) [x01; "k"; x01; "a"]%byte [x01; "a"]%byte
                  eq_refl eq_refl)).
  split; [| split].
  - intros l [=].
  - right. reflexivity.
  - cbn. tauto.
Defined.

Lemma empty_key_bypasses_regex_witness :
  @parse_record digit_builtins reject_keys 0 None 0 [x00; x01; "a"]%byte
  = @read_object digit_builtins (VStr []) None [x01; "a"]%byte 0.
Proof.
  apply (@empty_key_bypasses_regex digit_builtins None no_match None
           reject_keys 0 None 0 "string" [x00; x01; "a"]%byte [x01; "a"]%byte
           eq_refl eq_refl eq_refl).
  - intros l [=].
  - cbn. tauto.
Defined.

(** ** Element counts (C1) *)

(** C1, at a zipmap.  The length given to [start_hash] is the first byte
    of the blob, while [hset] is called once per entry found before the
    end marker: a blob that declares five entries and holds none yields
    no [hset], one that declares none and holds one yields one [hset]. *)
Theorem zipmap_count_not_enforced (B : PyBuiltins) :
  read_object (VStr ["h"]%byte) None zipmap_5_empty REDIS_RDB_TYPE_HASH_ZIPMAP
  = ([start_hash (VStr ["h"]%byte) 5 None (packed "zipmap" 2);
      end_hash (VStr ["h"]%byte)], OK [])
  /\
  @read_object digit_builtins (VStr ["h"]%byte) None zipmap_0_one
    REDIS_RDB_TYPE_HASH_ZIPMAP
  = ([start_hash (VStr ["h"]%byte) 0 None (packed "zipmap" 7);
      hset (VStr ["h"]%byte) (VStr ["a"]%byte) (VStr ["b"]%byte);
      end_hash (VStr ["h"]%byte)], OK []).
Proof. split; reflexivity. Qed.

(** ** Skipping a plain sorted set (C7) *)

Section Turns.
Context {B : PyBuiltins}.

(** The three kinds of turn of the driver's loop. *)
Lemma parse_loop_selectdb (fuel : nat) (flt : filters) (first : bool)
    (db_number n : Z) (f f' : stream) :
  read_length f = OK (n, f') ->
  parse_loop (S fuel) flt first db_number (xfe :: f)
  = ((if negb first then emit (end_database db_number) else ret tt) ;;;
     emit (start_database n) ;;;
     parse_loop fuel flt false n f').
Proof.
  intros Hn. cbn [parse_loop].
  rewrite read_unsigned_char_cons, bind_lift_OK.
  rewrite read_expiry_none by discriminate.
  rewrite bind_lift_OK.
  change (u8 xfe =? REDIS_RDB_OPCODE_SELECTDB) with true. cbv iota.
  now rewrite Hn, bind_lift_OK.
Qed.

Lemma parse_loop_eof (fuel : nat) (flt : filters) (first : bool)
    (db_number : Z) (f : stream) :
  parse_loop (S fuel) flt first db_number (xff :: f)
  = (emit (end_database db_number) ;;; emit end_rdb ;;; ret f).
Proof.
  cbn [parse_loop].
  rewrite read_unsigned_char_cons, bind_lift_OK.
  rewrite read_expiry_none by discriminate.
  now rewrite bind_lift_OK.
Qed.

Lemma parse_loop_record (fuel : nat) (flt : filters) (first : bool)
    (db_number : Z) (t : byte) (f : stream) :
  u8 t < 252 ->
  parse_loop (S fuel) flt first db_number (t :: f)
  = (f' <-- parse_record flt db_number None (u8 t) f ;;
     parse_loop fuel flt first db_number f').
Proof.
  intros Ht. cbn [parse_loop].
  rewrite read_unsigned_char_cons, bind_lift_OK.
  rewrite read_expiry_none
    by (unfold REDIS_RDB_OPCODE_EXPIRETIME_MS, REDIS_RDB_OPCODE_EXPIRETIME; lia).
  rewrite bind_lift_OK.
  unfold REDIS_RDB_OPCODE_SELECTDB, REDIS_RDB_OPCODE_EOF.
  destruct (Z.eqb_spec (u8 t) 254); [lia |].
  destruct (Z.eqb_spec (u8 t) 255); [lia |].
  reflexivity.
Qed.

End Turns.

(** C7, at a sorted set whose score is 64 bytes long.  Decoding reads the
    whole record and the parse reaches EOF; skipping the same record
    takes the score's length byte 0x40 for a 14-bit length prefix, stops
    14 bytes short of the record's end, and the parse then fails on the
    bytes it takes for the next record. *)
Theorem zset_skip_diverges (B : PyBuiltins) (x : pyfloat) (fuel : nat) :
  py_float long_score = Some x ->
  read_object (VStr ["z"]%byte) None zset_record REDIS_RDB_TYPE_ZSET
  = ([start_sorted_set (VStr ["z"]%byte) 1 None (plain "skiplist");
      zadd (VStr ["z"]%byte) (ScoreFloat x) (VStr ["a"]%byte);
      end_sorted_set (VStr ["z"]%byte)], OK [])
  /\ skip_object zset_record REDIS_RDB_TYPE_ZSET = OK (skipn 50 long_score)
  /\ List.length (skipn 50 long_score) = 14%nat
  /\ parse_loop (S (S (S fuel))) all_pass true 0 zset_dump
     = ([start_database 0;
         start_sorted_set (VStr ["z"]%byte) 1 None (plain "skiplist");
         zadd (VStr ["z"]%byte) (ScoreFloat x) (VStr ["a"]%byte);
         end_sorted_set (VStr ["z"]%byte);
         end_database 0; end_rdb], OK [])
  /\ parse_loop (S (S (S fuel))) only_strings true 0 zset_dump
     = ([start_database 0], Err KeyError).
Proof.
  intros Hx.
  assert (Hdec : forall tail : list byte,
    read_object (VStr ["z"]%byte) None (zset_record ++ tail) REDIS_RDB_TYPE_ZSET
    = ([start_sorted_set (VStr ["z"]%byte) 1 None (plain "skiplist");
        zadd (VStr ["z"]%byte) (ScoreFloat x) (VStr ["a"]%byte);
        end_sorted_set (VStr ["z"]%byte)], OK tail)).
  { intros tail. vm_compute in Hx. vm_compute. rewrite Hx. reflexivity. }
  split; [| split; [| split; [| split]]].
  - rewrite <- (app_nil_r zset_record). apply Hdec.
  - reflexivity.
  - reflexivity.
  - change zset_dump
      with (xfe :: x00 :: x03 :: [x01; "z"]%byte ++ zset_record ++ [xff]).
    rewrite (parse_loop_selectdb _ _ _ _ 0 _
               (x03 :: [x01; "z"]%byte ++ zset_record ++ [xff])) by reflexivity.
    rewrite parse_loop_record by (cbv; reflexivity).
    rewrite (parse_record_dispatch all_pass 0 None (u8 x03) "sortedset"
               (VStr ["z"]%byte) ([x01; "z"]%byte ++ zset_record ++ [xff])
               (zset_record ++ [xff]) eq_refl eq_refl).
    change (if db_rejected all_pass 0 then _ else _)
      with (read_object (VStr ["z"]%byte) None (zset_record ++ [xff])
              REDIS_RDB_TYPE_ZSET).
    rewrite Hdec. cbn [bind emit ret negb app].
    rewrite parse_loop_eof. reflexivity.
  - change zset_dump
      with (xfe :: x00 :: x03 :: [x01; "z"]%byte ++ zset_record ++ [xff]).
    rewrite (parse_loop_selectdb _ _ _ _ 0 _
               (x03 :: [x01; "z"]%byte ++ zset_record ++ [xff])) by reflexivity.
    rewrite parse_loop_record by (cbv; reflexivity).
    rewrite (parse_record_dispatch only_strings 0 None (u8 x03) "sortedset"
               (VStr ["z"]%byte) ([x01; "z"]%byte ++ zset_record ++ [xff])
               (zset_record ++ [xff]) eq_refl eq_refl).
    change (if db_rejected only_strings 0 then _ else _)
      with (@lift B _ (skip_object (zset_record ++ [xff]) REDIS_RDB_TYPE_ZSET)).
    change (skip_object (zset_record ++ [xff]) REDIS_RDB_TYPE_ZSET)
      with (OK (skipn 50 long_score ++ [xff])).
    rewrite bind_lift_OK.
    change (skipn 50 long_score ++ [xff])
      with ("0"%byte :: skipn 51 long_score ++ [xff]).
    rewrite parse_loop_record by (cbv; reflexivity).
    reflexivity.
Qed.

Lemma zset_skip_diverges_witness :
  skip_object zset_record REDIS_RDB_TYPE_ZSET = OK (skipn 50 long_score) /\
  @parse_loop digit_builtins 3 only_strings true 0 zset_dump
  = ([start_database 0], Err KeyError).
Proof.
  pose proof (@zset_skip_diverges digit_builtins long_score 0 eq_refl) as H.
  split; [apply H | apply H].
Defined.

(** ** LZF (C6) *)

Lemma getitem_nat (s : list byte) (n : nat) (b : byte) :
  nth_error s n = Some b -> getitem s (Z.of_nat n) = OK b.
Proof.
  intros H. unfold getitem.
  assert (E : (Z.of_nat n <? 0) = false) by (apply Z.ltb_ge; lia).
  rewrite E. cbv zeta. now rewrite E, Nat2Z.id, H.
Qed.

Lemma getitem_middle (pre post : list byte) (b : byte) :
  getitem (pre ++ b :: post) (Z.of_nat (List.length pre)) = OK b.
Proof.
  apply getitem_nat. now rewrite nth_error_app2, Nat.sub_diag by lia.
Qed.

(** The literal loop appends the run as it stands in the input. *)
Lemma lzf_literal_run (lit : list byte) :
  forall (pre post out : list byte) (out_index : Z),
  lzf_literal (List.length lit) (pre ++ lit ++ post)
    (Z.of_nat (List.length pre)) out out_index
  = OK (Z.of_nat (List.length pre + List.length lit), out ++ lit,
        out_index + Z.of_nat (List.length lit)).
Proof.
  induction lit as [| a lit IH]; intros pre post out out_index.
  - cbn [lzf_literal List.length]. now rewrite Nat.add_0_r, app_nil_r, Z.add_0_r.
  - cbn [lzf_literal List.length app]. rewrite getitem_middle. cbn [rbind].
    replace (Z.of_nat (List.length pre) + 1)
      with (Z.of_nat (List.length (pre ++ [a])))
      by (rewrite length_app; cbn [List.length]; lia).
    replace (pre ++ a :: lit ++ post) with ((pre ++ [a]) ++ lit ++ post)
      by (now rewrite <- app_assoc).
    rewrite IH, length_app, <- app_assoc. cbn [List.length app].
    do 2 f_equal; [f_equal |]; lia.
Qed.

(** The back-reference loop copies byte by byte: the [k]-th byte it appends
    is the byte found [k] places after [ref] in the output as it grows, so
    a source range that runs into the destination repeats itself. *)
Lemma lzf_backref_copy (n : nat) :
  forall (ref : nat) (out : list byte) (out_index : Z),
  (ref < List.length out)%nat ->
  exists copied : list byte,
    lzf_backref n (Z.of_nat ref) out out_index
    = OK (out ++ copied, out_index + Z.of_nat n)
    /\ List.length copied = n
    /\ forall k : nat, (k < n)%nat ->
         nth_error (out ++ copied) (List.length out + k)
         = nth_error (out ++ copied) (ref + k).
Proof.
  induction n as [| n IH]; intros ref out out_index Href.
  - exists []. cbn [lzf_backref]. rewrite app_nil_r, Z.add_0_r.
    repeat split. intros k Hk. lia.
  - destruct (nth_error out ref) as [b |] eqn:Hb;
      [| apply nth_error_None in Hb; lia].
    cbn [lzf_backref]. rewrite (getitem_nat out ref b Hb). cbn [rbind].
    destruct (IH (S ref) (out ++ [b]) (out_index + 1)) as (copied & Hrun & Hlen & Hcopy).
    { rewrite length_app. cbn [List.length]. lia. }
    exists (b :: copied).
    replace (Z.of_nat ref + 1) with (Z.of_nat (S ref)) by lia.
    rewrite Hrun, <- app_assoc. cbn [app List.length].
    split; [do 2 f_equal; lia |]. split; [now f_equal |].
    intros k Hk.
    rewrite <- app_assoc in Hcopy. cbn [app] in Hcopy.
    rewrite length_app in Hcopy. cbn [List.length] in Hcopy.
    destruct k as [| k].
    + rewrite !Nat.add_0_r.
      rewrite nth_error_app2, Nat.sub_diag by lia. cbn [nth_error].
      now rewrite nth_error_app1 by lia.
    + specialize (Hcopy k ltac:(lia)).
      replace (List.length out + S k)%nat with (List.length out + 1 + k)%nat by lia.
      replace (ref + S k)%nat with (S ref + k)%nat by lia.
      exact Hcopy.
Qed.

Lemma lzf_step_literal (pre lit post out : list byte) (c : byte) :
  u8 c < 32 ->
  Z.of_nat (List.length lit) = u8 c + 1 ->
  lzf_step (pre ++ c :: lit ++ post) (Z.of_nat (List.length pre)) out
    (Z.of_nat (List.length out))
  = OK (Z.of_nat (List.length pre) + 1 + Z.of_nat (List.length lit),
        out ++ lit, Z.of_nat (List.length out) + Z.of_nat (List.length lit)).
Proof.
  intros Hc Hlit. unfold lzf_step. rewrite getitem_middle. cbn [rbind]. cbv zeta.
  destruct (Z.ltb_spec (u8 c) 32) as [_ | Hge]; [| lia].
  rewrite <- Hlit, Nat2Z.id.
  replace (Z.of_nat (List.length pre) + 1)
    with (Z.of_nat (List.length (pre ++ [c])))
    by (rewrite length_app; cbn [List.length]; lia).
  replace (pre ++ c :: lit ++ post) with ((pre ++ [c]) ++ lit ++ post)
    by (now rewrite <- app_assoc).
  rewrite lzf_literal_run, length_app. cbn [List.length].
  do 3 f_equal. lia.
Qed.

(** A back-reference whose length field is below 7: control byte, offset
    byte. *)
Lemma lzf_step_backref_short (pre post out : list byte) (c b2 : byte) :
  32 <= u8 c ->
  Z.shiftr (u8 c) 5 <> 7 ->
  let length := Z.shiftr (u8 c) 5 in
  let ref := Z.of_nat (List.length out)
               - Z.shiftl (Z.land (u8 c) 0x1f) 8 - u8 b2 - 1 in
  0 <= ref ->
  exists copied : list byte,
    lzf_step (pre ++ c :: b2 :: post) (Z.of_nat (List.length pre)) out
      (Z.of_nat (List.length out))
    = OK (Z.of_nat (List.length pre) + 2, out ++ copied,
          Z.of_nat (List.length out) + (length + 2))
    /\ Z.of_nat (List.length copied) = length + 2
    /\ forall k : nat, Z.of_nat k < length + 2 ->
         nth_error (out ++ copied) (List.length out + k)
         = nth_error (out ++ copied) (Z.to_nat ref + k).
Proof.
  intros Hc Hlen length ref Href.
  assert (Hshift : 0 <= Z.shiftl (Z.land (u8 c) 0x1f) 8).
  { apply Z.shiftl_nonneg, Z.land_nonneg. left. apply u8_range. }
  assert (Hlength : 0 <= length).
  { apply Z.shiftr_nonneg, u8_range. }
  pose proof (u8_range b2) as Hb2.
  destruct (lzf_backref_copy (Z.to_nat (length + 2)) (Z.to_nat ref) out
              (Z.of_nat (List.length out)))
    as (copied & Hrun & Hcl & Hcopy).
  { subst ref. lia. }
  exists copied. unfold lzf_step. rewrite getitem_middle. cbn [rbind]. cbv zeta.
  destruct (Z.ltb_spec (u8 c) 32) as [Hlt | _]; [lia |].
  fold length. destruct (Z.eqb_spec length 7) as [H7 | _]; [contradiction |].
  cbn [rbind].
  replace (Z.of_nat (List.length pre) + 1)
    with (Z.of_nat (List.length (pre ++ [c])))
    by (rewrite length_app; cbn [List.length]; lia).
  replace (pre ++ c :: b2 :: post) with ((pre ++ [c]) ++ b2 :: post)
    by (now rewrite <- app_assoc).
  rewrite getitem_middle. cbn [rbind]. fold ref.
  rewrite Z2Nat.id in Hrun by assumption. rewrite Hrun. cbn [rbind].
  rewrite length_app. cbn [List.length].
  split; [do 3 f_equal; lia |]. split; [lia |].
  intros k Hk. apply Hcopy. lia.
Qed.

(** A back-reference whose length field is 7: control byte, one byte that
    is added to the length, offset byte. *)
Lemma lzf_step_backref_long (pre post out : list byte) (c e b2 : byte) :
  Z.shiftr (u8 c) 5 = 7 ->
  let length := Z.shiftr (u8 c) 5 + u8 e in
  let ref := Z.of_nat (List.length out)
               - Z.shiftl (Z.land (u8 c) 0x1f) 8 - u8 b2 - 1 in
  0 <= ref ->
  exists copied : list byte,
    lzf_step (pre ++ c :: e :: b2 :: post) (Z.of_nat (List.length pre)) out
      (Z.of_nat (List.length out))
    = OK (Z.of_nat (List.length pre) + 3, out ++ copied,
          Z.of_nat (List.length out) + (length + 2))
    /\ Z.of_nat (List.length copied) = length + 2
    /\ forall k : nat, Z.of_nat k < length + 2 ->
         nth_error (out ++ copied) (List.length out + k)
         = nth_error (out ++ copied) (Z.to_nat ref + k).
Proof.
  intros H7 length ref Href.
  assert (Hshift : 0 <= Z.shiftl (Z.land (u8 c) 0x1f) 8).
  { apply Z.shiftl_nonneg, Z.land_nonneg. left. apply u8_range. }
  pose proof (u8_range b2) as Hb2. pose proof (u8_range e) as He.
  assert (Hc : 32 <= u8 c).
  { destruct (Z.lt_ge_cases (u8 c) 32) as [Hlt | Hge]; [| assumption].
    rewrite Z.shiftr_div_pow2 in H7 by lia. change (2 ^ 5) with 32 in H7.
    rewrite Z.div_small in H7; [discriminate | split; [apply u8_range | lia]]. }
  destruct (lzf_backref_copy (Z.to_nat (length + 2)) (Z.to_nat ref) out
              (Z.of_nat (List.length out)))
    as (copied & Hrun & Hcl & Hcopy).
  { subst ref. lia. }
  exists copied. unfold lzf_step. rewrite getitem_middle. cbn [rbind]. cbv zeta.
  destruct (Z.ltb_spec (u8 c) 32) as [Hlt | _]; [lia |].
  rewrite H7. cbn [Z.eqb Pos.eqb].
  replace (Z.of_nat (List.length pre) + 1)
    with (Z.of_nat (List.length (pre ++ [c])))
    by (rewrite length_app; cbn [List.length]; lia).
  replace (pre ++ c :: e :: b2 :: post) with ((pre ++ [c]) ++ e :: b2 :: post)
    by (now rewrite <- app_assoc).
  rewrite getitem_middle. cbn [rbind].
  replace (Z.of_nat (List.length (pre ++ [c])) + 1)
    with (Z.of_nat (List.length ((pre ++ [c]) ++ [e])))
    by (rewrite !length_app; cbn [List.length]; lia).
  replace ((pre ++ [c]) ++ e :: b2 :: post)
    with (((pre ++ [c]) ++ [e]) ++ b2 :: post)
    by (now rewrite <- (app_assoc (pre ++ [c]))).
  rewrite getitem_middle. cbn [rbind]. fold ref.
  subst length. rewrite H7 in *.
  rewrite Z2Nat.id in Hrun by lia. rewrite Hrun. cbn [rbind].
  rewrite !length_app. cbn [List.length].
  split; [do 3 f_equal; lia |]. split; [lia |].
  intros k Hk. apply Hcopy. lia.
Qed.

Lemma getitem_error (s : list byte) (i : Z) (e : error) :
  getitem s i = Err e -> e = IndexError.
Proof.
  unfold getitem. destruct (_ <? 0); [congruence |].
  destruct (nth_error _ _); congruence.
Qed.

Lemma lzf_literal_result (n : nat) :
  forall (s : list byte) (i : Z) (out : list byte) (oi : Z),
  match lzf_literal n s i out oi with
  | OK (i', _, _) => i' = i + Z.of_nat n
  | Err e => e = IndexError
  end.
Proof.
  induction n as [| n IH]; intros s i out oi; cbn [lzf_literal].
  - lia.
  - destruct (getitem s i) as [b | e] eqn:Hb; cbn [rbind].
    + specialize (IH s (i + 1) (out ++ [b]) (oi + 1)).
      destruct (lzf_literal n s (i + 1) (out ++ [b]) (oi + 1)) as [[[i' o'] oi'] | e];
        [lia | assumption].
    + eapply getitem_error, Hb.
Qed.

Lemma lzf_backref_error (n : nat) :
  forall (ref : Z) (out : list byte) (oi : Z) (e : error),
  lzf_backref n ref out oi = Err e -> e = IndexError.
Proof.
  induction n as [| n IH]; intros ref out oi e; cbn [lzf_backref].
  - discriminate.
  - destruct (getitem out ref) as [b | e'] eqn:Hb; cbn [rbind].
    + apply IH.
    + intros [= <-]. eapply getitem_error, Hb.
Qed.

(** A turn of the loop moves the input index forward, or ends in
    IndexError. *)
Lemma lzf_step_result (s : list byte) (i : Z) (out : list byte) (oi : Z) :
  match lzf_step s i out oi with
  | OK (i', _, _) => i < i'
  | Err e => e = IndexError
  end.
Proof.
  unfold lzf_step.
  destruct (getitem s i) as [c | e] eqn:Hc; cbn [rbind];
    [| eapply getitem_error, Hc].
  cbv zeta. pose proof (u8_range c) as Hr.
  destruct (u8 c <? 32).
  - pose proof (lzf_literal_result (Z.to_nat (u8 c + 1)) s (i + 1) out oi) as H.
    destruct (lzf_literal _ s (i + 1) out oi) as [[[i' o'] oi'] | e];
      [lia | assumption].
  - destruct (Z.shiftr (u8 c) 5 =? 7).
    + destruct (getitem s (i + 1)) as [b | e] eqn:Hb; cbn [rbind];
        [| eapply getitem_error, Hb].
      destruct (getitem s (i + 1 + 1)) as [b2 | e] eqn:Hb2; cbn [rbind];
        [| eapply getitem_error, Hb2].
      destruct (lzf_backref _ _ out oi) as [[o' oi'] | e] eqn:Hr'; cbn [rbind];
        [lia | eapply lzf_backref_error, Hr'].
    + cbn [rbind].
      destruct (getitem s (i + 1)) as [b2 | e] eqn:Hb2; cbn [rbind];
        [| eapply getitem_error, Hb2].
      destruct (lzf_backref _ _ out oi) as [[o' oi'] | e] eqn:Hr'; cbn [rbind];
        [lia | eapply lzf_backref_error, Hr'].
Qed.

(** The loop is [lzf_step] repeated while input is left. *)
Lemma lzf_loop_unroll (fuel : nat) (s : list byte) (i : Z) (out : list byte)
    (oi : Z) :
  (i < Z.of_nat (List.length s) ->
   lzf_loop (S fuel) s i out oi
   = ('(i', out', oi') <- lzf_step s i out oi ;; lzf_loop fuel s i' out' oi')) /\
  (Z.of_nat (List.length s) <= i -> lzf_loop fuel s i out oi = OK out).
Proof.
  split; intros H.
  - cbn [lzf_loop]. destruct (Z.ltb_spec i (Z.of_nat (List.length s))); [| lia].
    reflexivity.
  - destruct fuel; cbn [lzf_loop];
      destruct (Z.ltb_spec i (Z.of_nat (List.length s))); (lia || reflexivity).
Qed.

(** The loop bound of the model is never what stops the loop. *)
Lemma lzf_loop_fuel (fuel : nat) :
  forall (s : list byte) (i : Z) (out : list byte) (oi : Z) (e : error),
  Z.of_nat (List.length s) - i <= Z.of_nat fuel ->
  lzf_loop fuel s i out oi = Err e -> e = IndexError.
Proof.
  induction fuel as [| fuel IH]; intros s i out oi e Hfuel; cbn [lzf_loop];
    destruct (Z.ltb_spec i (Z.of_nat (List.length s))) as [Hlt | Hge];
    try discriminate; try lia.
  pose proof (lzf_step_result s i out oi) as Hstep.
  destruct (lzf_step s i out oi) as [[[i' o'] oi'] | e']; cbn [rbind].
  - apply IH. lia.
  - intros [= <-]. assumption.
Qed.

Lemma lzf_decompress_error (compressed : list byte) (expected_length : Z)
    (e : error) :
  lzf_decompress compressed expected_length = Err e ->
  e = IndexError \/
  (e = LzfLengthMismatch /\
   exists out, lzf_loop (List.length compressed) compressed 0 [] 0 = OK out
               /\ Z.of_nat (List.length out) <> expected_length).
Proof.
  unfold lzf_decompress.
  destruct (lzf_loop _ compressed 0 [] 0) as [out | e'] eqn:Hloop; cbn [rbind].
  - destruct (Z.eqb_spec (Z.of_nat (List.length out)) expected_length);
      cbn [negb]; [discriminate |].
    intros [= <-]. right. split; [reflexivity |]. now exists out.
  - intros [= <-]. left. eapply lzf_loop_fuel, Hloop. lia.
Qed.

Lemma lzf_decompress_length (compressed : list byte) (expected_length : Z)
    (out : list byte) :
  lzf_decompress compressed expected_length = OK out ->
  lzf_loop (List.length compressed) compressed 0 [] 0 = OK out
  /\ Z.of_nat (List.length out) = expected_length.
Proof.
  unfold lzf_decompress.
  destruct (lzf_loop _ compressed 0 [] 0) as [out' | e']; cbn [rbind];
    [| discriminate].
  destruct (Z.eqb_spec (Z.of_nat (List.length out')) expected_length);
    cbn [negb]; [| discriminate].
  intros [= <-]. now split.
Qed.

Lemma lzf_decompress_mismatch (compressed : list byte) (expected_length : Z)
    (out : list byte) :
  lzf_loop (List.length compressed) compressed 0 [] 0 = OK out ->
  Z.of_nat (List.length out) <> expected_length ->
  lzf_decompress compressed expected_length = Err LzfLengthMismatch.
Proof.
  intros Hloop Hne. unfold lzf_decompress. rewrite Hloop. cbn [rbind].
  destruct (Z.eqb_spec (Z.of_nat (List.length out)) expected_length);
    [contradiction | reflexivity].
Qed.

Lemma lzf_decompress_returns (compressed : list byte) (expected_length : Z)
    (out : list byte) :
  lzf_loop (List.length compressed) compressed 0 [] 0 = OK out ->
  Z.of_nat (List.length out) = expected_length ->
  lzf_decompress compressed expected_length = OK out.
Proof.
  intros Hloop Hlen. unfold lzf_decompress. rewrite Hloop. cbn [rbind].
  destruct (Z.eqb_spec (Z.of_nat (List.length out)) expected_length);
    [reflexivity | contradiction].
Qed.

(** [s[i]] for any index: a negative one is taken from the end. *)
Lemma getitem_index (s : list byte) (i : Z) (b : byte) :
  let j := if i <? 0 then i + Z.of_nat (List.length s) else i in
  0 <= j -> nth_error s (Z.to_nat j) = Some b -> getitem s i = OK b.
Proof.
  cbv zeta. intros Hj Hb. unfold getitem. cbv zeta.
  destruct (Z.ltb_spec (if i <? 0 then i + Z.of_nat (List.length s) else i) 0);
    [lia |].
  now rewrite Hb.
Qed.

Lemma getitem_too_far (s : list byte) (i : Z) :
  i < - Z.of_nat (List.length s) -> getitem s i = Err IndexError.
Proof.
  intros Hi. unfold getitem.
  destruct (Z.ltb_spec i 0); [| lia].
  destruct (Z.ltb_spec (i + Z.of_nat (List.length s)) 0); [reflexivity | lia].
Qed.

(** The back-reference loop for any reference the index operator accepts:
    the [k]-th byte it appends is the byte that [out_stream[ref + k]] names
    in the output grown by [k] bytes, which for a negative [ref + k] is
    counted from the end of that output. *)
Lemma lzf_backref_wrapping (n : nat) :
  forall (ref : Z) (out : list byte) (out_index : Z),
  - Z.of_nat (List.length out) <= ref < Z.of_nat (List.length out) ->
  exists copied : list byte,
    lzf_backref n ref out out_index
    = OK (out ++ copied, out_index + Z.of_nat n)
    /\ List.length copied = n
    /\ forall k : nat, (k < n)%nat ->
         nth_error (out ++ copied) (List.length out + k)
         = nth_error (out ++ copied)
             (Z.to_nat (if ref + Z.of_nat k <? 0
                        then ref + Z.of_nat k + Z.of_nat (List.length out + k)
                        else ref + Z.of_nat k)).
Proof.
  induction n as [| n IH]; intros ref out out_index Href.
  - exists []. cbn [lzf_backref]. rewrite app_nil_r, Z.add_0_r.
    repeat split. intros k Hk. lia.
  - assert (Hj : 0 <= (if ref <? 0 then ref + Z.of_nat (List.length out)
                       else ref) < Z.of_nat (List.length out))
      by (destruct (Z.ltb_spec ref 0); lia).
    destruct (nth_error out
                (Z.to_nat (if ref <? 0 then ref + Z.of_nat (List.length out)
                           else ref))) as [b |] eqn:Hb;
      [| apply nth_error_None in Hb; lia].
    cbn [lzf_backref]. rewrite (getitem_index out ref b (proj1 Hj) Hb).
    cbn [rbind].
    destruct (IH (ref + 1) (out ++ [b]) (out_index + 1))
      as (copied & Hrun & Hlen & Hcopy).
    { rewrite length_app. cbn [List.length]. lia. }
    exists (b :: copied). rewrite Hrun, <- app_assoc. cbn [app List.length].
    split; [do 2 f_equal; lia |]. split; [now f_equal |].
    intros k Hk.
    rewrite <- app_assoc in Hcopy. cbn [app] in Hcopy.
    rewrite length_app in Hcopy. cbn [List.length] in Hcopy.
    destruct k as [| k].
    + rewrite Nat.add_0_r. cbn [Z.of_nat]. rewrite !Z.add_0_r.
      rewrite nth_error_app2, Nat.sub_diag by lia. cbn [nth_error].
      rewrite nth_error_app1 by lia. now rewrite Hb.
    + specialize (Hcopy k ltac:(lia)).
      replace (List.length out + S k)%nat
        with (List.length out + 1 + k)%nat by lia.
      rewrite Hcopy. do 2 f_equal.
      replace (ref + Z.of_nat (S k)) with (ref + 1 + Z.of_nat k) by lia.
      destruct (ref + 1 + Z.of_nat k <? 0); lia.
Qed.

Lemma lzf_backref_too_far (n : nat) (ref : Z) (out : list byte) (out_index : Z) :
  (0 < n)%nat ->
  ref < - Z.of_nat (List.length out) ->
  lzf_backref n ref out out_index = Err IndexError.
Proof.
  intros Hn Href. destruct n as [| n]; [lia |].
  cbn [lzf_backref]. now rewrite getitem_too_far.
Qed.

(** The two forms of a back-reference, down to the copy loop. *)
Lemma lzf_step_short_form (pre post out : list byte) (c b2 : byte) (oi : Z) :
  32 <= u8 c ->
  Z.shiftr (u8 c) 5 <> 7 ->
  lzf_step (pre ++ c :: b2 :: post) (Z.of_nat (List.length pre)) out oi
  = ('(out', oi') <-
       lzf_backref (Z.to_nat (Z.shiftr (u8 c) 5 + 2))
         (oi - Z.shiftl (Z.land (u8 c) 0x1f) 8 - u8 b2 - 1) out oi ;;
     OK (Z.of_nat (List.length pre) + 2, out', oi')).
Proof.
  intros Hc Hlen. unfold lzf_step. rewrite getitem_middle. cbn [rbind]. cbv zeta.
  destruct (Z.ltb_spec (u8 c) 32) as [Hlt | _]; [lia |].
  destruct (Z.eqb_spec (Z.shiftr (u8 c) 5) 7) as [H7 | _]; [contradiction |].
  cbn [rbind].
  replace (Z.of_nat (List.length pre) + 1)
    with (Z.of_nat (List.length (pre ++ [c])))
    by (rewrite length_app; cbn [List.length]; lia).
  replace (pre ++ c :: b2 :: post) with ((pre ++ [c]) ++ b2 :: post)
    by (now rewrite <- app_assoc).
  rewrite getitem_middle. cbn [rbind].
  rewrite length_app. cbn [List.length].
  replace (Z.of_nat (List.length pre + 1) + 1)
    with (Z.of_nat (List.length pre) + 2) by lia.
  reflexivity.
Qed.

Lemma lzf_step_long_form (pre post out : list byte) (c e b2 : byte) (oi : Z) :
  Z.shiftr (u8 c) 5 = 7 ->
  lzf_step (pre ++ c :: e :: b2 :: post) (Z.of_nat (List.length pre)) out oi
  = ('(out', oi') <-
       lzf_backref (Z.to_nat (Z.shiftr (u8 c) 5 + u8 e + 2))
         (oi - Z.shiftl (Z.land (u8 c) 0x1f) 8 - u8 b2 - 1) out oi ;;
     OK (Z.of_nat (List.length pre) + 3, out', oi')).
Proof.
  intros H7.
  assert (Hc : 32 <= u8 c).
  { destruct (Z.lt_ge_cases (u8 c) 32) as [Hlt | Hge]; [| assumption].
    rewrite Z.shiftr_div_pow2 in H7 by lia. change (2 ^ 5) with 32 in H7.
    rewrite Z.div_small in H7; [discriminate | split; [apply u8_range | lia]]. }
  unfold lzf_step. rewrite getitem_middle. cbn [rbind]. cbv zeta.
  destruct (Z.ltb_spec (u8 c) 32) as [Hlt | _]; [lia |].
  rewrite H7. cbn [Z.eqb Pos.eqb].
  replace (Z.of_nat (List.length pre) + 1)
    with (Z.of_nat (List.length (pre ++ [c])))
    by (rewrite length_app; cbn [List.length]; lia).
  replace (pre ++ c :: e :: b2 :: post) with ((pre ++ [c]) ++ e :: b2 :: post)
    by (now rewrite <- app_assoc).
  rewrite getitem_middle. cbn [rbind].
  replace (Z.of_nat (List.length (pre ++ [c])) + 1)
    with (Z.of_nat (List.length ((pre ++ [c]) ++ [e])))
    by (rewrite !length_app; cbn [List.length]; lia).
  replace ((pre ++ [c]) ++ e :: b2 :: post)
    with (((pre ++ [c]) ++ [e]) ++ b2 :: post)
    by (now rewrite <- (app_assoc (pre ++ [c]))).
  rewrite getitem_middle. cbn [rbind].
  rewrite !length_app. cbn [List.length].
  replace (Z.of_nat (List.length pre + 1 + 1) + 1)
    with (Z.of_nat (List.length pre) + 3) by lia.
  reflexivity.
Qed.

(** A back-reference of [n] bytes whose offset [ref] may lie before the
    output: accepted down to [- len(out)], IndexError further back. *)
Lemma lzf_backref_any (n : Z) (ref : Z) (out : list byte) :
  0 < n ->
  ref < Z.of_nat (List.length out) ->
  (- Z.of_nat (List.length out) <= ref ->
   exists copied : list byte,
     lzf_backref (Z.to_nat n) ref out (Z.of_nat (List.length out))
     = OK (out ++ copied, Z.of_nat (List.length out) + n)
     /\ Z.of_nat (List.length copied) = n
     /\ forall k : nat, Z.of_nat k < n ->
          nth_error (out ++ copied) (List.length out + k)
          = nth_error (out ++ copied)
              (Z.to_nat (if ref + Z.of_nat k <? 0
                         then ref + Z.of_nat k + Z.of_nat (List.length out + k)
                         else ref + Z.of_nat k))) /\
  (ref < - Z.of_nat (List.length out) ->
   lzf_backref (Z.to_nat n) ref out (Z.of_nat (List.length out))
   = Err IndexError).
Proof.
  intros Hn Hup. split.
  - intros Hlow.
    destruct (lzf_backref_wrapping (Z.to_nat n) ref out
                (Z.of_nat (List.length out)) (conj Hlow Hup))
      as (copied & Hrun & Hlen & Hcopy).
    exists copied. rewrite Hrun, Z2Nat.id by lia.
    split; [reflexivity |]. split; [lia |].
    intros k Hk. apply Hcopy. lia.
  - intros Hfar. apply lzf_backref_too_far; [lia | exact Hfar].
Qed.

(** C6, as the code has it.  [lzf_decompress] walks the input with
    [lzf_step] until it is used up.  A control byte below 32 appends the
    next [ctrl + 1] input bytes.  Any other control byte is a
    back-reference of [(ctrl >> 5) + 2] bytes, one more input byte being
    added to that length when [ctrl >> 5] is 7, with the offset
    [ref = o - ((ctrl & 0x1F) << 8) - b2 - 1]; the copy goes byte by byte.
    When the offset lies in the output, [0 <= ref], the [k]-th new byte
    equals the byte [k] places after the offset in the grown output,
    overlap included.  An offset before the output is not refused: as far
    back as [- len(out)] the copy succeeds, every byte being the one that
    [out_stream[ref + k]] names in the output as grown so far, which for a
    negative [ref + k] is counted from its end; only an offset further
    back is IndexError.  [lzf_decompress] returns the output of the walk
    exactly when its length is the expected one, and a walk that ends
    with another length is LzfLengthMismatch. *)
Theorem lzf_decompress_standard :
  (forall (fuel : nat) (s : list byte) (i : Z) (out : list byte) (oi : Z),
     (i < Z.of_nat (List.length s) ->
      lzf_loop (S fuel) s i out oi
      = ('(i', out', oi') <- lzf_step s i out oi ;; lzf_loop fuel s i' out' oi'))
     /\ (Z.of_nat (List.length s) <= i -> lzf_loop fuel s i out oi = OK out)) /\
  (forall (pre lit post out : list byte) (c : byte),
     u8 c < 32 ->
     Z.of_nat (List.length lit) = u8 c + 1 ->
     lzf_step (pre ++ c :: lit ++ post) (Z.of_nat (List.length pre)) out
       (Z.of_nat (List.length out))
     = OK (Z.of_nat (List.length pre) + 1 + Z.of_nat (List.length lit),
           out ++ lit,
           Z.of_nat (List.length out) + Z.of_nat (List.length lit))) /\
  (forall (pre post out : list byte) (c b2 : byte),
     32 <= u8 c ->
     Z.shiftr (u8 c) 5 <> 7 ->
     let length := Z.shiftr (u8 c) 5 in
     let ref := Z.of_nat (List.length out)
                  - Z.shiftl (Z.land (u8 c) 0x1f) 8 - u8 b2 - 1 in
     0 <= ref ->
     exists copied : list byte,
       lzf_step (pre ++ c :: b2 :: post) (Z.of_nat (List.length pre)) out
         (Z.of_nat (List.length out))
       = OK (Z.of_nat (List.length pre) + 2, out ++ copied,
             Z.of_nat (List.length out) + (length + 2))
       /\ Z.of_nat (List.length copied) = length + 2
       /\ forall k : nat, Z.of_nat k < length + 2 ->
            nth_error (out ++ copied) (List.length out + k)
            = nth_error (out ++ copied) (Z.to_nat ref + k)) /\
  (forall (pre post out : list byte) (c e b2 : byte),
     Z.shiftr (u8 c) 5 = 7 ->
     let length := Z.shiftr (u8 c) 5 + u8 e in
     let ref := Z.of_nat (List.length out)
                  - Z.shiftl (Z.land (u8 c) 0x1f) 8 - u8 b2 - 1 in
     0 <= ref ->
     exists copied : list byte,
       lzf_step (pre ++ c :: e :: b2 :: post) (Z.of_nat (List.length pre)) out
         (Z.of_nat (List.length out))
       = OK (Z.of_nat (List.length pre) + 3, out ++ copied,
             Z.of_nat (List.length out) + (length + 2))
       /\ Z.of_nat (List.length copied) = length + 2
       /\ forall k : nat, Z.of_nat k < length + 2 ->
            nth_error (out ++ copied) (List.length out + k)
            = nth_error (out ++ copied) (Z.to_nat ref + k)) /\
  (forall (compressed : list byte) (expected_length : Z) (out : list byte),
     lzf_decompress compressed expected_length = OK out ->
     lzf_loop (List.length compressed) compressed 0 [] 0 = OK out
     /\ Z.of_nat (List.length out) = expected_length) /\
  (forall (compressed : list byte) (expected_length : Z) (out : list byte),
     lzf_loop (List.length compressed) compressed 0 [] 0 = OK out ->
     Z.of_nat (List.length out) <> expected_length ->
     lzf_decompress compressed expected_length = Err LzfLengthMismatch) /\
  (forall (compressed : list byte) (expected_length : Z),
     lzf_decompress compressed expected_length <> Err OutOfFuel) /\
  (forall (compressed : list byte) (expected_length : Z) (out : list byte),
     lzf_loop (List.length compressed) compressed 0 [] 0 = OK out ->
     Z.of_nat (List.length out) = expected_length ->
     lzf_decompress compressed expected_length = OK out) /\
  (forall (pre post out : list byte) (c b2 : byte),
     32 <= u8 c ->
     Z.shiftr (u8 c) 5 <> 7 ->
     let length := Z.shiftr (u8 c) 5 in
     let ref := Z.of_nat (List.length out)
                  - Z.shiftl (Z.land (u8 c) 0x1f) 8 - u8 b2 - 1 in
     (- Z.of_nat (List.length out) <= ref ->
      exists copied : list byte,
        lzf_step (pre ++ c :: b2 :: post) (Z.of_nat (List.length pre)) out
          (Z.of_nat (List.length out))
        = OK (Z.of_nat (List.length pre) + 2, out ++ copied,
              Z.of_nat (List.length out) + (length + 2))
        /\ Z.of_nat (List.length copied) = length + 2
        /\ forall k : nat, Z.of_nat k < length + 2 ->
             nth_error (out ++ copied) (List.length out + k)
             = nth_error (out ++ copied)
                 (Z.to_nat
                    (if ref + Z.of_nat k <? 0
                     then ref + Z.of_nat k + Z.of_nat (List.length out + k)
                     else ref + Z.of_nat k))) /\
     (ref < - Z.of_nat (List.length out) ->
      lzf_step (pre ++ c :: b2 :: post) (Z.of_nat (List.length pre)) out
        (Z.of_nat (List.length out))
      = Err IndexError)) /\
  (forall (pre post out : list byte) (c e b2 : byte),
     Z.shiftr (u8 c) 5 = 7 ->
     let length := Z.shiftr (u8 c) 5 + u8 e in
     let ref := Z.of_nat (List.length out)
                  - Z.shiftl (Z.land (u8 c) 0x1f) 8 - u8 b2 - 1 in
     (- Z.of_nat (List.length out) <= ref ->
      exists copied : list byte,
        lzf_step (pre ++ c :: e :: b2 :: post) (Z.of_nat (List.length pre)) out
          (Z.of_nat (List.length out))
        = OK (Z.of_nat (List.length pre) + 3, out ++ copied,
              Z.of_nat (List.length out) + (length + 2))
        /\ Z.of_nat (List.length copied) = length + 2
        /\ forall k : nat, Z.of_nat k < length + 2 ->
             nth_error (out ++ copied) (List.length out + k)
             = nth_error (out ++ copied)
                 (Z.to_nat
                    (if ref + Z.of_nat k <? 0
                     then ref + Z.of_nat k + Z.of_nat (List.length out + k)
                     else ref + Z.of_nat k))) /\
     (ref < - Z.of_nat (List.length out) ->
      lzf_step (pre ++ c :: e :: b2 :: post) (Z.of_nat (List.length pre)) out
        (Z.of_nat (List.length out))
      = Err IndexError)).
Proof.
  split; [exact lzf_loop_unroll |].
  split; [exact lzf_step_literal |].
  split; [exact lzf_step_backref_short |].
  split; [exact lzf_step_backref_long |].
  split; [exact lzf_decompress_length |].
  split; [exact lzf_decompress_mismatch |].
  split.
  { intros compressed expected_length H.
    destruct (lzf_decompress_error _ _ _ H) as [He | [He _]]; discriminate. }
  split; [exact lzf_decompress_returns |].
  split.
  - intros pre post out c b2 Hc Hlen length ref.
    assert (Hshift : 0 <= Z.shiftl (Z.land (u8 c) 0x1f) 8).
    { apply Z.shiftl_nonneg, Z.land_nonneg. left. apply u8_range. }
    assert (Hlength : 0 <= length) by apply Z.shiftr_nonneg, u8_range.
    pose proof (u8_range b2) as Hb2.
    destruct (lzf_backref_any (length + 2) ref out) as [Hin Hfar];
      [lia | subst ref; lia |].
    rewrite (lzf_step_short_form pre post out c b2 _ Hc Hlen).
    fold length. fold ref. split.
    + intros Hlow. destruct (Hin Hlow) as (copied & Hrun & Hcl & Hcopy).
      exists copied. rewrite Hrun. cbn [rbind]. now split.
    + intros Hlow. now rewrite (Hfar Hlow).
  - intros pre post out c e b2 H7 length ref.
    assert (Hshift : 0 <= Z.shiftl (Z.land (u8 c) 0x1f) 8).
    { apply Z.shiftl_nonneg, Z.land_nonneg. left. apply u8_range. }
    pose proof (u8_range b2) as Hb2. pose proof (u8_range e) as He.
    destruct (lzf_backref_any (length + 2) ref out) as [Hin Hfar];
      [subst length; lia | subst ref; lia |].
    rewrite (lzf_step_long_form pre post out c e b2 _ H7).
    fold length. fold ref. split.
    + intros Hlow. destruct (Hin Hlow) as (copied & Hrun & Hcl & Hcopy).
      exists copied. rewrite Hrun. cbn [rbind]. now split.
    + intros Hlow. now rewrite (Hfar Hlow).
Qed.

(** The theorem at work: a literal "a", then a back-reference of three
    bytes to offset 0, which overlaps its own output; and a literal "ab"
    followed by a back-reference of three bytes to offset -1; and a
    back-reference to offset -2 of an output of one byte. *)
Lemma lzf_decompress_standard_witness :
  lzf_step [x00; "a"; x20; x00]%byte 0 [] 0 = OK (2, ["a"]%byte, 1) /\
  (exists copied : list byte,
     lzf_step [x00; "a"; x20; x00]%byte 2 ["a"]%byte 1
     = OK (4, ["a"]%byte ++ copied, 4)
     /\ Z.of_nat (List.length copied) = 3) /\
  lzf_decompress [x00; "a"; x20; x00]%byte 4 = OK ["a"; "a"; "a"; "a"]%byte /\
  lzf_decompress [x00; "a"; x20; x00]%byte 5 = Err LzfLengthMismatch /\
  (exists copied : list byte,
     lzf_step [x01; "a"; "b"; x20; x02]%byte 3 ["a"; "b"]%byte 2
     = OK (5, ["a"; "b"]%byte ++ copied, 5)
     /\ Z.of_nat (List.length copied) = 3) /\
  lzf_step [x00; "a"; x20; x02]%byte 2 ["a"]%byte 1 = Err IndexError.
Proof.
  destruct lzf_decompress_standard
    as (_ & Hlit & Hshort & _ & Hlen & Hmis & _ & Hret & Hany & _).
  split; [| split; [| split; [| split; [| split]]]].
  - exact (Hlit [] ["a"]%byte [x20; x00] [] x00 ltac:(cbv; reflexivity) eq_refl).
  - destruct (Hshort [x00; "a"]%byte [] ["a"]%byte x20 x00
                ltac:(cbv; discriminate) ltac:(cbv; discriminate)
                ltac:(cbv; discriminate)) as (copied & Hrun & Hcl & _).
    exists copied. split; [exact Hrun | exact Hcl].
  - exact (Hret [x00; "a"; x20; x00]%byte 4 ["a"; "a"; "a"; "a"]%byte eq_refl
             eq_refl).
  - exact (Hmis [x00; "a"; x20; x00]%byte 5 ["a"; "a"; "a"; "a"]%byte eq_refl
             ltac:(cbv; discriminate)).
  - destruct (proj1 (Hany [x01; "a"; "b"]%byte [] ["a"; "b"]%byte x20 x02
                       ltac:(cbv; discriminate) ltac:(cbv; discriminate))
                ltac:(cbv; discriminate)) as (copied & Hrun & Hcl & _).
    exists copied. split; [exact Hrun | exact Hcl].
  - exact (proj2 (Hany [x00; "a"]%byte [] ["a"]%byte x20 x02
                    ltac:(cbv; discriminate) ltac:(cbv; discriminate))
             ltac:(cbv; reflexivity)).
Defined.

(** C6 as stated fails: after the literal "ab" the back-reference 20 02
    has the offset 2 - 0 - 2 - 1 = -1.  The output has no offset -1 and a
    standard LZF decoder refuses the stream; here the copy takes its first
    byte from the end of the output and the string is returned. *)
Lemma lzf_reference_before_output_accepted :
  2 - Z.shiftl (Z.land (u8 x20) 0x1f) 8 - u8 x02 - 1 = -1 /\
  lzf_step [x01; "a"; "b"; x20; x02]%byte 3 ["a"; "b"]%byte 2
  = OK (5, ["a"; "b"; "b"; "a"; "b"]%byte, 5) /\
  lzf_decompress [x01; "a"; "b"; x20; x02]%byte 5
  = OK ["a"; "b"; "b"; "a"; "b"]%byte.
Proof. repeat split. Qed.

(** ** The loop bounds of the model *)

Lemma rsound_weaken {A : Type} (P Q : A -> Prop) (r : res A) :
  (forall a, P a -> Q a) -> rsound P r -> rsound Q r.
Proof. destruct r; cbn; auto. Qed.

Lemma rsound_bind {A C : Type} (Q : A -> Prop) (P : C -> Prop) (m : res A)
    (k : A -> res C) :
  rsound Q m -> (forall a, Q a -> rsound P (k a)) -> rsound P (rbind m k).
Proof. destruct m; cbn [rbind rsound]; auto. Qed.

Lemma shorter_within {A : Type} (f : stream) (p : A * stream) :
  shorter f p -> within f p.
Proof. unfold shorter, within. lia. Qed.

Lemma unpack_length (n : nat) (f : stream) :
  match unpack n f with
  | OK (s, f') => (List.length f' + n = List.length f)%nat
  | Err e => e = StructError
  end.
Proof.
  unfold unpack. destruct (Nat.eqb_spec (List.length (firstn n f)) n) as [H | H];
    [| reflexivity].
  rewrite length_skipn. rewrite length_firstn in H. lia.
Qed.

Lemma read_unsigned_consumes (n : nat) (f : stream) :
  (0 < n)%nat -> rsound (shorter f) (read_unsigned_le n f).
Proof.
  intros Hn. unfold read_unsigned_le. pose proof (unpack_length n f) as H.
  destruct (unpack n f) as [[s f'] | e]; cbn [rbind rsound];
    [unfold shorter; cbn [snd]; lia | now subst].
Qed.

Lemma read_signed_consumes (n : nat) (f : stream) :
  (0 < n)%nat -> rsound (shorter f) (read_signed_le n f).
Proof.
  intros Hn. unfold read_signed_le. pose proof (unpack_length n f) as H.
  destruct (unpack n f) as [[s f'] | e]; cbn [rbind rsound];
    [unfold shorter; cbn [snd]; lia | now subst].
Qed.

Lemma read_within (n : Z) (f : stream) : within f (read n f).
Proof. unfold within, read. cbn [snd]. rewrite length_skipn. lia. Qed.

Lemma skip_within (f : stream) (free : Z) :
  (List.length (skip f free) <= List.length f)%nat.
Proof.
  unfold skip. destruct (free =? 0); [lia | apply read_within].
Qed.

Lemma ntohl_consumes (f : stream) : rsound (shorter f) (ntohl f).
Proof.
  unfold ntohl.
  apply rsound_bind with (Q := shorter f);
    [apply read_unsigned_consumes; lia |].
  intros [v f'] H. exact H.
Qed.

Lemma read_length_with_encoding_consumes (f : stream) :
  rsound (shorter f) (read_length_with_encoding f).
Proof.
  unfold read_length_with_encoding.
  apply rsound_bind with (Q := shorter f);
    [apply read_unsigned_consumes; lia |].
  intros [b0 f1] H1. cbv zeta.
  destruct (_ =? REDIS_RDB_ENCVAL); [exact H1 |].
  destruct (_ =? REDIS_RDB_6BITLEN); [exact H1 |].
  unfold shorter in *. cbn [snd] in H1.
  destruct (_ =? REDIS_RDB_14BITLEN).
  - apply rsound_bind with (Q := shorter f1);
      [apply read_unsigned_consumes; lia |].
    intros [b1 f2] H2. unfold shorter in *. cbn [rsound snd] in *. lia.
  - apply rsound_bind with (Q := shorter f1); [apply ntohl_consumes |].
    intros [l f2] H2. unfold shorter in *. cbn [rsound snd] in *. lia.
Qed.

Lemma read_length_consumes (f : stream) : rsound (shorter f) (read_length f).
Proof.
  unfold read_length.
  apply rsound_bind with (Q := shorter f);
    [apply read_length_with_encoding_consumes |].
  intros [t f'] H. exact H.
Qed.

Lemma lzf_decompress_sound (compressed : list byte) (expected_length : Z) :
  rsound (fun _ => True) (lzf_decompress compressed expected_length).
Proof.
  destruct (lzf_decompress compressed expected_length) as [out | e] eqn:H;
    cbn [rsound]; [trivial |].
  destruct (lzf_decompress_error _ _ _ H) as [-> | [-> _]]; discriminate.
Qed.

Ltac shorter_step f1 :=
  match goal with
  | |- rsound (shorter ?f) (rbind (read_length ?g) _) =>
      apply rsound_bind with (Q := shorter g); [apply read_length_consumes |]
  | |- rsound (shorter ?f) (rbind (read_signed_le ?n ?g) _) =>
      apply rsound_bind with (Q := shorter g);
      [apply read_signed_consumes; lia |]
  end.

Lemma read_string_consumes (f : stream) : rsound (shorter f) (read_string f).
Proof.
  unfold read_string.
  apply rsound_bind with (Q := shorter f);
    [apply read_length_with_encoding_consumes |].
  intros [[length is_encoded] f1] H1. cbv zeta. cbn [fst snd].
  unfold shorter in H1. cbn [snd] in H1.
  unfold read_signed_char, read_signed_short, read_signed_int.
  destruct is_encoded.
  - destruct (length =? REDIS_RDB_ENC_INT8);
      [| destruct (length =? REDIS_RDB_ENC_INT16);
         [| destruct (length =? REDIS_RDB_ENC_INT32);
            [| destruct (length =? REDIS_RDB_ENC_LZF)]]].
    1-3: shorter_step f1; intros [v f2] H2; unfold shorter in *;
         cbn [rsound snd] in *; lia.
    + shorter_step f1. intros [clen f2] H2.
      apply rsound_bind with (Q := shorter f2); [apply read_length_consumes |].
      intros [l f3] H3.
      pose proof (read_within clen f3) as H4.
      destruct (read clen f3) as [compressed f4].
      apply rsound_bind with (Q := fun _ => True);
        [apply lzf_decompress_sound |].
      intros val _. unfold shorter, within in *. cbn [rsound snd] in *. lia.
    + unfold shorter. cbn [rsound snd]. lia.
  - pose proof (read_within length f1) as H2.
    destruct (read length f1) as [val f2].
    unfold shorter, within in *. cbn [rsound snd] in *. lia.
Qed.

Lemma skip_string_consumes (f : stream) :
  rsound (fun f' => (List.length f' < List.length f)%nat) (skip_string f).
Proof.
  unfold skip_string.
  apply rsound_bind with (Q := shorter f);
    [apply read_length_with_encoding_consumes |].
  intros [[length is_encoded] f1] H1. cbv zeta. cbn [fst snd].
  unfold shorter in H1. cbn [snd] in H1.
  apply rsound_bind with (Q := shorter f).
  - destruct is_encoded; [| exact H1].
    destruct (length =? REDIS_RDB_ENC_INT8); [exact H1 |].
    destruct (length =? REDIS_RDB_ENC_INT16); [exact H1 |].
    destruct (length =? REDIS_RDB_ENC_INT32); [exact H1 |].
    destruct (length =? REDIS_RDB_ENC_LZF); [| exact H1].
    apply rsound_bind with (Q := shorter f1); [apply read_length_consumes |].
    intros [clen f2] H2.
    apply rsound_bind with (Q := shorter f2); [apply read_length_consumes |].
    intros [l f3] H3. unfold shorter in *. cbn [rsound snd] in *. lia.
  - intros [n f2] H2. unfold shorter in H2. cbn [rsound snd] in *.
    pose proof (skip_within f2 n). lia.
Qed.

Lemma skip_strings_loop_within (n : nat) :
  forall f : stream,
  rsound (fun f' => (List.length f' <= List.length f)%nat)
    (skip_strings_loop n f).
Proof.
  induction n as [| n IH]; intros f; cbn [skip_strings_loop rsound]; [lia |].
  apply rsound_bind with (Q := fun f' => (List.length f' < List.length f)%nat);
    [apply skip_string_consumes |].
  intros f1 H1. eapply rsound_weaken; [| apply IH]. cbn. intros f2 H2. lia.
Qed.

Lemma skip_object_within (f : stream) (enc_type : Z) :
  rsound (fun f' => (List.length f' <= List.length f)%nat)
    (skip_object f enc_type).
Proof.
  unfold skip_object.
  apply rsound_bind with (Q := within f).
  - repeat match goal with
      | |- rsound _ (if ?c then _ else _) => destruct c
      | |- rsound (within _) (OK (_, _)) => unfold within; cbn; lia
      | |- rsound (within ?f) (read_length ?f) =>
          eapply rsound_weaken;
          [apply shorter_within | apply read_length_consumes]
      | |- rsound (within ?f) (rbind (read_length ?f) _) =>
          apply rsound_bind with (Q := shorter f);
          [apply read_length_consumes
          | intros [? ?] ?; apply shorter_within; assumption]
      | |- rsound _ (Err UnknownType) => cbn; discriminate
      end.
  - intros [n f1] H1. unfold within in H1. cbn [snd] in H1.
    eapply rsound_weaken; [| apply skip_strings_loop_within].
    cbn. intros f2 H2. lia.
Qed.

Lemma skip_key_and_object_within (f : stream) (data_type : Z) :
  rsound (fun f' => (List.length f' <= List.length f)%nat)
    (skip_key_and_object f data_type).
Proof.
  unfold skip_key_and_object.
  apply rsound_bind with (Q := fun f' => (List.length f' < List.length f)%nat);
    [apply skip_string_consumes |].
  intros f1 H1. eapply rsound_weaken; [| apply skip_object_within].
  cbn. intros f2 H2. lia.
Qed.

Lemma read_24bit_signed_number_consumes (f : stream) :
  rsound (within f) (read_24bit_signed_number f).
Proof.
  unfold read_24bit_signed_number. pose proof (read_within 3 f) as H.
  destruct (read 3 f) as [s3 f1].
  pose proof (unpack_length 4 ("0"%byte :: s3)) as Hu.
  destruct (unpack 4 _) as [[s g] | e]; cbn [rbind rsound];
    [exact H | now subst].
Qed.

Lemma read_big_endian_unsigned_int_consumes (f : stream) :
  rsound (shorter f) (read_big_endian_unsigned_int f).
Proof.
  unfold read_big_endian_unsigned_int. pose proof (unpack_length 4 f) as H.
  destruct (unpack 4 f) as [[s f'] | e]; cbn [rbind rsound];
    [unfold shorter; cbn [snd]; lia | now subst].
Qed.

Lemma read_ziplist_entry_consumes (f : stream) :
  rsound (shorter f) (read_ziplist_entry f).
Proof.
  unfold read_ziplist_entry.
  apply rsound_bind with (Q := shorter f);
    [apply read_unsigned_consumes; lia |].
  intros [p f1] H1. unfold shorter in H1. cbn [snd] in H1.
  apply rsound_bind with (Q := shorter f).
  { destruct (p =? 254); [| exact H1].
    eapply rsound_weaken; [| apply (read_unsigned_consumes 4 f1); lia].
    intros [v g]. unfold shorter. cbn [snd]. lia. }
  intros [p' f2] H2. unfold shorter in H2. cbn [snd] in H2.
  apply rsound_bind with (Q := shorter f2);
    [apply read_unsigned_consumes; lia |].
  intros [h f3] H3. unfold shorter in H3. cbn [snd] in H3.
  unfold read_signed_short, read_signed_int, read_signed_long,
    read_signed_char, read_unsigned_char.
  repeat match goal with
    | |- rsound _ (if ?c then _ else _) => destruct c
    end;
    try (cbn; discriminate);
    try (unfold shorter; cbn [rsound snd]; lia);
    try (match goal with
         | |- rsound _ (let (_, _) := read ?n ?g in _) =>
             pose proof (read_within n g); destruct (read n g);
             unfold shorter, within in *; cbn [rsound snd] in *; lia
         end);
    try (apply rsound_bind with (Q := shorter f3);
         [ first [ apply read_signed_consumes; lia
                 | apply read_unsigned_consumes; lia
                 | apply read_big_endian_unsigned_int_consumes ]
         | intros [v g] Hg; unfold shorter in Hg; cbn [snd] in Hg;
           try (unfold shorter; cbn [rsound snd]; lia);
           match goal with
           | |- rsound _ (let (_, _) := read ?n ?g in _) =>
               pose proof (read_within n g); destruct (read n g);
               unfold shorter, within in *; cbn [rsound snd] in *; lia
           end ]).
  apply rsound_bind with (Q := within f3);
    [apply read_24bit_signed_number_consumes |].
  intros [v g] Hg. unfold shorter, within in *. cbn [rsound snd] in *. lia.
Qed.

Lemma read_zipmap_next_length_consumes (f : stream) :
  rsound (shorter f) (read_zipmap_next_length f).
Proof.
  unfold read_zipmap_next_length.
  apply rsound_bind with (Q := shorter f);
    [apply read_unsigned_consumes; lia |].
  intros [num f1] H1.
  destruct (num <? 254); [exact H1 |].
  destruct (num =? 254); [| exact H1].
  unfold shorter in H1. cbn [snd] in H1.
  apply rsound_bind with (Q := shorter f1);
    [apply read_unsigned_consumes; lia |].
  intros [n f2] H2. unfold shorter in *. cbn [rsound snd] in *. lia.
Qed.

Section Bounds.
Context {B : PyBuiltins}.

Lemma sound_weaken {A : Type} (P Q : A -> Prop) (m : E A) :
  (forall a, P a -> Q a) -> sound P m -> sound Q m.
Proof. unfold sound. apply rsound_weaken. Qed.

Lemma sound_bind {A C : Type} (Q : A -> Prop) (P : C -> Prop) (m : E A)
    (k : A -> E C) :
  sound Q m -> (forall a, Q a -> sound P (k a)) -> sound P (bind m k).
Proof.
  unfold sound. destruct m as [evs [a | e]]; cbn [bind snd rsound]; intros Hm Hk.
  - specialize (Hk a Hm). destruct (k a) as [evs' r]. exact Hk.
  - exact Hm.
Qed.

Lemma sound_lift {A : Type} (P : A -> Prop) (r : res A) :
  rsound P r -> sound P (lift r).
Proof. trivial. Qed.

Lemma sound_emit (e : event) : sound (fun _ => True) (emit e).
Proof. exact I. Qed.

Lemma sound_ret {A : Type} (P : A -> Prop) (a : A) : P a -> sound P (ret a).
Proof. trivial. Qed.

Lemma sound_emit_then {C : Type} (P : C -> Prop) (e : event) (m : E C) :
  sound P m -> sound P (emit e ;;; m).
Proof.
  intros H. apply sound_bind with (Q := fun _ => True); [apply sound_emit | auto].
Qed.

(** A counted loop keeps what each of its turns keeps. *)
Lemma for_range_sound (Inv : stream -> Prop) (body : stream -> E stream)
    (n : nat) :
  (forall g, Inv g -> sound Inv (body g)) ->
  forall f, Inv f -> sound Inv (for_range n body f).
Proof.
  intros Hbody. induction n as [| n IH]; intros f Hf; cbn [for_range].
  - now apply sound_ret.
  - apply sound_bind with (Q := Inv); auto.
Qed.

Lemma float_sound (s : list byte) : rsound (fun _ => True) (float s).
Proof. unfold float. destruct (py_float s); cbn; [trivial | discriminate]. Qed.

Lemma py_len_sound (v : value) : rsound (fun _ => True) (py_len v).
Proof. destruct v; cbn; trivial; discriminate. Qed.

Lemma check_zlist_end_sound (buff : stream) :
  rsound (fun _ => True) (check_zlist_end buff).
Proof.
  unfold check_zlist_end.
  apply rsound_bind with (Q := fun _ => True).
  - eapply rsound_weaken; [| apply (read_unsigned_consumes 1 buff); lia]. auto.
  - intros [z g] _. destruct (negb _); cbn; [discriminate | trivial].
Qed.

(** The [while True] of the zipmap reader stops before its bound. *)
Lemma zipmap_loop_sound (fuel : nat) :
  forall (key : value) (buff : stream),
  (List.length buff < fuel)%nat ->
  sound (fun _ => True) (zipmap_loop fuel key buff).
Proof.
  induction fuel as [| fuel IH]; intros key buff Hfuel; [lia |].
  cbn [zipmap_loop].
  apply sound_bind with (Q := shorter buff);
    [apply sound_lift, read_zipmap_next_length_consumes |].
  intros [[key_length |] b1] H1; [| exact I].
  unfold shorter in H1. cbn [snd] in H1.
  pose proof (read_within key_length b1) as H2.
  destruct (read key_length b1) as [field b2]. unfold within in H2. cbn [snd] in H2.
  apply sound_bind with (Q := shorter b2);
    [apply sound_lift, read_zipmap_next_length_consumes |].
  intros [[value_length |] b3] H3; [| cbn; discriminate].
  unfold shorter in H3. cbn [snd] in H3.
  apply sound_bind with (Q := shorter b3);
    [apply sound_lift, read_unsigned_consumes; lia |].
  intros [free b4] H4. unfold shorter in H4. cbn [snd] in H4.
  pose proof (read_within value_length b4) as H5.
  destruct (read value_length b4) as [val b5]. unfold within in H5. cbn [snd] in H5.
  cbv zeta. apply sound_emit_then. apply IH.
  pose proof (skip_within b5 free). lia.
Qed.

End Bounds.

Section DecoderBounds.
Context {B : PyBuiltins}.

Ltac lengths :=
  unfold shorter, within, upto in *; cbn [snd] in *; lia.

(** One statement of a decoder. *)
Ltac sound_step :=
  match goal with
  | |- sound _ (bind (lift (read_string ?g)) _) =>
      apply sound_bind with (Q := shorter g);
      [apply sound_lift, read_string_consumes | intros [? ?] ?]
  | |- sound _ (bind (lift (read_length ?g)) _) =>
      apply sound_bind with (Q := shorter g);
      [apply sound_lift, read_length_consumes | intros [? ?] ?]
  | |- sound _ (bind (lift (read_unsigned_le ?n ?g)) _) =>
      apply sound_bind with (Q := shorter g);
      [apply sound_lift, read_unsigned_consumes; lia | intros [? ?] ?]
  | |- sound _ (bind (lift (read_ziplist_entry ?g)) _) =>
      apply sound_bind with (Q := shorter g);
      [apply sound_lift, read_ziplist_entry_consumes | intros [? ?] ?]
  | |- sound _ (bind (lift (py_len _)) _) =>
      apply sound_bind with (Q := fun _ => True);
      [apply sound_lift, py_len_sound | intros ? _]
  | |- sound _ (bind (lift (float _)) _) =>
      apply sound_bind with (Q := fun _ => True);
      [apply sound_lift, float_sound | intros ? _]
  | |- sound _ (bind (lift (check_zlist_end _)) _) =>
      apply sound_bind with (Q := fun _ => True);
      [apply sound_lift, check_zlist_end_sound | intros ? _]
  | |- sound _ (bind (emit _) _) => apply sound_emit_then
  | |- sound _ (ret _) => apply sound_ret; try exact I; try lengths
  | |- sound _ (lift (Err _)) => cbn; discriminate
  | |- sound _ (if ?c then _ else _) => destruct c
  | |- sound _ (let (_, _) := read ?n ?g in _) =>
      pose proof (read_within n g); destruct (read n g)
  | |- sound _ (bind (for_range _ _ ?g) _) =>
      apply sound_bind with (Q := fun _ => True);
      [apply for_range_sound with (Inv := fun _ => True);
       [intros ? _ | exact I]
      | intros ? _]
  end.

Ltac unfold_reads :=
  unfold read_unsigned_char, read_unsigned_short, read_unsigned_int,
    read_unsigned_long.

Lemma read_intset_sound (key : value) (expiry : option datetime) (f : stream) :
  sound (upto f) (read_intset key expiry f).
Proof.
  unfold read_intset. unfold_reads. cbv zeta. repeat sound_step.
  apply sound_bind with (Q := fun _ => True).
  - apply sound_lift.
    repeat match goal with
      | |- rsound _ (if ?c then _ else _) => destruct c
      end;
      try (eapply rsound_weaken; [| apply read_unsigned_consumes; lia]; auto).
    cbn. discriminate.
  - intros [? ?] _. repeat sound_step.
Qed.

Lemma read_ziplist_sound (key : value) (expiry : option datetime) (f : stream) :
  sound (upto f) (read_ziplist key expiry f).
Proof.
  unfold read_ziplist. unfold_reads. cbv zeta. repeat sound_step.
Qed.

Lemma read_zset_from_ziplist_sound (key : value) (expiry : option datetime)
    (f : stream) :
  sound (upto f) (read_zset_from_ziplist key expiry f).
Proof.
  unfold read_zset_from_ziplist. unfold_reads. cbv zeta. repeat sound_step.
  apply sound_bind with (Q := fun _ => True).
  - apply sound_lift.
    match goal with
    | |- rsound _ (match ?v with _ => _ end) => destruct v
    end; try exact I. apply float_sound.
  - intros ? _. repeat sound_step.
Qed.

Lemma read_hash_from_ziplist_sound (key : value) (expiry : option datetime)
    (f : stream) :
  sound (upto f) (read_hash_from_ziplist key expiry f).
Proof.
  unfold read_hash_from_ziplist. unfold_reads. cbv zeta. repeat sound_step.
Qed.

Lemma read_zipmap_sound (key : value) (expiry : option datetime) (f : stream) :
  sound (upto f) (read_zipmap key expiry f).
Proof.
  unfold read_zipmap. unfold_reads. sound_step.
  apply sound_bind with (Q := fun _ => True).
  { apply sound_lift.
    match goal with
    | |- rsound _ (py_bytearray ?v) => destruct v as [| z |]
    end; cbn; try discriminate; try exact I.
    destruct (z <? 0); cbn; [discriminate | exact I]. }
  intros buff _. repeat sound_step.
  apply sound_bind with (Q := fun _ => True);
    [apply zipmap_loop_sound; lia |].
  intros _ _. repeat sound_step.
Qed.

Lemma read_object_sound (key : value) (expiry : option datetime) (f : stream)
    (enc_type : Z) :
  sound (upto f) (read_object key expiry f enc_type).
Proof.
  unfold read_object. unfold_reads.
  destruct (enc_type =? REDIS_RDB_TYPE_STRING); [repeat sound_step |].
  destruct (enc_type =? REDIS_RDB_TYPE_LIST).
  { sound_step. sound_step.
    apply sound_bind with (Q := upto f).
    - apply for_range_sound; [| lengths].
      intros g Hg. repeat sound_step.
    - intros g Hg. repeat sound_step. }
  destruct (enc_type =? REDIS_RDB_TYPE_SET).
  { sound_step. sound_step.
    apply sound_bind with (Q := upto f).
    - apply for_range_sound; [| lengths].
      intros g Hg. repeat sound_step.
    - intros g Hg. repeat sound_step. }
  destruct (enc_type =? REDIS_RDB_TYPE_ZSET).
  { sound_step. sound_step.
    apply sound_bind with (Q := upto f).
    - apply for_range_sound; [| lengths].
      intros g Hg. repeat sound_step.
    - intros g Hg. repeat sound_step. }
  destruct (enc_type =? REDIS_RDB_TYPE_HASH).
  { sound_step. sound_step.
    apply sound_bind with (Q := upto f).
    - apply for_range_sound; [| lengths].
      intros g Hg. repeat sound_step.
    - intros g Hg. repeat sound_step. }
  destruct (enc_type =? REDIS_RDB_TYPE_HASH_ZIPMAP); [apply read_zipmap_sound |].
  destruct (enc_type =? REDIS_RDB_TYPE_LIST_ZIPLIST); [apply read_ziplist_sound |].
  destruct (enc_type =? REDIS_RDB_TYPE_SET_INTSET); [apply read_intset_sound |].
  destruct (enc_type =? REDIS_RDB_TYPE_ZSET_ZIPLIST);
    [apply read_zset_from_ziplist_sound |].
  destruct (enc_type =? REDIS_RDB_TYPE_HASH_ZIPLIST);
    [apply read_hash_from_ziplist_sound |].
  cbn. discriminate.
Qed.

End DecoderBounds.

Section DriverBounds.
Context {B : PyBuiltins}.

Lemma matches_filter_sound (flt : filters) (db_number : Z) (key : value)
    (data_type : option Z) :
  rsound (fun _ => True) (matches_filter flt db_number key data_type).
Proof.
  unfold matches_filter.
  destruct (db_rejected flt db_number); [exact I |].
  destruct (truthy key && negb (keys flt (py_str key))); [exact I |].
  destruct data_type as [dt |]; [| exact I].
  unfold get_logical_type.
  repeat match goal with
    | |- rsound _ (rbind (if ?c then _ else _) _) => destruct c
    | |- rsound _ (rbind (OK _) _) => cbn [rbind]
    | |- rsound _ (if ?c then _ else _) => destruct c
    end; cbn; trivial; discriminate.
Qed.

Lemma read_expiry_within (data_type : Z) (f : stream) :
  rsound (fun r => (List.length (snd r) <= List.length f)%nat)
    (read_expiry data_type f).
Proof.
  unfold read_expiry, read_unsigned_long, read_unsigned_int, read_unsigned_char.
  destruct (data_type =? REDIS_RDB_OPCODE_EXPIRETIME_MS);
    [| destruct (data_type =? REDIS_RDB_OPCODE_EXPIRETIME)].
  - apply rsound_bind with (Q := shorter f);
      [apply read_unsigned_consumes; lia |].
    intros [ms f1] H1.
    apply rsound_bind with (Q := shorter f1);
      [apply read_unsigned_consumes; lia |].
    intros [dt f2] H2. unfold shorter in *. cbn [rsound snd] in *. lia.
  - apply rsound_bind with (Q := shorter f);
      [apply read_unsigned_consumes; lia |].
    intros [s f1] H1.
    apply rsound_bind with (Q := shorter f1);
      [apply read_unsigned_consumes; lia |].
    intros [dt f2] H2. unfold shorter in *. cbn [rsound snd] in *. lia.
  - cbn [rsound snd]. lia.
Qed.

Lemma parse_record_sound (flt : filters) (db_number : Z)
    (expiry : option datetime) (data_type : Z) (f : stream) :
  sound (upto f) (parse_record flt db_number expiry data_type f).
Proof.
  unfold parse_record.
  apply sound_bind with (Q := fun _ => True);
    [apply sound_lift, matches_filter_sound |].
  intros [|] _.
  - apply sound_bind with (Q := shorter f);
      [apply sound_lift, read_string_consumes |].
    intros [key f1] H1.
    apply sound_bind with (Q := fun _ => True);
      [apply sound_lift, matches_filter_sound |].
    intros [|] _.
    + eapply sound_weaken; [| apply read_object_sound].
      intros g Hg. unfold shorter, upto in *. cbn [snd] in *. lia.
    + apply sound_lift. eapply rsound_weaken; [| apply skip_object_within].
      intros g Hg. unfold shorter, upto in *. cbn [snd] in *. lia.
  - apply sound_lift. eapply rsound_weaken; [| apply skip_key_and_object_within].
    intros g Hg. exact Hg.
Qed.

(** The driver's loop stops before the model's bound: every turn reads
    the opcode byte at least. *)
Lemma parse_loop_sound (flt : filters) (fuel : nat) :
  forall (first : bool) (db_number : Z) (f : stream),
  (List.length f < fuel)%nat ->
  sound (upto f) (parse_loop fuel flt first db_number f).
Proof.
  induction fuel as [| fuel IH]; intros first db_number f Hfuel; [lia |].
  cbn [parse_loop].
  apply sound_bind with (Q := shorter f);
    [apply sound_lift, read_unsigned_consumes; lia |].
  intros [data_type f1] H1. unfold shorter in H1. cbn [snd] in H1.
  apply sound_bind
    with (Q := fun r => (List.length (snd r) <= List.length f1)%nat);
    [apply sound_lift, read_expiry_within |].
  intros [[expiry dt] f2] H2. cbn [snd] in H2.
  destruct (dt =? REDIS_RDB_OPCODE_SELECTDB).
  - apply sound_bind with (Q := fun _ => True).
    { destruct (negb first); [apply sound_emit | exact I]. }
    intros _ _. cbv zeta.
    apply sound_bind with (Q := shorter f2);
      [apply sound_lift, read_length_consumes |].
    intros [n f3] H3. unfold shorter in H3. cbn [snd] in H3.
    apply sound_emit_then.
    eapply sound_weaken; [| apply IH; lia].
    intros g Hg. unfold upto in *. lia.
  - destruct (dt =? REDIS_RDB_OPCODE_EOF).
    + do 2 apply sound_emit_then. apply sound_ret. unfold upto. lia.
    + apply sound_bind with (Q := upto f2); [apply parse_record_sound |].
      intros f3 H3. unfold upto in H3.
      eapply sound_weaken; [| apply IH; lia].
      intros g Hg. unfold upto in *. lia.
Qed.

Lemma parse_sound (flt : filters) (file : list byte) :
  sound (upto file) (parse flt file).
Proof.
  unfold parse. pose proof (read_within 5 file) as H5.
  destruct (read 5 file) as [magic f1]. unfold within in H5. cbn [snd] in H5.
  apply sound_bind with (Q := fun _ => True).
  { apply sound_lift. unfold verify_magic_string.
    destruct (negb _); cbn; [discriminate | exact I]. }
  intros _ _. pose proof (read_within 4 f1) as H4.
  destruct (read 4 f1) as [version f2]. unfold within in H4. cbn [snd] in H4.
  apply sound_bind with (Q := fun _ => True).
  { apply sound_lift. unfold verify_version.
    destruct (py_int version); cbn; [| discriminate].
    destruct (_ || _); cbn; [discriminate | exact I]. }
  intros _ _. apply sound_emit_then.
  eapply sound_weaken; [| apply parse_loop_sound; lia].
  intros g Hg. unfold upto in *. lia.
Qed.

(** X1.  Every loop of the parser ends: the driver's [while True], the
    zipmap reader's [while True] and the LZF loop each read at least one
    byte per turn, so a parse makes at most [len(file) + 1] turns and the
    bound the model puts on its loops is never what stops it.  What a
    successful parse leaves unread is a part of the file. *)
Theorem parse_terminates (flt : filters) (file : list byte) :
  snd (parse flt file) <> Err OutOfFuel /\
  (forall rest, snd (parse flt file) = OK rest ->
     (List.length rest <= List.length file)%nat).
Proof.
  pose proof (parse_sound flt file) as H. unfold sound in H.
  destruct (snd (parse flt file)) as [rest | e]; cbn [rsound] in H.
  - split; [discriminate |]. intros rest' [= <-]. exact H.
  - split; [congruence |]. discriminate.
Qed.

End DriverBounds.

(** ** Decoding and skipping read the same bytes *)

Lemma rpost_bind {A C : Type} (Q : A -> Prop) (P : C -> Prop) (m : res A)
    (k : A -> res C) :
  rpost Q m -> (forall a, Q a -> rpost P (k a)) -> rpost P (rbind m k).
Proof.
  unfold rpost. destruct m as [a | e]; cbn [rbind]; intros Hm Hk c Hc.
  - exact (Hk a (Hm a eq_refl) c Hc).
  - discriminate.
Qed.

Lemma rpost_OK {A : Type} (P : A -> Prop) (a : A) : P a -> rpost P (OK a).
Proof. intros H a' [= <-]. exact H. Qed.

Lemma rpost_Err {A : Type} (P : A -> Prop) (e : error) : rpost P (Err e).
Proof. intros a H. discriminate. Qed.

Lemma skip_read (f : stream) (n : Z) : skip f n = snd (read n f).
Proof.
  unfold skip, read. cbn [snd]. destruct (Z.eqb_spec n 0) as [-> | _]; reflexivity.
Qed.

Lemma unpack_rest (n : nat) (f : stream) :
  rpost (fun p => snd p = skipn n f) (unpack n f).
Proof.
  unfold unpack.
  destruct (Nat.eqb _ _); [apply rpost_OK; reflexivity | apply rpost_Err].
Qed.

Lemma read_signed_le_rest (n : nat) (f : stream) :
  rpost (fun p => snd p = skipn n f) (read_signed_le n f).
Proof.
  unfold read_signed_le.
  apply rpost_bind with (Q := fun p => snd p = skipn n f); [apply unpack_rest |].
  intros [s f'] H. apply rpost_OK. exact H.
Qed.

Lemma read_unsigned_le_rest (n : nat) (f : stream) :
  rpost (fun p => snd p = skipn n f) (read_unsigned_le n f).
Proof.
  unfold read_unsigned_le.
  apply rpost_bind with (Q := fun p => snd p = skipn n f); [apply unpack_rest |].
  intros [s f'] H. apply rpost_OK. exact H.
Qed.

Lemma read_string_skip_string (f : stream) :
  rpost (fun p => skip_string f = OK (snd p)) (read_string f).
Proof.
  unfold read_string, skip_string.
  destruct (read_length_with_encoding f) as [[[length is_encoded] f1] | e];
    cbn [rbind fst snd]; [| apply rpost_Err].
  cbv zeta. unfold read_signed_char, read_signed_short, read_signed_int.
  destruct is_encoded.
  - destruct (length =? REDIS_RDB_ENC_INT8);
      [| destruct (length =? REDIS_RDB_ENC_INT16);
         [| destruct (length =? REDIS_RDB_ENC_INT32);
            [| destruct (length =? REDIS_RDB_ENC_LZF)]]].
    1-3: cbn [rbind];
         eapply rpost_bind; [apply read_signed_le_rest |];
         intros [v f2] H; cbn [snd] in H; subst f2;
         apply rpost_OK; cbn [snd]; now rewrite skip_read.
    + destruct (read_length f1) as [[clen f2] | e]; cbn [rbind];
        [| apply rpost_Err].
      destruct (read_length f2) as [[l f3] | e]; cbn [rbind];
        [| apply rpost_Err].
      rewrite skip_read. destruct (read clen f3) as [compressed f4]. cbn [snd].
      destruct (lzf_decompress compressed l); cbn [rbind];
        [apply rpost_OK; reflexivity | apply rpost_Err].
    + cbn [rbind]. apply rpost_OK. reflexivity.
  - cbn [rbind]. rewrite skip_read. destruct (read length f1) as [val f2].
    apply rpost_OK. reflexivity.
Qed.

(** X2.  The skip twin of the string codec: whenever [read_string]
    returns, [skip_string] on the same input returns too and leaves the
    stream at the same place. *)
Theorem skip_string_follows_read_string (f f' : stream) (v : value) :
  read_string f = OK (v, f') -> skip_string f = OK f'.
Proof.
  intros H. exact (read_string_skip_string f (v, f') H).
Qed.

Lemma skip_string_follows_read_string_witness :
  skip_string [x03; "b"; "a"; "r"; xff]%byte = OK [xff].
Proof.
  apply (skip_string_follows_read_string _ _ (VStr ["b"; "a"; "r"]%byte)).
  reflexivity.
Defined.

Lemma skip_strings_loop_iterate (n : nat) (f : stream) :
  skip_strings_loop n f = iterate n skip_string f.
Proof.
  revert f. induction n as [| n IH]; intros f; cbn [skip_strings_loop iterate];
    [reflexivity |].
  destruct (skip_string f); cbn [rbind]; [apply IH | reflexivity].
Qed.

Lemma skip_strings_loop_pairs (n : nat) (f : stream) :
  skip_strings_loop (n * 2) f
  = iterate n (fun g => g <- skip_string g ;; skip_string g) f.
Proof.
  revert f. induction n as [| n IH]; intros f; cbn [Nat.mul Nat.add skip_strings_loop iterate];
    [reflexivity |].
  destruct (skip_string f) as [f1 |]; cbn [rbind]; [| reflexivity].
  destruct (skip_string f1) as [f2 |]; cbn [rbind]; [apply IH | reflexivity].
Qed.

Section Agreement.
Context {B : PyBuiltins}.

Lemma bind_OK_inv {A C : Type} (m : E A) (k : A -> E C) (evs : list event)
    (c : C) :
  bind m k = (evs, OK c) ->
  exists evs1 a evs2,
    m = (evs1, OK a) /\ k a = (evs2, OK c) /\ evs = evs1 ++ evs2.
Proof.
  destruct m as [evs1 [a | e]]; cbn [bind]; [| discriminate].
  destruct (k a) as [evs2 r] eqn:Hk. intros [= <- ->].
  now exists evs1, a, evs2.
Qed.

Lemma post_bind {A C : Type} (Q : list event -> A -> Prop)
    (P : list event -> C -> Prop) (m : E A) (k : A -> E C) :
  post Q m ->
  (forall evs1 a, Q evs1 a -> post (fun evs2 c => P (evs1 ++ evs2) c) (k a)) ->
  post P (bind m k).
Proof.
  intros Hm Hk evs c H.
  destruct (bind_OK_inv m k evs c H) as (evs1 & a & evs2 & H1 & H2 & ->).
  exact (Hk evs1 a (Hm evs1 a H1) evs2 c H2).
Qed.

Lemma post_lift {A : Type} (P : list event -> A -> Prop) (r : res A) :
  rpost (P []) r -> post P (lift r).
Proof. intros H evs a [= <- ->]. now apply H. Qed.

Lemma post_ret {A : Type} (P : list event -> A -> Prop) (a : A) :
  P [] a -> post P (ret a).
Proof. intros H evs a' [= <- <-]. exact H. Qed.

Lemma post_emit (P : list event -> unit -> Prop) (e : event) :
  P [e] tt -> post P (emit e).
Proof. intros H evs a [= <- <-]. exact H. Qed.

Lemma post_Err {A : Type} (P : list event -> A -> Prop) (evs : list event)
    (e : error) :
  post P ((evs, Err e) : E A).
Proof. intros evs' a [=]. Qed.

Lemma post_weaken {A : Type} (P Q : list event -> A -> Prop) (m : E A) :
  (forall evs a, P evs a -> Q evs a) -> post P m -> post Q m.
Proof. intros H Hm evs a Hr. apply H, Hm, Hr. Qed.

(** When only the result matters, any first step will do. *)
Lemma post_result_bind {A C : Type} (P : C -> Prop) (m : E A) (k : A -> E C) :
  (forall a, post (fun _ c => P c) (k a)) -> post (fun _ c => P c) (bind m k).
Proof.
  intros Hk. apply post_bind with (Q := fun _ _ => True).
  - intros evs a _. exact I.
  - intros evs1 a _. apply Hk.
Qed.

Lemma for_range_iterate (body : stream -> E stream)
    (step : stream -> res stream) (n : nat) :
  (forall g, post (fun _ g' => step g = OK g') (body g)) ->
  forall f, post (fun _ f' => iterate n step f = OK f') (for_range n body f).
Proof.
  intros Hbody. induction n as [| n IH]; intros f; cbn [for_range iterate].
  - now apply post_ret.
  - apply post_bind with (Q := fun _ g' => step f = OK g'); [apply Hbody |].
    intros evs1 g Hg. rewrite Hg. cbn [rbind]. apply IH.
Qed.

(** The blob decoders leave the stream where the blob's string ended. *)
Ltac result_step :=
  match goal with
  | |- post _ (bind _ _) => apply post_result_bind; intros ?
  | |- post _ (let '(_, _) := ?p in _) => destruct p
  | |- post _ (if ?c then _ else _) => destruct c
  | |- post _ (lift (Err _)) => apply post_Err
  | |- post _ (ret _) => apply post_ret
  end.

Ltac blob_decoder :=
  match goal with
  | |- post _ (bind (lift (read_string ?f)) _) =>
      apply post_bind with (Q := fun _ p => skip_string f = OK (snd p));
      [apply post_lift, read_string_skip_string |];
      intros ? [? ?] ?; cbv zeta; repeat result_step;
      cbn [snd] in *; assumption
  end.

Lemma read_intset_rest (key : value) (expiry : option datetime) (f : stream) :
  post (fun _ f' => skip_string f = OK f') (read_intset key expiry f).
Proof. unfold read_intset. blob_decoder. Qed.

Lemma read_ziplist_rest (key : value) (expiry : option datetime) (f : stream) :
  post (fun _ f' => skip_string f = OK f') (read_ziplist key expiry f).
Proof. unfold read_ziplist. blob_decoder. Qed.

Lemma read_zset_from_ziplist_rest (key : value) (expiry : option datetime)
    (f : stream) :
  post (fun _ f' => skip_string f = OK f') (read_zset_from_ziplist key expiry f).
Proof. unfold read_zset_from_ziplist. blob_decoder. Qed.

Lemma read_hash_from_ziplist_rest (key : value) (expiry : option datetime)
    (f : stream) :
  post (fun _ f' => skip_string f = OK f') (read_hash_from_ziplist key expiry f).
Proof. unfold read_hash_from_ziplist. blob_decoder. Qed.

Lemma read_zipmap_rest (key : value) (expiry : option datetime) (f : stream) :
  post (fun _ f' => skip_string f = OK f') (read_zipmap key expiry f).
Proof. unfold read_zipmap. blob_decoder. Qed.

Lemma skip_one_string (f f' : stream) :
  skip_string f = OK f' -> skip_strings_loop (Z.to_nat 1) f = OK f'.
Proof.
  intros H. change (Z.to_nat 1) with 1%nat. cbn [skip_strings_loop].
  now rewrite H.
Qed.

Lemma read_object_skip_object (key : value) (expiry : option datetime)
    (f : stream) (enc_type : Z) :
  enc_type <> REDIS_RDB_TYPE_ZSET ->
  post (fun _ f' => skip_object f enc_type = OK f')
    (read_object key expiry f enc_type).
Proof.
  intros Hz. unfold read_object, skip_object.
  destruct (Z.eqb_spec enc_type REDIS_RDB_TYPE_STRING).
  { cbn [rbind].
    apply post_bind with (Q := fun _ p => skip_string f = OK (snd p));
      [apply post_lift, read_string_skip_string |].
    intros ? [v f1] H1. repeat result_step. now apply skip_one_string. }
  destruct (Z.eqb_spec enc_type REDIS_RDB_TYPE_LIST).
  { destruct (read_length f) as [[len f1] | err]; [| rewrite bind_lift_Err; apply post_Err].
    rewrite bind_lift_OK. cbn [rbind]. result_step.
    apply post_bind
      with (Q := fun _ f' => iterate (Z.to_nat len) skip_string f1 = OK f').
    - apply for_range_iterate. intros g.
      apply post_bind with (Q := fun _ p => skip_string g = OK (snd p));
        [apply post_lift, read_string_skip_string |].
      intros ? [v g1] H1. repeat result_step. exact H1.
    - intros ? f2 H2. repeat result_step.
      now rewrite skip_strings_loop_iterate. }
  destruct (Z.eqb_spec enc_type REDIS_RDB_TYPE_SET).
  { destruct (read_length f) as [[len f1] | err]; [| rewrite bind_lift_Err; apply post_Err].
    rewrite bind_lift_OK. cbn [rbind]. result_step.
    apply post_bind
      with (Q := fun _ f' => iterate (Z.to_nat len) skip_string f1 = OK f').
    - apply for_range_iterate. intros g.
      apply post_bind with (Q := fun _ p => skip_string g = OK (snd p));
        [apply post_lift, read_string_skip_string |].
      intros ? [v g1] H1. repeat result_step. exact H1.
    - intros ? f2 H2. repeat result_step.
      now rewrite skip_strings_loop_iterate. }
  destruct (Z.eqb_spec enc_type REDIS_RDB_TYPE_ZSET); [contradiction |].
  destruct (Z.eqb_spec enc_type REDIS_RDB_TYPE_HASH).
  { destruct (read_length f) as [[len f1] | err]; [| rewrite bind_lift_Err; apply post_Err].
    rewrite bind_lift_OK. cbn [rbind]. result_step.
    apply post_bind
      with (Q := fun _ f' =>
                   iterate (Z.to_nat len)
                     (fun g => g <- skip_string g ;; skip_string g) f1 = OK f').
    - apply for_range_iterate. intros g.
      apply post_bind with (Q := fun _ p => skip_string g = OK (snd p));
        [apply post_lift, read_string_skip_string |].
      intros ? [v g1] H1. cbn [snd] in H1. rewrite H1. cbn [rbind].
      apply post_bind with (Q := fun _ p => skip_string g1 = OK (snd p));
        [apply post_lift, read_string_skip_string |].
      intros ? [v' g2] H2. repeat result_step. exact H2.
    - intros ? f2 H2. repeat result_step.
      replace (Z.to_nat (len * 2)) with (Z.to_nat len * 2)%nat by lia.
      now rewrite skip_strings_loop_pairs. }
  destruct (Z.eqb_spec enc_type REDIS_RDB_TYPE_HASH_ZIPMAP).
  { cbn [rbind]. eapply post_weaken; [| apply read_zipmap_rest].
    intros ? f' H. now apply skip_one_string. }
  destruct (Z.eqb_spec enc_type REDIS_RDB_TYPE_LIST_ZIPLIST).
  { cbn [rbind]. eapply post_weaken; [| apply read_ziplist_rest].
    intros ? f' H. now apply skip_one_string. }
  destruct (Z.eqb_spec enc_type REDIS_RDB_TYPE_SET_INTSET).
  { cbn [rbind]. eapply post_weaken; [| apply read_intset_rest].
    intros ? f' H. now apply skip_one_string. }
  destruct (Z.eqb_spec enc_type REDIS_RDB_TYPE_ZSET_ZIPLIST).
  { cbn [rbind]. eapply post_weaken; [| apply read_zset_from_ziplist_rest].
    intros ? f' H. now apply skip_one_string. }
  destruct (Z.eqb_spec enc_type REDIS_RDB_TYPE_HASH_ZIPLIST).
  { cbn [rbind]. eapply post_weaken; [| apply read_hash_from_ziplist_rest].
    intros ? f' H. now apply skip_one_string. }
  apply post_Err.
Qed.

(** X3.  For every type tag but the plain sorted set, the skip path is
    the twin of the decode path: when [read_object] returns, [skip_object]
    on the same input returns and leaves the stream at the same place. *)
Theorem skip_object_follows_read_object (key : value)
    (expiry : option datetime) (f f' : stream) (enc_type : Z)
    (evs : list event) :
  enc_type <> REDIS_RDB_TYPE_ZSET ->
  read_object key expiry f enc_type = (evs, OK f') ->
  skip_object f enc_type = OK f'.
Proof.
  intros Hz H. exact (read_object_skip_object key expiry f enc_type Hz evs f' H).
Qed.

End Agreement.

Lemma skip_object_follows_read_object_witness :
  skip_object [x02; x01; "a"; x01; "b"; xff]%byte REDIS_RDB_TYPE_LIST = OK [xff].
Proof.
  apply (@skip_object_follows_read_object digit_builtins (VStr ["l"]%byte) None
           [x02; x01; "a"; x01; "b"; xff]%byte [xff] REDIS_RDB_TYPE_LIST
           [start_list (VStr ["l"]%byte) 2 None (plain "linkedlist");
            rpush (VStr ["l"]%byte) (VStr ["a"]%byte);
            rpush (VStr ["l"]%byte) (VStr ["b"]%byte);
            end_list (VStr ["l"]%byte)]).
  - discriminate.
  - reflexivity.
Defined.

(** ** Bounds on what the length prefix yields *)

Lemma tag_cases (b : byte) :
  Z.shiftr (u8 b) 6 = 0 \/ Z.shiftr (u8 b) 6 = 1 \/
  Z.shiftr (u8 b) 6 = 2 \/ Z.shiftr (u8 b) 6 = 3.
Proof.
  destruct b; vm_compute; auto.
Qed.

Lemma low_six_bits (b : byte) : 0 <= Z.land (u8 b) 0x3F < 64.
Proof.
  destruct b; split; solve [vm_compute; discriminate | reflexivity].
Qed.

Lemma read_length_with_encoding_range (f : stream) :
  rpost (fun r => 0 <= fst (fst r) < 2 ^ 32
                  /\ (snd (fst r) = true -> fst (fst r) < 64))
    (read_length_with_encoding f).
Proof.
  destruct f as [| b rest]; [apply rpost_Err |].
  pose proof (low_six_bits b) as Hlow.
  change (2 ^ 32) with 4294967296.
  destruct (tag_cases b) as [H | [H | [H | H]]].
  - rewrite (length_6bit b rest H). apply rpost_OK. cbn [fst snd].
    split; [lia | discriminate].
  - destruct rest as [| b2 rest].
    + unfold read_length_with_encoding.
      rewrite read_unsigned_char_cons. cbn [rbind]. cbv zeta.
      rewrite enc_type_tag, H. apply rpost_Err.
    + rewrite (length_14bit b b2 rest H). apply rpost_OK. cbn [fst snd].
      pose proof (u8_range b2).
      rewrite lor_shiftl_add by (change (2 ^ 8) with 256; lia).
      change (2 ^ 8) with 256. split; [lia | discriminate].
  - destruct rest as [| b1 [| b2 [| b3 [| b4 rest]]]];
      try (unfold read_length_with_encoding;
           rewrite read_unsigned_char_cons; cbn [rbind]; cbv zeta;
           rewrite enc_type_tag, H;
           cbn [Z.eqb REDIS_RDB_ENCVAL REDIS_RDB_6BITLEN REDIS_RDB_14BITLEN Pos.eqb];
           rewrite ntohl_short by (cbn [List.length]; lia);
           apply rpost_Err).
    rewrite (length_32bit b b1 b2 b3 b4 rest H). apply rpost_OK. cbn [fst snd].
    pose proof (u8_range b1). pose proof (u8_range b2).
    pose proof (u8_range b3). pose proof (u8_range b4).
    change (2 ^ 24) with 16777216. change (2 ^ 16) with 65536.
    change (2 ^ 8) with 256. split; [lia | discriminate].
  - rewrite (length_encval b rest H). apply rpost_OK. cbn [fst snd].
    split; [lia | intros _; lia].
Qed.

Lemma read_length_range (f : stream) :
  rpost (fun r => 0 <= fst r < 2 ^ 32) (read_length f).
Proof.
  unfold read_length.
  eapply rpost_bind; [apply read_length_with_encoding_range |].
  intros [[n enc] f'] [H _]. apply rpost_OK. exact H.
Qed.

(** X4.  A length prefix decodes to a number from 0 to 2^32 - 1, never a
    negative one, and an encoding selector (tag 11) is below 64. *)
Theorem length_prefix_range (f f' : stream) (length : Z) (is_encoded : bool) :
  read_length_with_encoding f = OK ((length, is_encoded), f') ->
  0 <= length < 2 ^ 32 /\ (is_encoded = true -> length < 64).
Proof.
  intros H. exact (read_length_with_encoding_range f _ H).
Qed.

Lemma length_prefix_range_witness :
  0 <= 258 < 2 ^ 32 /\ (false = true -> 258 < 64).
Proof.
  apply (length_prefix_range [x41; x02] [] 258 false). reflexivity.
Defined.

(** ** Element counts of the aggregates other than the zipmap *)

Lemma le_unsigned_nonneg (s : list byte) : 0 <= le_unsigned s.
Proof.
  induction s as [| b s IH]; cbn [le_unsigned]; [lia |].
  pose proof (u8_range b). lia.
Qed.

Lemma read_unsigned_le_nonneg (n : nat) (f : stream) :
  rpost (fun p => 0 <= fst p) (read_unsigned_le n f).
Proof.
  unfold read_unsigned_le. destruct (unpack n f) as [[s f'] |]; cbn [rbind];
    [| apply rpost_Err].
  apply rpost_OK. apply le_unsigned_nonneg.
Qed.

Section Counts.
Context {B : PyBuiltins}.

Lemma lift_OK_inv {A : Type} (r : res A) (evs : list event) (a : A) :
  lift r = (evs, OK a) -> evs = [] /\ r = OK a.
Proof. unfold lift. intros [= <- ->]. now split. Qed.

Lemma emit_OK_inv (e : event) (evs : list event) (u : unit) :
  emit e = (evs, OK u) -> evs = [e].
Proof. unfold emit. now intros [= <-]. Qed.

Lemma ret_OK_inv {A : Type} (a a' : A) (evs : list event) :
  ret a = (evs, OK a') -> evs = [] /\ a = a'.
Proof. unfold ret. intros [= <- ->]. now split. Qed.

(** Take a successful run apart, statement by statement. *)
Ltac inv_run H :=
  cbv beta iota zeta in H;
  lazymatch type of H with
  | bind _ _ = (_, OK _) =>
      let e1 := fresh "evs" in
      let a := fresh "a" in
      let e2 := fresh "evs" in
      let H1 := fresh "Hrun" in
      let H2 := fresh "Hrun" in
      apply bind_OK_inv in H; destruct H as (e1 & a & e2 & H1 & H2 & ->);
      inv_run H1; inv_run H2
  | lift (Err _) = (_, OK _) => discriminate H
  | lift _ = (_, OK _) =>
      apply lift_OK_inv in H; destruct H as [-> H]
  | emit _ = (_, OK _) => apply emit_OK_inv in H; subst
  | ret _ = (_, OK _) =>
      apply ret_OK_inv in H; destruct H as [-> H]; try subst
  | (if ?c then _ else _) = (_, OK _) =>
      let Hc := fresh "Hc" in destruct c eqn:Hc; inv_run H
  | (let (_, _) := ?p in _) = (_, OK _) =>
      let Hp := fresh "Hp" in destruct p eqn:Hp; inv_run H
  | _ => idtac
  end.

Lemma for_range_events (P : event -> Prop) (body : stream -> E stream)
    (n : nat) :
  (forall g evs g', body g = (evs, OK g') -> exists e, evs = [e] /\ P e) ->
  forall f evs f', for_range n body f = (evs, OK f') ->
  Forall P evs /\ List.length evs = n.
Proof.
  intros Hbody. induction n as [| n IH]; intros f evs f' H; cbn [for_range] in H.
  - apply ret_OK_inv in H. destruct H as [-> _]. split; [constructor | reflexivity].
  - apply bind_OK_inv in H. destruct H as (evs1 & g & evs2 & H1 & H2 & ->).
    destruct (Hbody f evs1 g H1) as (e & -> & He).
    destruct (IH g evs2 f' H2) as [Hall Hlen].
    cbn [app List.length]. split; [now constructor | now f_equal].
Qed.

Ltac loop_events :=
  cbn [app] in *;
  match goal with
  | Hl : for_range _ _ _ = (?evs, _)
    |- counted_aggregate _ (?st :: _) =>
      apply (for_range_events (element_of st)) in Hl;
      [ destruct Hl as [Hall Hcount]
      | let Hb := fresh "Hb" in
        intros ? ? ? Hb; inv_run Hb; cbn [app];
        eexists; split; reflexivity ]
  end.

Ltac close_count n :=
  match goal with
  | |- counted_aggregate _ (?st :: ?evs ++ [?en]) =>
      exists n, st, evs, en;
      split; [reflexivity |];
      split; [reflexivity |];
      split; [assumption |];
      split; [lia | reflexivity]
  end.

Ltac length_nonneg :=
  match goal with
  | Hr : read_length ?f = OK (?z, _) |- _ =>
      let Hx := fresh "Hx" in
      pose proof (read_length_range f _ Hr) as Hx; cbn [fst] in Hx
  end.

Ltac count_nonneg z :=
  match goal with
  | Hr : _ = OK (z, _) |- _ =>
      let Hx := fresh "Hx" in
      pose proof (read_unsigned_le_nonneg _ _ _ Hr) as Hx; cbn [fst] in Hx
  end.

Lemma read_object_counted (key : value) (expiry : option datetime)
    (f f' : stream) (enc_type : Z) (evs : list event) :
  enc_type <> REDIS_RDB_TYPE_STRING ->
  enc_type <> REDIS_RDB_TYPE_HASH_ZIPMAP ->
  read_object key expiry f enc_type = (evs, OK f') ->
  counted_aggregate key evs.
Proof.
  intros Hs Hz H. unfold read_object in H.
  destruct (Z.eqb_spec enc_type REDIS_RDB_TYPE_STRING); [contradiction |].
  destruct (enc_type =? REDIS_RDB_TYPE_LIST).
  { inv_run H. length_nonneg. loop_events.
    match goal with
    | |- counted_aggregate _ (start_list _ ?z _ _ :: _) => close_count z
    end. }
  destruct (enc_type =? REDIS_RDB_TYPE_SET).
  { inv_run H. length_nonneg. loop_events.
    match goal with
    | |- counted_aggregate _ (start_set _ ?z _ _ :: _) => close_count z
    end. }
  destruct (enc_type =? REDIS_RDB_TYPE_ZSET).
  { inv_run H. length_nonneg. loop_events.
    match goal with
    | |- counted_aggregate _ (start_sorted_set _ ?z _ _ :: _) => close_count z
    end. }
  destruct (enc_type =? REDIS_RDB_TYPE_HASH).
  { inv_run H. length_nonneg. loop_events.
    match goal with
    | |- counted_aggregate _ (start_hash _ ?z _ _ :: _) => close_count z
    end. }
  destruct (Z.eqb_spec enc_type REDIS_RDB_TYPE_HASH_ZIPMAP); [contradiction |].
  destruct (enc_type =? REDIS_RDB_TYPE_LIST_ZIPLIST).
  { unfold read_ziplist in H. inv_run H. loop_events.
    match goal with
    | |- counted_aggregate _ (start_list _ ?z _ _ :: _) =>
        count_nonneg z; close_count z
    end. }
  destruct (enc_type =? REDIS_RDB_TYPE_SET_INTSET).
  { unfold read_intset in H. inv_run H. loop_events.
    match goal with
    | |- counted_aggregate _ (start_set _ ?z _ _ :: _) =>
        count_nonneg z; close_count z
    end. }
  destruct (enc_type =? REDIS_RDB_TYPE_ZSET_ZIPLIST).
  { unfold read_zset_from_ziplist in H. inv_run H. loop_events.
    match goal with
    | |- counted_aggregate _ (start_sorted_set _ (?z / 2) _ _ :: _) =>
        count_nonneg z;
        assert (0 <= z / 2) by (apply Z.div_pos; lia);
        close_count (z / 2)
    end. }
  destruct (enc_type =? REDIS_RDB_TYPE_HASH_ZIPLIST).
  { unfold read_hash_from_ziplist in H. inv_run H. loop_events.
    match goal with
    | |- counted_aggregate _ (start_hash _ (?z / 2) _ _ :: _) =>
        count_nonneg z;
        assert (0 <= z / 2) by (apply Z.div_pos; lia);
        close_count (z / 2)
    end. }
  inv_run H.
Qed.

(** X5.  Every aggregate decoder except the zipmap one keeps the promise
    of the callback interface: when a list, set, sorted set or hash record
    (plain, ziplist or intset) is read to its end, the callbacks are its
    [start_X] with a length [n >= 0], then exactly [n] element callbacks of
    the matching kind for the same key, then its [end_X]. *)
Theorem aggregate_callbacks_counted (key : value) (expiry : option datetime)
    (f f' : stream) (enc_type : Z) (evs : list event) :
  enc_type <> REDIS_RDB_TYPE_STRING ->
  enc_type <> REDIS_RDB_TYPE_HASH_ZIPMAP ->
  read_object key expiry f enc_type = (evs, OK f') ->
  counted_aggregate key evs.
Proof. apply read_object_counted. Qed.

End Counts.

Lemma aggregate_callbacks_counted_witness :
  @counted_aggregate digit_builtins (VStr ["l"]%byte)
    [start_list (VStr ["l"]%byte) 2 None (plain "linkedlist");
     rpush (VStr ["l"]%byte) (VStr ["a"]%byte);
     rpush (VStr ["l"]%byte) (VStr ["b"]%byte);
     end_list (VStr ["l"]%byte)].
Proof.
  apply (@aggregate_callbacks_counted digit_builtins (VStr ["l"]%byte) None
           [x02; x01; "a"; x01; "b"; xff]%byte [xff] REDIS_RDB_TYPE_LIST).
  - discriminate.
  - discriminate.
  - reflexivity.
Defined.

(** ** Fixed-width reads *)

(** X6.  The two big-endian readers agree on every input: [ntohl], which
    swaps the bytes of a little-endian read (length prefixes), and
    [read_big_endian_unsigned_int] (ziplist string headers). *)
Theorem ntohl_is_big_endian_read (f : stream) :
  ntohl f = read_big_endian_unsigned_int f.
Proof.
  destruct f as [| b1 [| b2 [| b3 [| b4 f]]]];
    try (rewrite ntohl_short by (cbn [List.length]; lia); reflexivity).
  rewrite ntohl_big_endian. reflexivity.
Qed.

Lemma read_24bit_value (b0 b1 b2 : byte) (f : stream) :
  read_24bit_signed_number (b0 :: b1 :: b2 :: f)
  = OK (to_signed 24 (le_unsigned [b0; b1; b2]), f).
Proof.
  unfold read_24bit_signed_number.
  change (read 3 (b0 :: b1 :: b2 :: f)) with ([b0; b1; b2], f).
  unfold unpack. cbn [firstn skipn List.length Nat.eqb rbind]. do 2 f_equal.
  cbn [le_unsigned]. change (u8 "0") with 48.
  pose proof (u8_range b0). pose proof (u8_range b1). pose proof (u8_range b2).
  set (v := u8 b0 + 256 * (u8 b1 + 256 * (u8 b2 + 256 * 0))).
  assert (Hv : 0 <= v < 16777216) by (subst v; lia).
  unfold to_signed.
  change (2 ^ (32 - 1)) with 2147483648. change (2 ^ 32) with 4294967296.
  change (2 ^ (24 - 1)) with 8388608. change (2 ^ 24) with 16777216.
  rewrite Z.shiftr_div_pow2 by lia. change (2 ^ 8) with 256.
  destruct (Z.ltb_spec (48 + 256 * v) 2147483648);
    destruct (Z.ltb_spec v 8388608); try lia.
  - symmetry. apply Z.div_unique with 48; lia.
  - symmetry. apply Z.div_unique with 48; lia.
Qed.

(** X7.  The 24-bit ziplist integer: the three bytes read low byte first
    as a two's complement number from -2^23 to 2^23 - 1; the filler byte
    the code puts in front of them has no effect on the value.  With fewer
    than three bytes left the read fails with struct.error. *)
Theorem read_24bit_signed_number_value :
  (forall (b0 b1 b2 : byte) (f : stream),
     read_24bit_signed_number (b0 :: b1 :: b2 :: f)
     = OK (to_signed 24 (u8 b0 + 256 * u8 b1 + 65536 * u8 b2), f)
     /\ - 2 ^ 23 <= to_signed 24 (u8 b0 + 256 * u8 b1 + 65536 * u8 b2) < 2 ^ 23) /\
  (forall f : stream,
     (List.length f < 3)%nat -> read_24bit_signed_number f = Err StructError).
Proof.
  split.
  - intros b0 b1 b2 f. rewrite read_24bit_value. cbn [le_unsigned].
    replace (u8 b0 + 256 * (u8 b1 + 256 * (u8 b2 + 256 * 0)))
      with (u8 b0 + 256 * u8 b1 + 65536 * u8 b2) by lia.
    split; [reflexivity |].
    pose proof (u8_range b0). pose proof (u8_range b1). pose proof (u8_range b2).
    unfold to_signed. change (2 ^ (24 - 1)) with 8388608.
    change (2 ^ 24) with 16777216. change (2 ^ 23) with 8388608.
    destruct (Z.ltb_spec (u8 b0 + 256 * u8 b1 + 65536 * u8 b2) 8388608); lia.
  - intros f Hf. destruct f as [| b0 [| b1 [| b2 f]]]; try reflexivity.
    cbn [List.length] in Hf. lia.
Qed.

Lemma read_24bit_signed_number_value_witness :
  read_24bit_signed_number [xfe; xff; xff; x2a] = OK (-2, [x2a]) /\
  read_24bit_signed_number [xfe; xff] = Err StructError.
Proof.
  split.
  - apply (proj1 read_24bit_signed_number_value xfe xff xff [x2a]).
  - apply (proj2 read_24bit_signed_number_value [xfe; xff]). cbn. lia.
Defined.

(** ** Strings at the end of the input *)

Lemma read_string_raw (f f1 : stream) (n : Z) :
  read_length_with_encoding f = OK ((n, false), f1) ->
  read_string f = OK (VStr (firstn (Z.to_nat n) f1), skipn (Z.to_nat n) f1).
Proof.
  intros H. unfold read_string. rewrite H. reflexivity.
Qed.

(** X8.  A raw string is not checked against the input that is left: when
    its length prefix announces more bytes than remain, [read_string]
    returns the bytes that are there as the value, reports no error, and
    leaves the stream at its end. *)
Theorem read_string_short_read (f f1 : stream) (n : Z) :
  read_length_with_encoding f = OK ((n, false), f1) ->
  (List.length f1 <= Z.to_nat n)%nat ->
  read_string f = OK (VStr f1, []).
Proof.
  intros H Hshort. rewrite (read_string_raw f f1 n H).
  now rewrite firstn_all2, skipn_all2 by assumption.
Qed.

Lemma read_string_short_read_witness :
  read_string [x05; "a"; "b"]%byte = OK (VStr ["a"; "b"]%byte, []).
Proof.
  apply (read_string_short_read [x05; "a"; "b"]%byte ["a"; "b"]%byte 5).
  - reflexivity.
  - cbn. lia.
Defined.

(** ** The file header *)

Section Header.
Context {B : PyBuiltins}.

Lemma parse_after_header (flt : filters) (file : list byte) (version : Z) :
  firstn 5 file = bytes_of_string "REDIS" ->
  py_int (firstn 4 (skipn 5 file)) = Some version ->
  1 <= version <= 6 ->
  parse flt file
  = (emit start_rdb ;;;
     parse_loop (S (List.length (skipn 4 (skipn 5 file)))) flt true 0
       (skipn 4 (skipn 5 file))).
Proof.
  intros Hmagic Hint Hv. unfold parse, read.
  change (Z.to_nat 5) with 5%nat. change (Z.to_nat 4) with 4%nat.
  rewrite Hmagic. unfold verify_magic_string, bytes_eqb.
  destruct (list_eq_dec byte_eq_dec _ _) as [_ | Hne]; [| contradiction].
  cbn [negb]. rewrite bind_lift_OK.
  unfold verify_version. rewrite Hint.
  destruct (Z.ltb_spec version 1); [lia |].
  destruct (Z.gtb_spec version 6); [lia |].
  cbn [orb]. now rewrite bind_lift_OK.
Qed.

(** X9.  The header decides whether any callback is made.  A file that
    does not begin with the five bytes REDIS (a shorter file included)
    fails with the magic-string exception; after the magic, a version
    field that [int] rejects fails with ValueError and a version outside
    1..6 with the version exception; in these cases no callback is made.
    With a version from 1 to 6 the first callback is [start_rdb]. *)
Theorem parse_header_gate (flt : filters) (file : list byte) :
  (firstn 5 file <> bytes_of_string "REDIS" ->
     parse flt file = ([], Err BadMagic)) /\
  (firstn 5 file = bytes_of_string "REDIS" ->
     py_int (firstn 4 (skipn 5 file)) = None ->
     parse flt file = ([], Err ValueError)) /\
  (forall version : Z,
     firstn 5 file = bytes_of_string "REDIS" ->
     py_int (firstn 4 (skipn 5 file)) = Some version ->
     version < 1 \/ 6 < version ->
     parse flt file = ([], Err BadVersion)) /\
  (forall version : Z,
     firstn 5 file = bytes_of_string "REDIS" ->
     py_int (firstn 4 (skipn 5 file)) = Some version ->
     1 <= version <= 6 ->
     exists evs r, parse flt file = (start_rdb :: evs, r)).
Proof.
  split; [| split; [| split]].
  - intros Hmagic. unfold parse, read. change (Z.to_nat 5) with 5%nat.
    unfold verify_magic_string, bytes_eqb.
    destruct (list_eq_dec byte_eq_dec _ _) as [Heq | _]; [contradiction |].
    reflexivity.
  - intros Hmagic Hint. unfold parse, read.
    change (Z.to_nat 5) with 5%nat. change (Z.to_nat 4) with 4%nat.
    rewrite Hmagic. unfold verify_magic_string, bytes_eqb.
    destruct (list_eq_dec byte_eq_dec _ _) as [_ | Hne]; [| contradiction].
    cbn [negb]. rewrite bind_lift_OK.
    unfold verify_version. rewrite Hint. reflexivity.
  - intros version Hmagic Hint Hv. unfold parse, read.
    change (Z.to_nat 5) with 5%nat. change (Z.to_nat 4) with 4%nat.
    rewrite Hmagic. unfold verify_magic_string, bytes_eqb.
    destruct (list_eq_dec byte_eq_dec _ _) as [_ | Hne]; [| contradiction].
    cbn [negb]. rewrite bind_lift_OK.
    unfold verify_version. rewrite Hint.
    destruct (Z.ltb_spec version 1); [reflexivity |].
    destruct (Z.gtb_spec version 6); [reflexivity | lia].
  - intros version Hmagic Hint Hv.
    rewrite (parse_after_header flt file version Hmagic Hint Hv).
    destruct (parse_loop _ flt true 0 _) as [evs r]. now exists evs, r.
Qed.

End Header.

Lemma parse_header_gate_witness :
  @parse digit_builtins all_pass (bytes_of_string "REDI") = ([], Err BadMagic) /\
  @parse digit_builtins all_pass (bytes_of_string "REDIS00x6")
  = ([], Err ValueError) /\
  @parse digit_builtins all_pass (bytes_of_string "REDIS0007")
  = ([], Err BadVersion) /\
  (exists evs r,
     @parse digit_builtins all_pass (bytes_of_string "REDIS0006")
     = (start_rdb :: evs, r)).
Proof.
  split; [| split; [| split]].
  - apply (@parse_header_gate digit_builtins all_pass (bytes_of_string "REDI")).
    discriminate.
  - apply (@parse_header_gate digit_builtins all_pass
             (bytes_of_string "REDIS00x6")); reflexivity.
  - apply (proj1 (proj2 (proj2 (@parse_header_gate digit_builtins all_pass
             (bytes_of_string "REDIS0007")))) 7); [reflexivity | reflexivity | lia].
  - apply (proj2 (proj2 (proj2 (@parse_header_gate digit_builtins all_pass
             (bytes_of_string "REDIS0006")))) 6); [reflexivity | reflexivity | lia].
Defined.

(** ** Unknown type tags *)

Lemma get_logical_type_unknown (data_type : Z) :
  known_tag data_type = false -> get_logical_type data_type = Err KeyError.
Proof.
  unfold known_tag, get_logical_type. cbn [existsb]. intros H.
  repeat match goal with
    | |- context [data_type =? ?k] =>
        destruct (Z.eqb_spec data_type k);
        [subst; cbn in H; discriminate |]
    end.
  reflexivity.
Qed.

Lemma get_logical_type_known (data_type : Z) :
  known_tag data_type = true ->
  exists logical_type,
    get_logical_type data_type = OK logical_type
    /\ In logical_type ["set"; "hash"; "sortedset"; "string"; "list"]%string.
Proof.
  unfold known_tag, get_logical_type. cbn [existsb]. intros H.
  repeat match goal with
    | |- context [data_type =? ?k] =>
        destruct (Z.eqb_spec data_type k);
        [eexists; split; [reflexivity | cbn; tauto] |]
    end.
  repeat match type of H with
    | context [data_type =? ?k] =>
        destruct (Z.eqb_spec data_type k); [contradiction |]
    end.
  discriminate.
Qed.

Lemma skip_object_unknown (f : stream) (data_type : Z) :
  known_tag data_type = false -> skip_object f data_type = Err UnknownType.
Proof.
  unfold known_tag, skip_object,
    REDIS_RDB_TYPE_STRING, REDIS_RDB_TYPE_LIST, REDIS_RDB_TYPE_SET,
    REDIS_RDB_TYPE_ZSET, REDIS_RDB_TYPE_HASH, REDIS_RDB_TYPE_HASH_ZIPMAP,
    REDIS_RDB_TYPE_LIST_ZIPLIST, REDIS_RDB_TYPE_SET_INTSET,
    REDIS_RDB_TYPE_ZSET_ZIPLIST, REDIS_RDB_TYPE_HASH_ZIPLIST.
  cbn [existsb]. intros H.
  repeat match goal with
    | |- context [data_type =? ?k] =>
        destruct (Z.eqb_spec data_type k);
        [subst; cbn in H; discriminate |]
    end.
  reflexivity.
Qed.

Section UnknownTags.
Context {B : PyBuiltins}.

(** X10.  A record with a type tag outside 0..4 and 9..13 never reaches a
    callback, and which exception ends the parse depends on the filter:
    when its database and key pass, the filter's look-up of the logical
    type fails first, with KeyError; when the key does not pass or the
    database is filtered out, the skip path raises its invalid-type
    exception.  The invalid-type exception of [read_object] is never
    reached from the driver. *)
Theorem unknown_type_errors (flt : filters) (db_number : Z)
    (expiry : option datetime) (data_type : Z) (key : value) (f f' : stream) :
  known_tag data_type = false ->
  read_string f = OK (key, f') ->
  (db_allowed flt db_number -> key_passes flt key ->
     parse_record flt db_number expiry data_type f = ([], Err KeyError)) /\
  (db_allowed flt db_number -> ~ key_passes flt key ->
     parse_record flt db_number expiry data_type f = ([], Err UnknownType)) /\
  (~ db_allowed flt db_number ->
     parse_record flt db_number expiry data_type f = ([], Err UnknownType)).
Proof.
  intros Htag Hkey.
  pose proof (get_logical_type_unknown data_type Htag) as Hlt.
  unfold parse_record, matches_filter.
  rewrite <- db_rejected_false, <- key_clause_true.
  destruct (db_rejected flt db_number).
  - split; [intros [=] | split; [intros [=] |]]. intros _.
    rewrite bind_lift_OK. unfold skip_key_and_object.
    rewrite (read_string_skip_string f (key, f') Hkey). cbn [rbind snd].
    now rewrite skip_object_unknown.
  - cbn [truthy andb]. rewrite bind_lift_OK, Hkey, bind_lift_OK.
    destruct (truthy key && negb (keys flt (py_str key))); cbn [negb].
    + split; [intros _ [=] | split; [| intros H; now contradiction H]].
      intros _ _. rewrite bind_lift_OK. now rewrite skip_object_unknown.
    + split; [| split; [intros _ H; now contradiction H
                       | intros H; now contradiction H]].
      intros _ _. rewrite Hlt. reflexivity.
Qed.

End UnknownTags.

Lemma unknown_type_errors_witness :
  @parse_record digit_builtins all_pass 0 None 5 [x01; "k"; x00]%byte
  = ([], Err KeyError) /\
  @parse_record digit_builtins reject_keys 0 None 5 [x01; "k"; x00]%byte
  = ([], Err UnknownType).
Proof.
  pose proof (@unknown_type_errors digit_builtins all_pass 0 None 5
                (VStr ["k"]%byte) [x01; "k"; x00]%byte [x00] eq_refl eq_refl)
    as H1.
  pose proof (@unknown_type_errors digit_builtins reject_keys 0 None 5
                (VStr ["k"]%byte) [x01; "k"; x00]%byte [x00] eq_refl eq_refl)
    as H2.
  split.
  - apply (proj1 H1); [intros l [=] | right; reflexivity].
  - apply (proj1 (proj2 H2)); [intros l [=] |].
    intros [Hk | Hk]; discriminate Hk.
Defined.

(** ** Filter configurations *)

Lemma init_filter_types (given : filter_args) (flt : filters) :
  init_filter (Some given) = OK flt ->
  types flt = match arg_types given with
              | None => ["set"; "hash"; "sortedset"; "string"; "list"]%string
              | Some (TypesStr s) => [s]
              | Some (TypesList l) => l
              | Some TypesOther => []
              end
  /\ dbs flt = match arg_dbs given with
               | None => None
               | Some (DbsInt n) => Some [n]
               | Some (DbsList l) => Some l
               | Some DbsOther => None
               end.
Proof.
  unfold init_filter.
  destruct (arg_dbs given) as [[n | l |] |]; cbn [rbind]; try discriminate;
    destruct (arg_types given) as [[s | l' |] |]; cbn [rbind]; try discriminate;
    intros [= <-]; split; reflexivity.
Qed.

(** X11.  How the filter treats what is left out and what is empty.
    Without any filter every record with a known type tag passes.  An
    empty [dbs] list filters no database.  An empty [types] list is not
    "no filtering": it lets no record through. *)
Theorem filter_defaults_and_empties :
  (forall flt db_number key data_type,
     init_filter None = OK flt ->
     known_tag data_type = true ->
     matches_filter flt db_number key (Some data_type) = OK true) /\
  (forall k t flt db_number,
     init_filter (Some {| arg_dbs := Some (DbsList []); arg_keys := k;
                          arg_types := t |}) = OK flt ->
     db_rejected flt db_number = false) /\
  (forall d k flt db_number key data_type,
     init_filter (Some {| arg_dbs := d; arg_keys := k;
                          arg_types := Some (TypesList []) |}) = OK flt ->
     known_tag data_type = true ->
     matches_filter flt db_number key (Some data_type) = OK false).
Proof.
  split; [| split].
  - intros flt db_number key data_type Hinit Htag.
    injection Hinit as <-.
    destruct (get_logical_type_known data_type Htag) as (lt & Hlt & Hin).
    unfold matches_filter, db_rejected. cbn [dbs keys types no_filters arg_dbs arg_keys arg_types].
    rewrite andb_false_r. rewrite Hlt. cbn [rbind].
    apply mem_string_In in Hin. now rewrite Hin.
  - intros k t flt db_number Hinit.
    apply init_filter_types in Hinit. destruct Hinit as [_ Hdbs].
    cbn [arg_dbs] in Hdbs. unfold db_rejected. now rewrite Hdbs.
  - intros d k flt db_number key data_type Hinit Htag.
    apply init_filter_types in Hinit. destruct Hinit as [Htypes _].
    cbn [arg_types] in Htypes.
    destruct (get_logical_type_known data_type Htag) as (lt & Hlt & _).
    unfold matches_filter. rewrite Htypes, Hlt. cbn [rbind mem_string existsb negb].
    destruct (db_rejected flt db_number); [reflexivity |].
    destruct (truthy key && negb (keys flt (py_str key))); reflexivity.
Qed.

Lemma filter_defaults_and_empties_witness :
  matches_filter all_pass 7 (VStr ["k"]%byte) (Some 12) = OK true.
Proof.
  apply (proj1 filter_defaults_and_empties all_pass 7 (VStr ["k"]%byte) 12);
    reflexivity.
Defined.

(** ** Packed encodings: what is checked, and when *)

Lemma read_unsigned_le_app (s : list byte) (f : stream) :
  read_unsigned_le (List.length s) (s ++ f) = OK (le_unsigned s, f).
Proof.
  unfold read_unsigned_le. now rewrite unpack_app.
Qed.

Lemma read_unsigned_int_app (s : list byte) (f : stream) :
  List.length s = 4%nat -> read_unsigned_int (s ++ f) = OK (le_unsigned s, f).
Proof.
  intros H. unfold read_unsigned_int. rewrite <- H. apply read_unsigned_le_app.
Qed.

Lemma read_unsigned_short_app (s : list byte) (f : stream) :
  List.length s = 2%nat -> read_unsigned_short (s ++ f) = OK (le_unsigned s, f).
Proof.
  intros H. unfold read_unsigned_short. rewrite <- H. apply read_unsigned_le_app.
Qed.

Lemma read_zipmap_next_length_small (k : byte) (f : stream) :
  u8 k < 254 -> read_zipmap_next_length (k :: f) = OK (Some (u8 k), f).
Proof.
  intros H. unfold read_zipmap_next_length.
  rewrite read_unsigned_char_cons. cbn [rbind].
  destruct (Z.ltb_spec (u8 k) 254); [reflexivity | lia].
Qed.

Section Packed.
Context {B : PyBuiltins}.

Lemma bind_emit (e : event) {C : Type} (m : E C) :
  (emit e ;;; m) = (e :: fst m, snd m).
Proof. unfold bind, emit. now destruct m. Qed.

(** X12.  The element width of an intset is looked at only when an
    element is read.  An intset that holds no element is accepted with
    any width field; one that holds elements under a width other than 2,
    4 or 8 fails with the intset exception after [start_set] was called,
    so the consumer sees a set that is never ended. *)
Theorem intset_width_checked_per_element (key : value)
    (expiry : option datetime) (f f' : stream) (width count tail : list byte) :
  read_string f = OK (VStr (width ++ count ++ tail), f') ->
  List.length width = 4%nat ->
  List.length count = 4%nat ->
  let size := Z.of_nat (List.length (width ++ count ++ tail)) in
  (le_unsigned count = 0 ->
     read_intset key expiry f
     = ([start_set key 0 expiry (packed "intset" size); end_set key], OK f')) /\
  (0 < le_unsigned count ->
     le_unsigned width <> 8 -> le_unsigned width <> 4 ->
     le_unsigned width <> 2 ->
     read_intset key expiry f
     = ([start_set key (le_unsigned count) expiry (packed "intset" size)],
        Err BadIntsetEncoding)).
Proof.
  intros Hblob Hw Hc size. unfold read_intset.
  rewrite Hblob, bind_lift_OK. cbn [py_str py_len].
  rewrite (read_unsigned_int_app width _ Hw), bind_lift_OK.
  rewrite (read_unsigned_int_app count _ Hc), !bind_lift_OK.
  fold size. split.
  - intros ->. reflexivity.
  - intros Hpos H8 H4 H2.
    destruct (Z.to_nat (le_unsigned count)) as [| m] eqn:Hn; [lia |].
    cbn [for_range].
    destruct (Z.eqb_spec (le_unsigned width) 8); [contradiction |].
    destruct (Z.eqb_spec (le_unsigned width) 4); [contradiction |].
    destruct (Z.eqb_spec (le_unsigned width) 2); [contradiction |].
    reflexivity.
Qed.

(** X13.  What follows the entries of a ziplist list.  Once the announced
    entries are read: the byte 255 ends the list and whatever the blob
    holds after it is ignored; any other byte fails with the zip-list-end
    exception; and a blob that stops right there fails with struct.error
    instead.  In both failures [start_list] and every [rpush] have been
    delivered and [end_list] has not. *)
Theorem ziplist_end_marker (key : value) (expiry : option datetime)
    (f f' : stream) (zlbytes zltail zllen entries tail : list byte)
    (evs : list event) :
  read_string f = OK (VStr (zlbytes ++ zltail ++ zllen ++ entries), f') ->
  List.length zlbytes = 4%nat ->
  List.length zltail = 4%nat ->
  List.length zllen = 2%nat ->
  for_range (Z.to_nat (le_unsigned zllen))
    (fun buff =>
       '(val, buff) <-- lift (read_ziplist_entry buff) ;;
       emit (rpush key val) ;;;
       ret buff) entries
  = (evs, OK tail) ->
  let start :=
    start_list key (le_unsigned zllen) expiry
      (packed "ziplist"
         (Z.of_nat (List.length (zlbytes ++ zltail ++ zllen ++ entries)))) in
  read_ziplist key expiry f
  = match tail with
    | [] => (start :: evs, Err StructError)
    | z :: _ =>
        if u8 z =? 255 then (start :: evs ++ [end_list key], OK f')
        else (start :: evs, Err BadZiplistEnd)
    end.
Proof.
  intros Hblob H1 H2 H3 Hloop start. unfold read_ziplist.
  rewrite Hblob, bind_lift_OK. cbn [py_str py_len].
  rewrite (read_unsigned_int_app zlbytes _ H1), bind_lift_OK.
  rewrite (read_unsigned_int_app zltail _ H2), bind_lift_OK.
  rewrite (read_unsigned_short_app zllen _ H3), !bind_lift_OK.
  fold start. rewrite Hloop. unfold check_zlist_end.
  cbn [bind emit lift ret].
  destruct tail as [| z tail'].
  - rewrite read_unsigned_char_nil.
    cbn [rbind app]. now rewrite app_nil_r.
  - rewrite read_unsigned_char_cons. cbn [rbind].
    destruct (u8 z =? 255); cbn [negb app]; now rewrite ?app_nil_r.
Qed.

(** X14.  A ziplist hash or sorted set with an odd number of entries is
    refused before any callback is made. *)
Theorem odd_ziplist_refused (key : value) (expiry : option datetime)
    (f f' : stream) (zlbytes zltail zllen entries : list byte) :
  read_string f = OK (VStr (zlbytes ++ zltail ++ zllen ++ entries), f') ->
  List.length zlbytes = 4%nat ->
  List.length zltail = 4%nat ->
  List.length zllen = 2%nat ->
  le_unsigned zllen mod 2 <> 0 ->
  read_hash_from_ziplist key expiry f = ([], Err OddZiplistLength) /\
  read_zset_from_ziplist key expiry f = ([], Err OddZiplistLength).
Proof.
  intros Hblob H1 H2 H3 Hodd.
  unfold read_hash_from_ziplist, read_zset_from_ziplist.
  rewrite Hblob, !bind_lift_OK. cbn [py_str].
  rewrite (read_unsigned_int_app zlbytes _ H1), !bind_lift_OK.
  rewrite (read_unsigned_int_app zltail _ H2), !bind_lift_OK.
  rewrite (read_unsigned_short_app zllen _ H3), !bind_lift_OK.
  destruct (Z.eqb_spec (le_unsigned zllen mod 2) 0); [contradiction |].
  split; reflexivity.
Qed.

(** X15.  The two places of the zipmap end marker.  The byte 255 where a
    field length is expected ends the hash at once, whatever entry count
    the blob declares and whatever follows in the blob; the byte 255
    where a value length is expected is the zip-map exception, raised
    after [start_hash]. *)
Theorem zipmap_end_marker (key : value) (expiry : option datetime)
    (f f' : stream) (declared : byte) :
  (forall junk : list byte,
     read_string f = OK (VStr (declared :: xff :: junk), f') ->
     read_zipmap key expiry f
     = ([start_hash key (u8 declared) expiry
           (packed "zipmap" (Z.of_nat (List.length (declared :: xff :: junk))));
         end_hash key], OK f')) /\
  (forall (k : byte) (field junk : list byte),
     read_string f = OK (VStr (declared :: k :: field ++ xff :: junk), f') ->
     u8 k < 254 ->
     Z.of_nat (List.length field) = u8 k ->
     read_zipmap key expiry f
     = ([start_hash key (u8 declared) expiry
           (packed "zipmap"
              (Z.of_nat (List.length (declared :: k :: field ++ xff :: junk))))],
        Err TruncatedZipmap)).
Proof.
  split.
  - intros junk Hblob. unfold read_zipmap.
    rewrite Hblob, bind_lift_OK. cbn [py_bytearray py_len].
    rewrite bind_lift_OK, read_unsigned_char_cons, !bind_lift_OK.
    reflexivity.
  - intros k field junk Hblob Hk Hfield. unfold read_zipmap.
    rewrite Hblob, bind_lift_OK. cbn [py_bytearray py_len].
    rewrite bind_lift_OK, read_unsigned_char_cons, !bind_lift_OK.
    cbn [zipmap_loop].
    rewrite (read_zipmap_next_length_small k _ Hk), bind_lift_OK.
    unfold read. rewrite <- Hfield, Nat2Z.id.
    rewrite firstn_app, Nat.sub_diag, firstn_all, firstn_O, app_nil_r.
    rewrite skipn_app, Nat.sub_diag, skipn_all, skipn_O. cbn [app].
    reflexivity.
Qed.

End Packed.

Lemma intset_width_checked_per_element_witness :
  @read_intset digit_builtins (VStr ["s"]%byte) None
    [x08; x03; x00; x00; x00; x00; x00; x00; x00]
  = ([start_set (VStr ["s"]%byte) 0 None (packed "intset" 8);
      end_set (VStr ["s"]%byte)], OK []).
Proof.
  apply (proj1 (@intset_width_checked_per_element digit_builtins
                  (VStr ["s"]%byte) None
                  [x08; x03; x00; x00; x00; x00; x00; x00; x00] []
                  [x03; x00; x00; x00] [x00; x00; x00; x00] []
                  eq_refl eq_refl eq_refl)).
  reflexivity.
Defined.

Lemma ziplist_end_marker_witness :
  @read_ziplist digit_builtins (VStr ["l"]%byte) None
    [x0b; x0b; x00; x00; x00; x0a; x00; x00; x00; x00; x00; x00]
  = ([start_list (VStr ["l"]%byte) 0 None (packed "ziplist" 11)],
     Err BadZiplistEnd).
Proof.
  apply (@ziplist_end_marker digit_builtins (VStr ["l"]%byte) None
           [x0b; x0b; x00; x00; x00; x0a; x00; x00; x00; x00; x00; x00] []
           [x0b; x00; x00; x00] [x0a; x00; x00; x00] [x00; x00] [x00] [x00] []
           eq_refl eq_refl eq_refl eq_refl eq_refl).
Defined.

Lemma odd_ziplist_refused_witness :
  @read_hash_from_ziplist digit_builtins (VStr ["h"]%byte) None
    [x0b; x0b; x00; x00; x00; x0a; x00; x00; x00; x01; x00; xff]
  = ([], Err OddZiplistLength).
Proof.
  apply (@odd_ziplist_refused digit_builtins (VStr ["h"]%byte) None
           [x0b; x0b; x00; x00; x00; x0a; x00; x00; x00; x01; x00; xff] []
           [x0b; x00; x00; x00] [x0a; x00; x00; x00] [x01; x00] [xff]
           eq_refl eq_refl eq_refl eq_refl).
  cbv. discriminate.
Defined.

Lemma zipmap_end_marker_witness :
  @read_zipmap digit_builtins (VStr ["h"]%byte) None [x03; x05; xff; x2a]
  = ([start_hash (VStr ["h"]%byte) 5 None (packed "zipmap" 3);
      end_hash (VStr ["h"]%byte)], OK []) /\
  @read_zipmap digit_builtins (VStr ["h"]%byte) None [x04; x01; x01; "a"; xff]%byte
  = ([start_hash (VStr ["h"]%byte) 1 None (packed "zipmap" 4)],
     Err TruncatedZipmap).
Proof.
  split.
  - apply (proj1 (@zipmap_end_marker digit_builtins (VStr ["h"]%byte) None
                    [x03; x05; xff; x2a] [] x05) [x2a] eq_refl).
  - apply (proj2 (@zipmap_end_marker digit_builtins (VStr ["h"]%byte) None
                    [x04; x01; x01; "a"; xff]%byte [] x01)
             x01 ["a"]%byte [] eq_refl); [cbv; reflexivity | reflexivity].
Defined.

(** ** Database callbacks are nested *)

Section NestingProofs.
Context {B : PyBuiltins}.

Lemma quiet_bind {A C : Type} (m : E A) (k : A -> E C) :
  quiet m -> (forall a, quiet (k a)) -> quiet (bind m k).
Proof.
  unfold quiet. destruct m as [evs [a | e]]; cbn [bind fst]; intros Hm Hk.
  - specialize (Hk a). destruct (k a) as [evs' r]. cbn [fst] in *.
    apply Forall_app. now split.
  - exact Hm.
Qed.

Lemma quiet_lift {A : Type} (r : res A) : quiet (lift r).
Proof. constructor. Qed.

Lemma quiet_ret {A : Type} (a : A) : quiet (ret a).
Proof. constructor. Qed.

Lemma quiet_emit (e : event) : record_event e = true -> quiet (emit e).
Proof. intros H. constructor; [exact H | constructor]. Qed.

Lemma quiet_for_range (body : stream -> E stream) (n : nat) :
  (forall g, quiet (body g)) -> forall f, quiet (for_range n body f).
Proof.
  intros Hbody. induction n as [| n IH]; intros f; cbn [for_range].
  - apply quiet_ret.
  - apply quiet_bind; [apply Hbody | apply IH].
Qed.

Ltac quiet_step :=
  match goal with
  | |- quiet (bind _ _) => apply quiet_bind; [| intros ?]
  | |- quiet (for_range _ _ _) => apply quiet_for_range; intros ?
  | |- quiet (lift _) => apply quiet_lift
  | |- quiet (ret _) => apply quiet_ret
  | |- quiet (emit _) => apply quiet_emit; reflexivity
  | |- quiet (let '(_, _) := ?p in _) => destruct p
  | |- quiet (if ?c then _ else _) => destruct c
  | |- quiet (match ?o with Some _ => _ | None => _ end) => destruct o
  end.

Lemma zipmap_loop_quiet (key : value) (fuel : nat) :
  forall buff, quiet (zipmap_loop fuel key buff).
Proof.
  induction fuel as [| fuel IH]; intros buff; cbn [zipmap_loop].
  - apply quiet_lift.
  - repeat quiet_step. apply IH.
Qed.

Lemma read_object_quiet (key : value) (expiry : option datetime) (f : stream)
    (enc_type : Z) :
  quiet (read_object key expiry f enc_type).
Proof.
  unfold read_object, read_zipmap, read_ziplist, read_intset,
    read_zset_from_ziplist, read_hash_from_ziplist.
  repeat first [quiet_step | apply zipmap_loop_quiet].
Qed.

Lemma parse_record_quiet (flt : filters) (db_number : Z)
    (expiry : option datetime) (data_type : Z) (f : stream) :
  quiet (parse_record flt db_number expiry data_type f).
Proof.
  unfold parse_record. repeat first [quiet_step | apply read_object_quiet].
Qed.

Lemma db_run_app (s : db_state) (evs1 evs2 : list event) :
  db_run s (evs1 ++ evs2)
  = match db_run s evs1 with
    | Some s' => db_run s' evs2
    | None => None
    end.
Proof.
  revert s. induction evs1 as [| e evs1 IH]; intros s; cbn [app db_run].
  - reflexivity.
  - destruct (db_step s e); [apply IH | reflexivity].
Qed.

Lemma db_run_records (s : db_state) (evs : list event) :
  Forall (fun e => record_event e = true) evs ->
  s <> Closed ->
  db_run s evs = Some s.
Proof.
  intros Hall Hs. induction Hall as [| e evs He _ IH]; cbn [db_run].
  - reflexivity.
  - destruct e; try discriminate He; destruct s; try contradiction; exact IH.
Qed.

Lemma nested_bind {A : Type} (s s1 : db_state) (m : E A) (k : A -> E stream) :
  db_run s (fst m) = Some s1 ->
  (forall a, nested s1 (k a)) ->
  nested s (bind m k).
Proof.
  destruct m as [evs1 [a | e]]; cbn [bind fst]; intros Hm Hk.
  - specialize (Hk a). destruct (k a) as [evs2 [f' | e]]; cbn [nested] in *.
    + destruct Hk as (body & d & -> & Hd).
      exists (evs1 ++ body), d. split; [now rewrite app_assoc |].
      rewrite db_run_app, Hm. exact Hd.
    + destruct Hk as [s' Hs']. exists s'. now rewrite db_run_app, Hm.
  - now exists s1.
Qed.

Lemma parse_loop_nested (flt : filters) (fuel : nat) :
  forall (first : bool) (db_number : Z) (f : stream),
    (first = true -> db_number = 0) ->
    nested (loop_state first db_number) (parse_loop fuel flt first db_number f).
Proof.
  induction fuel as [| fuel IH]; intros first db_number f H0; cbn [parse_loop].
  - now exists (loop_state first db_number).
  - apply nested_bind with (s1 := loop_state first db_number); [reflexivity |].
    intros [data_type f1].
    apply nested_bind with (s1 := loop_state first db_number); [reflexivity |].
    intros [[expiry dt] f2].
    destruct (dt =? REDIS_RDB_OPCODE_SELECTDB).
    + apply nested_bind with (s1 := if first then Before else Closed).
      { destruct first; cbn [negb loop_state emit ret fst db_run db_step];
          [reflexivity | now rewrite Z.eqb_refl]. }
      intros _.
      apply nested_bind with (s1 := if first then Before else Closed);
        [reflexivity |].
      intros [n f3].
      apply nested_bind with (s1 := Open n); [now destruct first |].
      intros _. apply (IH false n f3). discriminate.
    + destruct (dt =? REDIS_RDB_OPCODE_EOF).
      * cbn [bind emit ret app nested]. exists [], db_number.
        split; [reflexivity |].
        destruct first; [right; split; [reflexivity | now apply H0] | now left].
      * apply nested_bind with (s1 := loop_state first db_number).
        { apply db_run_records; [apply parse_record_quiet |].
          destruct first; discriminate. }
        intros f3. now apply IH.
Qed.

(** X16.  The callbacks that frame a dump.  A parse that returns has
    called [start_rdb] first and [end_database], [end_rdb] last; in
    between, a database is started only when none is open, it is ended
    under the number it was started with, and once a database was started
    every record callback falls inside an open database.  The closing
    [end_database d] ends the database that is open, with one exception:
    on a dump without any SELECTDB opcode it is [end_database 0] for a
    database that was never started.  A parse that raises has either made
    no callback at all or stopped inside such a sequence.  The exception
    is real: a dump that holds nothing but the EOF opcode gives
    [start_rdb], [end_database 0], [end_rdb]. *)
Theorem database_callbacks_nested (flt : filters) (file : list byte) :
  match parse flt file with
  | (evs, OK _) =>
      exists body d,
        evs = start_rdb :: body ++ [end_database d; end_rdb] /\
        (db_run Before body = Some (Open d) \/
         (db_run Before body = Some Before /\ d = 0))
  | (evs, Err _) =>
      evs = [] \/
      exists body s, evs = start_rdb :: body /\ db_run Before body = Some s
  end /\
  (forall version rest,
     firstn 5 file = bytes_of_string "REDIS" ->
     py_int (firstn 4 (skipn 5 file)) = Some version ->
     1 <= version <= 6 ->
     skipn 4 (skipn 5 file) = xff :: rest ->
     parse flt file = ([start_rdb; end_database 0; end_rdb], OK rest)).
Proof.
  split.
  - unfold parse. destruct (read 5 file) as [magic f1].
    destruct (verify_magic_string magic);
      [rewrite bind_lift_OK | rewrite bind_lift_Err; now left].
    destruct (read 4 f1) as [version f2].
    destruct (verify_version version);
      [rewrite bind_lift_OK | rewrite bind_lift_Err; now left].
    pose proof (parse_loop_nested flt (S (List.length f2)) true 0 f2
                  (fun _ => eq_refl)) as H.
    destruct (parse_loop _ flt true 0 f2) as [evs [rest | e]];
      cbn [nested loop_state bind emit app] in *.
    + destruct H as (body & d & -> & Hd). now exists body, d.
    + destruct H as [s Hs]. right. now exists evs, s.
  - intros version rest Hmagic Hint Hv Hrest.
    rewrite (parse_after_header flt file version Hmagic Hint Hv), Hrest.
    now rewrite parse_loop_eof.
Qed.

End NestingProofs.

Lemma database_callbacks_nested_witness :
  @parse digit_builtins all_pass (bytes_of_string "REDIS0006" ++ [xff; x2a])
  = ([start_rdb; end_database 0; end_rdb], OK [x2a]).
Proof.
  apply (proj2 (@database_callbacks_nested digit_builtins all_pass
                  (bytes_of_string "REDIS0006" ++ [xff; x2a])) 6 [x2a]);
    [reflexivity | reflexivity | lia | reflexivity].
Defined.

(** ** LZF: a reference that points before the output *)

Lemma getitem_wraps (s : list byte) (k : nat) :
  (k < List.length s)%nat ->
  getitem s (Z.of_nat k - Z.of_nat (List.length s)) = OK (nth k s x00).
Proof.
  intros Hk. unfold getitem.
  destruct (Z.ltb_spec (Z.of_nat k - Z.of_nat (List.length s)) 0); [| lia].
  replace (Z.of_nat k - Z.of_nat (List.length s) + Z.of_nat (List.length s))
    with (Z.of_nat k) by lia.
  destruct (Z.ltb_spec (Z.of_nat k) 0); [lia |].
  now rewrite Nat2Z.id, (nth_error_nth' s x00 Hk).
Qed.

Lemma lzf_backref_wraps (n : nat) :
  forall (k : nat) (out_stream : list byte) (out_index : Z),
    (k + n <= List.length out_stream)%nat ->
    exists res,
      lzf_backref n (Z.of_nat k - Z.of_nat (List.length out_stream))
        out_stream out_index
      = OK (res, out_index + Z.of_nat n)
      /\ List.length res = (List.length out_stream + n)%nat
      /\ firstn (List.length out_stream) res = out_stream
      /\ forall i, (i < n)%nat ->
           nth (List.length out_stream + i) res x00 = nth (k + 2 * i) res x00.
Proof.
  induction n as [| n IH]; intros k out_stream out_index Hk;
    cbn [lzf_backref].
  - exists out_stream. rewrite Z.add_0_r, Nat.add_0_r, firstn_all.
    repeat split. intros i Hi. lia.
  - rewrite getitem_wraps by lia. cbn [rbind].
    set (b := nth k out_stream x00).
    destruct (IH (k + 2)%nat (out_stream ++ [b]) (out_index + 1))
      as (res & Hrun & Hlen & Hfirst & Hnth).
    { rewrite length_app. cbn [List.length]. lia. }
    rewrite length_app in Hrun, Hlen, Hfirst, Hnth. cbn [List.length] in *.
    replace (Z.of_nat (k + 2) - Z.of_nat (List.length out_stream + 1))
      with (Z.of_nat k - Z.of_nat (List.length out_stream) + 1) in Hrun by lia.
    exists res. rewrite Hrun.
    assert (Hpre : forall j, (j < List.length out_stream + 1)%nat ->
                     nth j res x00 = nth j (out_stream ++ [b]) x00).
    { intros j Hj. rewrite <- Hfirst.
      now rewrite nth_firstn, (proj2 (Nat.ltb_lt _ _) Hj). }
    split; [f_equal; f_equal; lia |].
    split; [lia |].
    split.
    + apply (f_equal (firstn (List.length out_stream))) in Hfirst.
      rewrite firstn_firstn, Nat.min_l in Hfirst by lia.
      now rewrite Hfirst, firstn_app, Nat.sub_diag, firstn_all, firstn_O,
        app_nil_r.
    + intros [| i] Hi.
      * rewrite Nat.add_0_r, Nat.mul_0_r, Nat.add_0_r.
        rewrite !Hpre by lia.
        rewrite app_nth2, Nat.sub_diag by lia. cbn [nth].
        now rewrite app_nth1 by lia.
      * replace (List.length out_stream + S i)%nat
          with (List.length out_stream + 1 + i)%nat by lia.
        replace (k + 2 * S i)%nat with (k + 2 + 2 * i)%nat by lia.
        apply Hnth. lia.
Qed.

(** X17.  A back-reference that points before the start of the output is
    not refused as long as it points at most [len(out)] bytes before it:
    Python's negative index counts from the end of the output, which
    grows with every byte copied, so while the reference is negative the
    copy takes every second byte, starting [k] bytes into the output when
    the reference is [k - len(out)].  Only a reference further back than
    that raises IndexError. *)
Theorem lzf_reference_before_start (out_stream : list byte) (out_index : Z) :
  (forall n k : nat,
     (k + n <= List.length out_stream)%nat ->
     exists res,
       lzf_backref n (Z.of_nat k - Z.of_nat (List.length out_stream))
         out_stream out_index
       = OK (res, out_index + Z.of_nat n)
       /\ List.length res = (List.length out_stream + n)%nat
       /\ firstn (List.length out_stream) res = out_stream
       /\ forall i, (i < n)%nat ->
            nth (List.length out_stream + i) res x00 = nth (k + 2 * i) res x00) /\
  (forall (n : nat) (ref : Z),
     ref < - Z.of_nat (List.length out_stream) ->
     lzf_backref (S n) ref out_stream out_index = Err IndexError).
Proof.
  split.
  - intros n k Hk. now apply lzf_backref_wraps.
  - intros n ref Href. cbn [lzf_backref].
    now rewrite getitem_too_far.
Qed.

Lemma lzf_reference_before_start_witness :
  (exists res,
     lzf_backref 3 (-3) ["a"; "b"; "c"; "d"]%byte 4 = OK (res, 7)
     /\ List.length res = 7%nat
     /\ firstn 4 res = ["a"; "b"; "c"; "d"]%byte
     /\ forall i, (i < 3)%nat -> nth (4 + i) res x00 = nth (1 + 2 * i) res x00) /\
  lzf_backref 1 (-5) ["a"; "b"; "c"; "d"]%byte 4 = Err IndexError.
Proof.
  split.
  - apply (proj1 (lzf_reference_before_start ["a"; "b"; "c"; "d"]%byte 4)
             3%nat 1%nat).
    cbn. lia.
  - apply (proj2 (lzf_reference_before_start ["a"; "b"; "c"; "d"]%byte 4)
             0%nat (-5)).
    cbn. lia.
Defined.

(** ** A filter only leaves callbacks out *)

Section FilteringProofs.
Context {B : PyBuiltins}.

Lemma left_out_refl (evs : list event) : left_out evs evs.
Proof. induction evs; now constructor. Qed.

Lemma left_out_all (evs : list event) : left_out [] evs.
Proof. induction evs; now constructor. Qed.

Lemma left_out_app (sub1 evs1 sub2 evs2 : list event) :
  left_out sub1 evs1 -> left_out sub2 evs2 ->
  left_out (sub1 ++ sub2) (evs1 ++ evs2).
Proof.
  intros H1 H2. induction H1; cbn [app]; [assumption | |]; now constructor.
Qed.

Lemma filtered_refl {A : Type} (m : E A) : filtered m m.
Proof. intros evs a H _. exists evs. split; [exact H | apply left_out_refl]. Qed.

Lemma filtered_bind {A C : Type} (m m' : E A) (k k' : A -> E C) :
  filtered m m' -> (forall a, filtered (k a) (k' a)) ->
  filtered (bind m k) (bind m' k').
Proof.
  intros Hm Hk evs c H Hclean.
  destruct (bind_OK_inv m k evs c H) as (evs1 & a & evs2 & H1 & H2 & ->).
  apply Forall_app in Hclean. destruct Hclean as [Hc1 Hc2].
  destruct (Hm evs1 a H1 Hc1) as (sub1 & -> & Hs1).
  destruct (Hk a evs2 c H2 Hc2) as (sub2 & Hr2 & Hs2).
  exists (sub1 ++ sub2). cbn [bind]. rewrite Hr2.
  split; [reflexivity | now apply left_out_app].
Qed.

Lemma known_type_listed (data_type : Z) (logical_type : string) :
  get_logical_type data_type = OK logical_type ->
  mem_string logical_type ["set"; "hash"; "sortedset"; "string"; "list"]%string
  = true.
Proof.
  unfold get_logical_type.
  repeat match goal with
    | |- context [data_type =? ?k] => destruct (data_type =? k)
    end; intros [= <-]; reflexivity.
Qed.

(** Without filters a record that is read is decoded. *)
Lemma parse_record_unfiltered (db_number : Z) (expiry : option datetime)
    (data_type : Z) (f f' : stream) (evs : list event) :
  parse_record all_pass db_number expiry data_type f = (evs, OK f') ->
  exists key f1,
    read_string f = OK (key, f1)
    /\ (exists logical_type, get_logical_type data_type = OK logical_type)
    /\ read_object key expiry f1 data_type = (evs, OK f').
Proof.
  intros H.
  destruct (read_string f) as [[key f1] | e] eqn:Hkey.
  - destruct (get_logical_type data_type) as [lt | e] eqn:Hlt.
    + rewrite (parse_record_dispatch all_pass db_number expiry data_type lt
                 key f f1 Hkey Hlt) in H.
      cbn [db_rejected all_pass dbs keys types] in H.
      rewrite andb_false_r, (known_type_listed data_type lt Hlt) in H.
      cbn [negb andb] in H. exists key, f1.
      split; [reflexivity |]. split; [now exists lt | exact H].
    + unfold parse_record, matches_filter in H.
      cbn [db_rejected all_pass dbs keys types truthy andb] in H.
      rewrite bind_lift_OK, Hkey, bind_lift_OK, andb_false_r, Hlt in H.
      cbn [rbind] in H. rewrite bind_lift_Err in H. discriminate H.
  - unfold parse_record, matches_filter in H.
    cbn [db_rejected all_pass dbs keys types truthy andb] in H.
    rewrite bind_lift_OK, Hkey, bind_lift_Err in H. discriminate H.
Qed.

Lemma read_object_zset_start (key : value) (expiry : option datetime)
    (f f' : stream) (evs : list event) :
  read_object key expiry f REDIS_RDB_TYPE_ZSET = (evs, OK f') ->
  exists e rest, evs = e :: rest /\ plain_sorted_set e = true.
Proof.
  unfold read_object. cbn [Z.eqb REDIS_RDB_TYPE_ZSET REDIS_RDB_TYPE_STRING
    REDIS_RDB_TYPE_LIST REDIS_RDB_TYPE_SET Pos.eqb].
  destruct (read_length f) as [[length f1] | e];
    [rewrite bind_lift_OK | rewrite bind_lift_Err; discriminate].
  rewrite bind_emit. intros [= <- _]. eexists _, _. split; reflexivity.
Qed.

Lemma parse_record_filtered (flt : filters) (db_number : Z)
    (expiry : option datetime) (data_type : Z) (f : stream) :
  filtered (parse_record all_pass db_number expiry data_type f)
           (parse_record flt db_number expiry data_type f).
Proof.
  intros evs f' H Hclean.
  destruct (parse_record_unfiltered _ _ _ _ _ _ H)
    as (key & f1 & Hkey & [lt Hlt] & Hobj).
  assert (Hz : data_type <> REDIS_RDB_TYPE_ZSET).
  { intros ->. destruct (read_object_zset_start _ _ _ _ _ Hobj)
      as (e & rest & -> & He).
    inversion Hclean; subst. congruence. }
  pose proof (read_string_skip_string f _ Hkey) as Hskip. cbn [snd] in Hskip.
  pose proof (read_object_skip_object key expiry f1 data_type Hz evs f' Hobj)
    as Hskipo.
  rewrite (parse_record_dispatch flt db_number expiry data_type lt key f f1
             Hkey Hlt).
  destruct (db_rejected flt db_number).
  - exists []. unfold skip_key_and_object. rewrite Hskip. cbn [rbind].
    rewrite Hskipo. split; [reflexivity | apply left_out_all].
  - destruct (_ && _).
    + exists evs. split; [exact Hobj | apply left_out_refl].
    + exists []. rewrite Hskipo. split; [reflexivity | apply left_out_all].
Qed.

Lemma parse_loop_filtered (flt : filters) (fuel : nat) :
  forall (first : bool) (db_number : Z) (f : stream),
    filtered (parse_loop fuel all_pass first db_number f)
             (parse_loop fuel flt first db_number f).
Proof.
  induction fuel as [| fuel IH]; intros first db_number f; cbn [parse_loop].
  - apply filtered_refl.
  - apply filtered_bind; [apply filtered_refl |]. intros [data_type f1].
    apply filtered_bind; [apply filtered_refl |]. intros [[expiry dt] f2].
    destruct (dt =? REDIS_RDB_OPCODE_SELECTDB).
    + apply filtered_bind; [apply filtered_refl |]. intros _.
      apply filtered_bind; [apply filtered_refl |]. intros [n f3].
      apply filtered_bind; [apply filtered_refl |]. intros _. apply IH.
    + destruct (dt =? REDIS_RDB_OPCODE_EOF); [apply filtered_refl |].
      apply filtered_bind; [apply parse_record_filtered |].
      intros f3. apply IH.
Qed.

(** X18.  A filter only leaves callbacks out.  If a dump parses without
    filters and holds no plain (type 3) sorted set, then under any filter
    the parse returns too, stops at the same place of the file, and makes
    the same callbacks in the same order except for those it leaves out. *)
Theorem filter_only_leaves_out (unfiltered flt : filters) (file : list byte)
    (evs : list event) (rest : stream) :
  init_filter None = OK unfiltered ->
  parse unfiltered file = (evs, OK rest) ->
  Forall (fun e => plain_sorted_set e = false) evs ->
  exists sub, parse flt file = (sub, OK rest) /\ left_out sub evs.
Proof.
  intros Hinit.
  assert (Hflt : unfiltered = all_pass) by (injection Hinit as <-; reflexivity).
  subst unfiltered. clear Hinit. revert evs rest. change (filtered (parse all_pass file) (parse flt file)).
  unfold parse. destruct (read 5 file) as [magic f1].
  apply filtered_bind; [apply filtered_refl |]. intros _.
  destruct (read 4 f1) as [version f2].
  apply filtered_bind; [apply filtered_refl |]. intros _.
  apply filtered_bind; [apply filtered_refl |]. intros _.
  apply parse_loop_filtered.
Qed.

End FilteringProofs.

Lemma filter_only_leaves_out_witness :
  exists sub,
    @parse digit_builtins reject_keys
      (bytes_of_string "REDIS0006"
         ++ [xfe; x00; x00; x01; "k"; x03; "b"; "a"; "r"; xff]%byte)
    = (sub, OK [])
    /\ left_out sub
         [start_rdb; start_database 0;
          set_ (VStr ["k"]%byte) (VStr ["b"; "a"; "r"]%byte) None
            (plain "string");
          end_database 0; end_rdb].
Proof.
  apply (@filter_only_leaves_out digit_builtins all_pass reject_keys
           (bytes_of_string "REDIS0006"
              ++ [xfe; x00; x00; x01; "k"; x03; "b"; "a"; "r"; xff]%byte)).
  - reflexivity.
  - reflexivity.
  - repeat constructor.
Defined.

(** ** A parse ends behind an EOF opcode *)

Lemma tail_of_refl (f : stream) : tail_of f f.
Proof. now exists []. Qed.

Lemma tail_of_trans (f g h : stream) : tail_of f g -> tail_of g h -> tail_of f h.
Proof. intros [p ->] [q ->]. exists (p ++ q). apply app_assoc. Qed.

Lemma tail_of_skipn (n : nat) (f : stream) : tail_of f (skipn n f).
Proof. exists (firstn n f). symmetry. apply firstn_skipn. Qed.

Lemma tail_of_cons (b : byte) (f f' : stream) :
  tail_of f (b :: f') -> tail_of f f'.
Proof. intros [p ->]. exists (p ++ [b]). now rewrite <- app_assoc. Qed.

Lemma rest_tail {A : Type} (n : nat) (f : stream) (r : res (A * stream)) :
  rpost (fun p => snd p = skipn n f) r -> rpost (fun p => tail_of f (snd p)) r.
Proof.
  intros H p Hp. pose proof (H p Hp) as Hrest. destruct p as [a g].
  cbn [snd] in *. subst g. apply tail_of_skipn.
Qed.

Lemma read_unsigned_le_tail (n : nat) (f : stream) :
  rpost (fun p => tail_of f (snd p)) (read_unsigned_le n f).
Proof. apply (rest_tail n), read_unsigned_le_rest. Qed.

Lemma read_tail (n : Z) (f : stream) : tail_of f (snd (read n f)).
Proof. apply tail_of_skipn. Qed.

Lemma skip_tail (f : stream) (free : Z) : tail_of f (skip f free).
Proof.
  unfold skip. destruct (free =? 0); [apply tail_of_refl | apply read_tail].
Qed.

Ltac tail_trans := cbn [fst snd] in *; eauto using tail_of_trans, tail_of_refl.

Lemma ntohl_tail (f : stream) : rpost (fun p => tail_of f (snd p)) (ntohl f).
Proof.
  unfold ntohl. eapply rpost_bind; [apply (read_unsigned_le_tail 4) |].
  intros [v f1] H. apply rpost_OK. exact H.
Qed.

Lemma read_length_with_encoding_tail (f : stream) :
  rpost (fun p => tail_of f (snd p)) (read_length_with_encoding f).
Proof.
  unfold read_length_with_encoding.
  eapply rpost_bind; [apply (read_unsigned_le_tail 1) |].
  intros [b0 f1] H1. cbv zeta.
  destruct (_ =? REDIS_RDB_ENCVAL); [now apply rpost_OK |].
  destruct (_ =? REDIS_RDB_6BITLEN); [now apply rpost_OK |].
  destruct (_ =? REDIS_RDB_14BITLEN).
  - eapply rpost_bind; [apply (read_unsigned_le_tail 1) |].
    intros [b1 f2] H2. apply rpost_OK. tail_trans.
  - eapply rpost_bind; [apply ntohl_tail |].
    intros [l f2] H2. apply rpost_OK. tail_trans.
Qed.

Lemma read_length_tail (f : stream) :
  rpost (fun p => tail_of f (snd p)) (read_length f).
Proof.
  unfold read_length. eapply rpost_bind; [apply read_length_with_encoding_tail |].
  intros [t f1] H. apply rpost_OK. exact H.
Qed.

Lemma skip_string_tail (f : stream) : rpost (tail_of f) (skip_string f).
Proof.
  unfold skip_string.
  eapply rpost_bind; [apply read_length_with_encoding_tail |].
  intros [[length is_encoded] f1] H1. cbv zeta. cbn [fst snd] in *.
  apply rpost_bind with (Q := fun p => tail_of f1 (snd p)).
  - destruct is_encoded; [| apply rpost_OK, tail_of_refl].
    repeat (destruct (length =? _); [apply rpost_OK, tail_of_refl |]).
    destruct (length =? _); [| apply rpost_OK, tail_of_refl].
    eapply rpost_bind; [apply read_length_tail |]. intros [clen f2] H2.
    eapply rpost_bind; [apply read_length_tail |]. intros [l f3] H3.
    apply rpost_OK. tail_trans.
  - intros [n f2] H2. apply rpost_OK.
    pose proof (skip_tail f2 n). tail_trans.
Qed.

Lemma read_string_tail (f : stream) :
  rpost (fun p => tail_of f (snd p)) (read_string f).
Proof.
  intros p Hp. apply (skip_string_tail f), (read_string_skip_string f p Hp).
Qed.

Lemma skip_strings_loop_tail (n : nat) :
  forall f, rpost (tail_of f) (skip_strings_loop n f).
Proof.
  induction n as [| n IH]; intros f; cbn [skip_strings_loop].
  - apply rpost_OK, tail_of_refl.
  - eapply rpost_bind; [apply skip_string_tail |].
    intros f1 H1 f2 H2. pose proof (IH f1 f2 H2). tail_trans.
Qed.

Lemma skip_object_tail (f : stream) (enc_type : Z) :
  rpost (tail_of f) (skip_object f enc_type).
Proof.
  unfold skip_object.
  apply rpost_bind with (Q := fun p => tail_of f (snd p)).
  - repeat match goal with
      | |- rpost _ (if ?c then _ else _) => destruct c
      | |- rpost _ (OK _) => apply rpost_OK, tail_of_refl
      | |- rpost _ (Err _) => apply rpost_Err
      | |- rpost _ (read_length _) => apply read_length_tail
      | |- rpost _ (rbind (read_length _) _) =>
          eapply rpost_bind; [apply read_length_tail |];
          intros [? ?] ?; now apply rpost_OK
      end.
  - intros [n f1] H1 f2 H2.
    pose proof (skip_strings_loop_tail _ f1 f2 H2). tail_trans.
Qed.

Lemma skip_key_and_object_tail (f : stream) (data_type : Z) :
  rpost (tail_of f) (skip_key_and_object f data_type).
Proof.
  unfold skip_key_and_object. eapply rpost_bind; [apply skip_string_tail |].
  intros f1 H1 f2 H2. pose proof (skip_object_tail f1 data_type f2 H2).
  tail_trans.
Qed.

Lemma u8_eof (b : byte) : u8 b = REDIS_RDB_OPCODE_EOF -> b = xff.
Proof. destruct b; intros H; try reflexivity; cbv in H; discriminate H. Qed.

Lemma read_unsigned_char_inv (f f' : stream) (v : Z) :
  read_unsigned_char f = OK (v, f') -> exists b, f = b :: f' /\ v = u8 b.
Proof.
  destruct f as [| b f].
  - rewrite read_unsigned_char_nil. discriminate.
  - rewrite read_unsigned_char_cons. intros [= <- <-]. now exists b.
Qed.

(** The byte the driver dispatches on is the last one read before it. *)
Lemma opcode_tail (f f1 f2 : stream) (first_byte data_type : Z)
    (expiry : option datetime) :
  read_unsigned_char f = OK (first_byte, f1) ->
  read_expiry first_byte f1 = OK (expiry, data_type, f2) ->
  exists b, u8 b = data_type /\ tail_of f (b :: f2).
Proof.
  intros H1 H2. destruct (read_unsigned_char_inv _ _ _ H1) as (b & -> & ->).
  unfold read_expiry in H2.
  assert (Hnext : forall (w : nat) g g' v,
            rbind (read_unsigned_le w g)
              (fun p => let '(t, g1) := p in
                 '(dt, g2) <- read_unsigned_char g1 ;; OK (v t, dt, g2))
            = OK (expiry, data_type, g') ->
            exists b', u8 b' = data_type /\ tail_of g (b' :: g')).
  { intros w g g' v H.
    destruct (read_unsigned_le w g) as [[t g1] |] eqn:Ht; [| discriminate H].
    cbn [rbind] in H.
    destruct (read_unsigned_char g1) as [[dt g2] |] eqn:Hdt;
      [| discriminate H].
    cbn [rbind] in H. injection H as _ <- <-.
    destruct (read_unsigned_char_inv _ _ _ Hdt) as (b' & -> & ->).
    exists b'. split; [reflexivity |].
    exact (read_unsigned_le_tail w g _ Ht). }
  destruct (u8 b =? REDIS_RDB_OPCODE_EXPIRETIME_MS).
  { destruct (Hnext 8%nat f1 f2 (fun ms => Some (to_datetime (ms * 1000))) H2)
      as (b' & Hb' & Ht).
    exists b'. split; [exact Hb' |].
    eapply tail_of_trans; [exists [b]; reflexivity | exact Ht]. }
  destruct (u8 b =? REDIS_RDB_OPCODE_EXPIRETIME).
  { destruct (Hnext 4%nat f1 f2 (fun s => Some (to_datetime (s * 1000000))) H2)
      as (b' & Hb' & Ht).
    exists b'. split; [exact Hb' |].
    eapply tail_of_trans; [exists [b]; reflexivity | exact Ht]. }
  injection H2 as _ <- <-. exists b. split; [reflexivity | apply tail_of_refl].
Qed.

Section Tails.
Context {B : PyBuiltins}.

Lemma for_range_tail (body : stream -> E stream) (n : nat) :
  (forall g, post (fun _ g' => tail_of g g') (body g)) ->
  forall f, post (fun _ f' => tail_of f f') (for_range n body f).
Proof.
  intros Hbody. induction n as [| n IH]; intros f; cbn [for_range].
  - apply post_ret, tail_of_refl.
  - apply post_bind with (Q := fun _ g => tail_of f g); [apply Hbody |].
    intros ? g Hg. eapply post_weaken; [| apply IH].
    intros ? f' Hf'. tail_trans.
Qed.

Lemma read_object_tail (key : value) (expiry : option datetime) (f : stream)
    (enc_type : Z) :
  post (fun _ f' => tail_of f f') (read_object key expiry f enc_type).
Proof.
  destruct (Z.eq_dec enc_type REDIS_RDB_TYPE_ZSET) as [-> | Hz].
  - unfold read_object.
    cbn [Z.eqb Pos.eqb REDIS_RDB_TYPE_ZSET REDIS_RDB_TYPE_STRING
           REDIS_RDB_TYPE_LIST REDIS_RDB_TYPE_SET].
    apply post_bind with (Q := fun _ p => tail_of f (snd p));
      [apply post_lift, read_length_tail |].
    intros ? [n f1] H1. apply post_result_bind. intros ?.
    apply post_bind with (Q := fun _ f2 => tail_of f1 f2).
    + apply for_range_tail. intros g.
      apply post_bind with (Q := fun _ p => tail_of g (snd p));
        [apply post_lift, read_string_tail |].
      intros ? [val g1] Hg1.
      apply post_bind with (Q := fun _ p => tail_of g1 (snd p));
        [apply post_lift, (read_unsigned_le_tail 1) |].
      intros ? [dbl_length g2] Hg2.
      pose proof (read_tail dbl_length g2) as Hg3.
      destruct (read dbl_length g2) as [sc g3].
      apply post_result_bind. intros ?. apply post_result_bind. intros ?.
      apply post_ret. tail_trans.
    + intros ? f2 H2. apply post_result_bind. intros ?.
      apply post_ret. tail_trans.
  - intros evs f' H.
    apply (skip_object_tail f enc_type f').
    exact (read_object_skip_object key expiry f enc_type Hz evs f' H).
Qed.

Lemma parse_record_tail (flt : filters) (db_number : Z)
    (expiry : option datetime) (data_type : Z) (f : stream) :
  post (fun _ f' => tail_of f f')
    (parse_record flt db_number expiry data_type f).
Proof.
  unfold parse_record. apply post_result_bind. intros [|].
  - apply post_bind with (Q := fun _ p => tail_of f (snd p));
      [apply post_lift, read_string_tail |].
    intros ? [key f1] H1. apply post_result_bind. intros [|].
    + eapply post_weaken; [| apply read_object_tail].
      intros ? f' Hf'. tail_trans.
    + apply post_lift. intros f' Hf'.
      pose proof (skip_object_tail f1 data_type f' Hf'). tail_trans.
  - apply post_lift, skip_key_and_object_tail.
Qed.

Lemma parse_loop_tail (flt : filters) (fuel : nat) :
  forall (first : bool) (db_number : Z) (f : stream),
    post (fun _ rest => tail_of f (xff :: rest))
      (parse_loop fuel flt first db_number f).
Proof.
  induction fuel as [| fuel IH]; intros first db_number f; cbn [parse_loop].
  - apply post_Err.
  - apply post_bind with (Q := fun _ p => read_unsigned_char f = OK p);
      [apply post_lift; intros p Hp; exact Hp |].
    intros ? [first_byte f1] H1.
    apply post_bind
      with (Q := fun _ p => read_expiry first_byte f1 = OK p);
      [apply post_lift; intros p Hp; exact Hp |].
    intros ? [[expiry data_type] f2] H2.
    destruct (opcode_tail f f1 f2 first_byte data_type expiry H1 H2)
      as (b & Hb & Ht).
    destruct (data_type =? REDIS_RDB_OPCODE_SELECTDB).
    + apply post_result_bind. intros ?.
      apply post_bind with (Q := fun _ p => tail_of f2 (snd p));
        [apply post_lift, read_length_tail |].
      intros ? [n f3] H3. apply post_result_bind. intros ?.
      eapply post_weaken; [| apply IH].
      intros ? rest Hrest. apply tail_of_cons in Ht. tail_trans.
    + destruct (Z.eqb_spec data_type REDIS_RDB_OPCODE_EOF) as [-> | _].
      * apply post_result_bind. intros ?. apply post_result_bind. intros ?.
        apply post_ret. now rewrite <- (u8_eof b Hb).
      * apply post_bind with (Q := fun _ f3 => tail_of f2 f3);
          [apply parse_record_tail |].
        intros ? f3 H3. eapply post_weaken; [| apply IH].
        intros ? rest Hrest. apply tail_of_cons in Ht. tail_trans.
Qed.

(** X19.  A parse returns only behind an EOF opcode.  Whenever [parse]
    returns, the file is its nine header bytes, then the bytes the loop
    read, then the byte 255, then exactly what is left unread: a file
    that is cut before its EOF opcode never parses, and nothing behind
    that opcode (the checksum of the later versions) is read. *)
Theorem parse_ends_behind_eof (flt : filters) (file : list byte)
    (evs : list event) (rest : stream) :
  parse flt file = (evs, OK rest) ->
  exists body, file = firstn 9 file ++ body ++ xff :: rest.
Proof.
  unfold parse, read. change (Z.to_nat 5) with 5%nat.
  change (Z.to_nat 4) with 4%nat. intros H.
  apply bind_OK_inv in H. destruct H as (_ & _ & evs1 & _ & H & _).
  apply bind_OK_inv in H. destruct H as (_ & _ & evs2 & _ & H & _).
  apply bind_OK_inv in H. destruct H as (_ & _ & evs3 & _ & H & _).
  destruct (parse_loop_tail flt _ true 0 _ evs3 rest H) as [body Hbody].
  exists body. rewrite <- Hbody, skipn_skipn. cbn [Nat.add].
  symmetry. apply firstn_skipn.
Qed.

End Tails.

Lemma parse_ends_behind_eof_witness :
  exists body,
    bytes_of_string "REDIS0006" ++ [xfe; x00; xff; x2a]
    = firstn 9 (bytes_of_string "REDIS0006" ++ [xfe; x00; xff; x2a])
        ++ body ++ [xff; x2a].
Proof.
  apply (@parse_ends_behind_eof digit_builtins all_pass
           (bytes_of_string "REDIS0006" ++ [xfe; x00; xff; x2a])
           [start_rdb; start_database 0; end_database 0; end_rdb] [x2a]).
  reflexivity.
Defined.
